(** * jsjiit-server: the portal's obfuscation layer (src/index.js)

    A shallow embedding of [src/index.js] and of the platform functions it
    calls, followed by the properties of the program.

    - Part I    the JavaScript fragment: completions, numbers, strings, values;
    - Part II   the platform: [Date] (ECMA-262 21.4), [TextEncoder] and
                [TextDecoder] (WHATWG Encoding), [btoa]/[atob] (HTML 8.3),
                [JSON] (ECMA-262 25.5), AES-CBC of [webcrypto.subtle]
                (FIPS 197, SP 800-38A, RFC 5652 padding);
    - Part III  the program, function by function, under the source's names;
    - Part IV   lemmas and theorems;
    - Part V    further properties of the program.

    What the embedding leaves out.  Numbers are exact decimals, so that a
    product such as [Math.random() * 62] or [exp * 1000] is not rounded to a
    double.  Objects are association lists in the order of their text,
    where JavaScript enumerates integer-like keys first.  Values hold no
    Symbol, no function and no object with methods of its own, so the
    conversion of an argument to a string never throws.  How many arguments
    [Function.prototype.apply] passes on is a parameter of the program. *)

From Stdlib Require Import ZArith List String Ascii Bool Lia QArith Qround Btauto.
Import ListNotations.
Open Scope Z_scope.

Set Warnings "-register-all".

(* ===================================================================== *)
(** * Part I. The JavaScript fragment                                     *)
(* ===================================================================== *)

(** ** Completions *)

(** The exceptions that the program and its platform calls can raise. *)
Inductive exn : Type :=
  | TypeError
  | SyntaxError
  | RangeError              (* too many arguments for [apply] *)
  | InvalidCharacterError   (* DOMException of [atob] *)
  | DataError               (* DOMException of [importKey] *)
  | OperationError          (* DOMException of [subtle.decrypt] *)
  | NetworkError.           (* rejection of [fetch] *)

(** A call either returns or throws; an [async] function's promise either
    fulfils or rejects, and [await] turns the rejection into a throw. *)
Inductive result (A : Type) : Type :=
  | Ok (a : A)
  | Throw (e : exn).
Arguments Ok {A} a.
Arguments Throw {A} e.

Definition rbind {A B} (r : result A) (k : A -> result B) : result B :=
  match r with
  | Ok a => k a
  | Throw e => Throw e
  end.

Declare Scope result_scope.
Delimit Scope result_scope with result.
Notation "'let?' x ':=' r 'in' k" := (rbind r (fun x => k))
  (at level 10, x pattern, r at level 100, k at level 200) : result_scope.
Open Scope result_scope.

Definition throws {A} (r : result A) : bool :=
  match r with Ok _ => false | Throw _ => true end.

(** ** Strings

    A JavaScript string is a sequence of UTF-16 code units. *)
Definition code_unit := Z.
Definition jsstring := list code_unit.

(** String literals of the source, all of them ASCII. *)
Definition lit (s : string) : jsstring :=
  map (fun a => Z.of_nat (nat_of_ascii a)) (list_ascii_of_string s).

(** A literal between double quotes, as in JSON text. *)
Definition quoted (s : string) : jsstring := 34 :: lit s ++ [34].

Definition code_unit_ok (c : Z) : Prop := 0 <= c < 65536.
Definition jsstring_ok (s : jsstring) : Prop := Forall code_unit_ok s.

Definition str_eqb (a b : jsstring) : bool :=
  if list_eq_dec Z.eq_dec a b then true else false.

Definition len (s : jsstring) : Z := Z.of_nat (List.length s).

Fixpoint repeat_to (n : nat) (fill cur : jsstring) : jsstring :=
  match n with
  | O => []
  | S n' =>
      match cur with
      | [] => match fill with
              | [] => []
              | c :: cur' => c :: repeat_to n' fill cur'
              end
      | c :: cur' => c :: repeat_to n' fill cur'
      end
  end.

(** [String.prototype.padStart(maxLength, fillString)] (ECMA-262 22.1.3.17). *)
Definition padStart (s : jsstring) (maxLength : Z) (fill : jsstring) : jsstring :=
  if maxLength <=? len s then s
  else match fill with
       | [] => s
       | _ => repeat_to (Z.to_nat (maxLength - len s)) fill fill ++ s
       end.

(** [String.prototype.slice(start)] with [end] omitted (ECMA-262 22.1.3.23). *)
Definition slice (s : jsstring) (start : Z) : jsstring :=
  let from := if start <? 0 then Z.max (len s + start) 0 else Z.min start (len s) in
  skipn (Z.to_nat from) s.

(** [String.prototype.split(separator)] for a one-unit separator. *)
Fixpoint split_on (sep : Z) (s : jsstring) : list jsstring :=
  match s with
  | [] => [[]]
  | c :: s' =>
      if c =? sep then [] :: split_on sep s'
      else match split_on sep s' with
           | [] => [[c]]
           | seg :: segs => (c :: seg) :: segs
           end
  end.

(** ** Numbers

    A finite Number is kept as the exact decimal it prints as: an integer, or
    [m / 10^e] with [e >= 1] and [m] not a multiple of 10.  The rounding of
    IEEE doubles is not modelled. *)
Inductive number : Type :=
  | Int (z : Z)
  | Frac (m : Z) (e : nat)
  | NaN.

Definition number_ok (n : number) : Prop :=
  match n with
  | Int _ => True
  | Frac m e => (e <> 0)%nat /\ m mod 10 <> 0
  | NaN => False
  end.

(** The canonical form of [m / 10^e]. *)
Fixpoint mk_dec (m : Z) (e : nat) : number :=
  match e with
  | O => Int m
  | S e' => if m mod 10 =? 0 then mk_dec (m / 10) e' else Frac m e
  end.

Definition number_mul (a b : number) : number :=
  match a, b with
  | Int x, Int y => Int (x * y)
  | Int x, Frac m e | Frac m e, Int x => mk_dec (x * m) e
  | Frac m1 e1, Frac m2 e2 => mk_dec (m1 * m2) (e1 + e2)
  | _, _ => NaN
  end.

Definition number_add (a b : number) : number :=
  match a, b with
  | Int x, Int y => Int (x + y)
  | Int x, Frac m e | Frac m e, Int x => mk_dec (x * 10 ^ Z.of_nat e + m) e
  | Frac m1 e1, Frac m2 e2 =>
      mk_dec (m1 * 10 ^ Z.of_nat (Nat.max e1 e2 - e1)
              + m2 * 10 ^ Z.of_nat (Nat.max e1 e2 - e2)) (Nat.max e1 e2)
  | _, _ => NaN
  end.

(** Decimal digits of a non-negative integer, most significant first. *)
Fixpoint digits_fuel (fuel : nat) (n : Z) (acc : jsstring) : jsstring :=
  match fuel with
  | O => acc
  | S fuel' =>
      let acc' := (48 + n mod 10) :: acc in
      if n <? 10 then acc' else digits_fuel fuel' (n / 10) acc'
  end.

Definition digits (n : Z) : jsstring :=
  digits_fuel (S (Z.to_nat (Z.log2 n))) n [].

Fixpoint strip_zeros_rev (r : jsstring) : jsstring :=
  match r with
  | 48 :: r' => strip_zeros_rev r'
  | _ => r
  end.

(** Significant digits: the decimal digits without trailing zeros. *)
Definition significand (n : Z) : jsstring :=
  rev (strip_zeros_rev (rev (digits n))).

Definition zeros (n : Z) : jsstring := repeat 48 (Z.to_nat n).

(** [Number::toString] (ECMA-262 6.1.6.1.20, radix 10) on the digits [s] of
    a positive number whose value is [0.s * 10^n]. *)
Definition format_decimal (s : jsstring) (n : Z) : jsstring :=
  let k := len s in
  if (k <=? n) && (n <=? 21) then s ++ zeros (n - k)
  else if (0 <? n) && (n <=? 21) then
    firstn (Z.to_nat n) s ++ lit "." ++ skipn (Z.to_nat n) s
  else if (-6 <? n) && (n <=? 0) then lit "0." ++ zeros (- n) ++ s
  else
    let e := n - 1 in
    let sign := if e <? 0 then lit "-" else lit "+" in
    match s with
    | [d] => [d] ++ lit "e" ++ sign ++ digits (Z.abs e)
    | d :: ds => [d] ++ lit "." ++ ds ++ lit "e" ++ sign ++ digits (Z.abs e)
    | [] => []
    end.

Definition Number_toString (x : number) : jsstring :=
  match x with
  | NaN => lit "NaN"
  | Int 0 => lit "0"
  | Int z =>
      (if z <? 0 then lit "-" else []) ++
      format_decimal (significand (Z.abs z)) (len (digits (Z.abs z)))
  | Frac m e =>
      (if m <? 0 then lit "-" else []) ++
      format_decimal (digits (Z.abs m)) (len (digits (Z.abs m)) - Z.of_nat e)
  end.

(** ** Values

    The values that reach the program: primitives, arrays and plain objects
    (own properties in insertion order, keys unique). *)
Inductive value : Type :=
  | VUndefined
  | VNull
  | VBool (b : bool)
  | VNum (n : number)
  | VBigInt (z : Z)
  | VStr (s : jsstring)
  | VArr (l : list value)
  | VObj (l : list (jsstring * value)).

Definition BigInt_toString (z : Z) : jsstring :=
  (if z <? 0 then lit "-" else []) ++ digits (Z.abs z).

(** [ToString] (ECMA-262 7.1.17); an array prints as its [join(",")]. *)
Fixpoint ToString (v : value) : jsstring :=
  match v with
  | VUndefined => lit "undefined"
  | VNull => lit "null"
  | VBool true => lit "true"
  | VBool false => lit "false"
  | VNum n => Number_toString n
  | VBigInt z => BigInt_toString z
  | VStr s => s
  | VArr l =>
      (fix join (l : list value) : jsstring :=
         match l with
         | [] => []
         | x :: l' =>
             (match x with
              | VUndefined | VNull => []
              | _ => ToString x
              end) ++
             (match l' with
              | [] => []
              | _ => lit "," ++ join l'
              end)
         end) l
  | VObj _ => lit "[object Object]"
  end.

(** [ToNumber] (ECMA-262 7.1.4).  [StringToNumber] is left to the caller: the
    program never depends on which number a string denotes. *)
Definition ToNumber (StringToNumber : jsstring -> number) (v : value)
  : result number :=
  match v with
  | VUndefined => Ok NaN
  | VNull => Ok (Int 0)
  | VBool true => Ok (Int 1)
  | VBool false => Ok (Int 0)
  | VNum n => Ok n
  | VBigInt _ => Throw TypeError
  | VStr s => Ok (StringToNumber s)
  | VArr _ | VObj _ => Ok (StringToNumber (ToString v))
  end.

Definition is_string (v : value) : bool :=
  match v with VStr _ | VArr _ | VObj _ => true | _ => false end.

(** The addition operator [a + b] (ECMA-262 13.15.3): concatenation as
    soon as one operand is, or converts to, a string. *)
Definition js_add (a b : value) : result value :=
  if is_string a || is_string b then Ok (VStr (ToString a ++ ToString b))
  else
    match a, b with
    | VBigInt x, VBigInt y => Ok (VBigInt (x + y))
    | VBigInt _, _ | _, VBigInt _ => Throw TypeError
    | _, _ =>
        let? x := ToNumber (fun _ => NaN) a in
        let? y := ToNumber (fun _ => NaN) b in
        Ok (VNum (number_add x y))
    end.

(** [s[i]] on a string: the one-unit string at [i], or [undefined]. *)
Definition char_at (s : jsstring) (i : nat) : value :=
  match nth_error s i with
  | Some c => VStr [c]
  | None => VUndefined
  end.

Fixpoint lookup (k : jsstring) (l : list (jsstring * value)) : option value :=
  match l with
  | [] => None
  | (k', v) :: l' => if str_eqb k k' then Some v else lookup k l'
  end.

Fixpoint remove_key (k : jsstring) (l : list (jsstring * value))
  : list (jsstring * value) :=
  match l with
  | [] => []
  | (k', v) :: l' => if str_eqb k k' then l' else (k', v) :: remove_key k l'
  end.

(** [CreateDataProperty]: overwrite in place, or append. *)
Fixpoint define_key (k : jsstring) (v : value) (l : list (jsstring * value))
  : list (jsstring * value) :=
  match l with
  | [] => [(k, v)]
  | (k', v') :: l' =>
      if str_eqb k k' then (k, v) :: l' else (k', v') :: define_key k v l'
  end.

(** [v[name]] for a property name that is not an array index.  None of the
    names the program reads lives on a built-in prototype. *)
Definition get_prop (v : value) (name : jsstring) : result value :=
  match v with
  | VUndefined | VNull => Throw TypeError
  | VObj l => Ok (match lookup name l with Some x => x | None => VUndefined end)
  | VArr l => Ok (if str_eqb name (lit "length") then VNum (Int (Z.of_nat (List.length l)))
                  else VUndefined)
  | VStr s => Ok (if str_eqb name (lit "length") then VNum (Int (len s))
                  else VUndefined)
  | _ => Ok VUndefined
  end.

(** [v[i]] for an array index [i]. *)
Definition get_index (v : value) (i : nat) : result value :=
  match v with
  | VUndefined | VNull => Throw TypeError
  | VObj l => Ok (match lookup (digits (Z.of_nat i)) l with
                  | Some x => x | None => VUndefined end)
  | VArr l => Ok (nth i l VUndefined)
  | VStr s => Ok (char_at s i)
  | _ => Ok VUndefined
  end.

(** [v[name] = x] in strict code (the file is a module): creating a property
    on a primitive throws; a named property on an array is not an element. *)
Definition set_prop (v : value) (name : jsstring) (x : value) : result value :=
  match v with
  | VObj l => Ok (VObj (define_key name x l))
  | VArr l => Ok (VArr l)
  | _ => Throw TypeError
  end.

(** [delete v[name]]. *)
Definition delete_prop (v : value) (name : jsstring) : result value :=
  match v with
  | VUndefined | VNull => Throw TypeError
  | VObj l => Ok (VObj (remove_key name l))
  | _ => Ok v
  end.

(* ===================================================================== *)
(** * Part II. The platform                                               *)
(* ===================================================================== *)

(** ** Date (ECMA-262 21.4.1) *)

Module JSDate.

Definition msPerDay : Z := 86400000.

Definition Day (t : Z) : Z := t / msPerDay.

Definition DaysInYear (y : Z) : Z :=
  if (y mod 4 =? 0) && (negb (y mod 100 =? 0) || (y mod 400 =? 0))
  then 366 else 365.

Definition DayFromYear (y : Z) : Z :=
  365 * (y - 1970) + (y - 1969) / 4 - (y - 1901) / 100 + (y - 1601) / 400.

(** The largest [y] with [DayFromYear y <= Day t]: one of the three years
    around the mean-year estimate. *)
Definition YearFromTime (t : Z) : Z :=
  let d := Day t in
  let y0 := 1970 + (d * 400) / 146097 in
  if DayFromYear (y0 + 1) <=? d then y0 + 1
  else if DayFromYear y0 <=? d then y0
  else y0 - 1.

Definition InLeapYear (t : Z) : Z :=
  if DaysInYear (YearFromTime t) =? 366 then 1 else 0.

Definition DayWithinYear (t : Z) : Z :=
  Day t - DayFromYear (YearFromTime t).

Definition MonthFromTime (t : Z) : Z :=
  let d := DayWithinYear t in
  let l := InLeapYear t in
  if d <? 31 then 0
  else if d <? 59 + l then 1
  else if d <? 90 + l then 2
  else if d <? 120 + l then 3
  else if d <? 151 + l then 4
  else if d <? 181 + l then 5
  else if d <? 212 + l then 6
  else if d <? 243 + l then 7
  else if d <? 273 + l then 8
  else if d <? 304 + l then 9
  else if d <? 334 + l then 10
  else 11.

Definition DateFromTime (t : Z) : Z :=
  let d := DayWithinYear t in
  let l := InLeapYear t in
  match MonthFromTime t with
  | 0 => d + 1
  | 1 => d - 30
  | 2 => d - 58 - l
  | 3 => d - 89 - l
  | 4 => d - 119 - l
  | 5 => d - 150 - l
  | 6 => d - 180 - l
  | 7 => d - 211 - l
  | 8 => d - 242 - l
  | 9 => d - 272 - l
  | 10 => d - 303 - l
  | _ => d - 333 - l
  end.

Definition WeekDay (t : Z) : Z := (Day t + 4) mod 7.

(** [MakeDay]/[MakeDate] for a civil date: the time value of midnight. *)
Definition days_before_month (y m : Z) : Z :=
  let l := if DaysInYear y =? 366 then 1 else 0 in
  match m with
  | 0 => 0 | 1 => 31 | 2 => 59 + l | 3 => 90 + l | 4 => 120 + l
  | 5 => 151 + l | 6 => 181 + l | 7 => 212 + l | 8 => 243 + l
  | 9 => 273 + l | 10 => 304 + l | _ => 334 + l
  end.

Definition MakeTime (y m d : Z) : Z :=
  (DayFromYear y + days_before_month y m + (d - 1)) * msPerDay.

(** A Date object: a time value (milliseconds since the epoch, UTC) or
    the Invalid Date. *)
Inductive Date : Type :=
  | DateAt (tv : Z)
  | InvalidDate.

(** [new Date(value)] on a Number: [TimeClip] (21.4.1.31). *)
Definition maxTime : Z := 8640000000000000.

Definition TimeClip (x : number) : Date :=
  match x with
  | NaN => InvalidDate
  | Int z => if Z.abs z <=? maxTime then DateAt z else InvalidDate
  | Frac m e =>
      let z := Z.quot m (10 ^ Z.of_nat e) in
      if Z.abs z <=? maxTime then DateAt z else InvalidDate
  end.

Section Local.
(** The local time zone adjustment of the process, in milliseconds, as a
    function of the time value. *)
Variable LocalTZA : Z -> Z.

Definition LocalTime (t : Z) : Z := t + LocalTZA t.

Definition getter (f : Z -> Z) (d : Date) : number :=
  match d with
  | DateAt t => Int (f (LocalTime t))
  | InvalidDate => NaN
  end.

Definition getDate : Date -> number := getter DateFromTime.
Definition getMonth : Date -> number := getter MonthFromTime.
Definition getFullYear : Date -> number := getter YearFromTime.
Definition getDay : Date -> number := getter WeekDay.
End Local.

End JSDate.
Export JSDate.

(** ** The world outside the program

    The wall clock, [Math.random] and the network are oracles: the k-th
    reading of each is whatever the world holds at index k.  A run threads
    the world and records the requests it sent. *)
Record Request : Type := mkRequest {
  req_url : jsstring;
  req_method : jsstring;
  req_body : jsstring;
  req_headers : list (jsstring * jsstring)
}.

(** What [fetch] resolves to: the text of the response body. *)
Record Response : Type := mkResponse { body : jsstring }.

Record World : Type := mkWorld {
  clock : nat -> Z;                           (* time value of each reading *)
  ticks : nat;
  entropy : nat -> Q;                         (* each [Math.random()] *)
  draws : nat;
  network : nat -> Request -> result Response;  (* each [fetch] *)
  sent : list Request
}.

(** Computations of the program: a completion and the next world. *)
Definition M (A : Type) : Type := World -> result A * World.

Definition ret {A} (a : A) : M A := fun w => (Ok a, w).

Definition throw {A} (e : exn) : M A := fun w => (Throw e, w).

Definition bind {A B} (m : M A) (k : A -> M B) : M B :=
  fun w =>
    match m w with
    | (Ok a, w') => k a w'
    | (Throw e, w') => (Throw e, w')
    end.

Definition lift {A} (r : result A) : M A := fun w => (r, w).

(** [try { body } catch (e) { handler }]. *)
Definition try_catch {A} (body : M A) (handler : exn -> M A) : M A :=
  fun w =>
    match body w with
    | (Ok a, w') => (Ok a, w')
    | (Throw e, w') => handler e w'
    end.

Declare Scope js_scope.
Delimit Scope js_scope with js.
Notation "x <- m ;; k" := (bind m (fun x => k))
  (at level 61, m at next level, right associativity) : js_scope.
Notation "m ;;; k" := (bind m (fun _ => k))
  (at level 61, right associativity) : js_scope.
Open Scope js_scope.

(** [new Date()]. *)
Definition Date_now : M Date :=
  fun w => (Ok (DateAt (clock w (ticks w))),
            mkWorld (clock w) (S (ticks w)) (entropy w) (draws w)
                    (network w) (sent w)).

(** [Math.random()]. *)
Definition Math_random : M Q :=
  fun w => (Ok (entropy w (draws w)),
            mkWorld (clock w) (ticks w) (entropy w) (S (draws w))
                    (network w) (sent w)).

(** *** Header validation (Fetch, 2.2.2 and 5.2; Web IDL ByteString) *)

Definition is_http_whitespace (c : Z) : bool :=
  (c =? 9) || (c =? 10) || (c =? 13) || (c =? 32).

Fixpoint drop_http_whitespace (s : jsstring) : jsstring :=
  match s with
  | c :: s' => if is_http_whitespace c then drop_http_whitespace s' else s
  | [] => []
  end.

(** A header value is normalized by removing the HTTP white space at its
    two ends. *)
Definition normalize_value (v : jsstring) : jsstring :=
  rev (drop_http_whitespace (rev (drop_http_whitespace v))).

(** The characters of a token (RFC 9110, 5.6.2). *)
Definition is_token_char (c : Z) : bool :=
  ((48 <=? c) && (c <=? 57)) || ((65 <=? c) && (c <=? 90))
  || ((97 <=? c) && (c <=? 122))
  || existsb (Z.eqb c) [33; 35; 36; 37; 38; 39; 42; 43; 45; 46; 94; 95; 96; 124; 126].

Definition header_name_ok (n : jsstring) : bool :=
  match n with
  | [] => false
  | _ => forallb is_token_char n
  end.

(** A header value must be a ByteString (every code unit at most 255) and,
    once normalized, hold no NUL, LF or CR. *)
Definition header_value_ok (v : jsstring) : bool :=
  forallb (fun c => (0 <=? c) && (c <=? 255)) v
  && forallb (fun c => negb ((c =? 0) || (c =? 10) || (c =? 13)))
             (normalize_value v).

Definition headers_ok (hs : list (jsstring * jsstring)) : bool :=
  forallb (fun h => header_name_ok (fst h) && header_value_ok (snd h)) hs.

(** [fetch(url, init)] with the request [r] as it is passed: a header that
    is not valid rejects the promise with [TypeError] and nothing is sent;
    otherwise the request goes out and the network answers. *)
Definition fetch (r : Request) : M Response :=
  fun w =>
    if headers_ok (req_headers r)
    then (network w (List.length (sent w)) r,
          mkWorld (clock w) (ticks w) (entropy w) (draws w)
                  (network w) (sent w ++ [r]))
    else (Throw TypeError, w).

(** ** Bytes and text *)

Definition byte_ok (b : Z) : Prop := 0 <= b < 256.
Definition bytes := list Z.
Definition bytes_ok (l : bytes) : Prop := Forall byte_ok l.

(** ** AES (FIPS 197)

    Bytes are integers in [0, 256); a word is a column of four bytes and a
    block is four columns, in the order of the input bytes. *)
Module AES.

Definition word : Type := (Z * Z * Z * Z)%type.
Definition block : Type := (word * word * word * word)%type.

Definition map_word (f : Z -> Z) (w : word) : word :=
  let '(a, b, c, d) := w in (f a, f b, f c, f d).

Definition xor_word (u v : word) : word :=
  let '(a, b, c, d) := u in
  let '(a', b', c', d') := v in
  (Z.lxor a a', Z.lxor b b', Z.lxor c c', Z.lxor d d').

Definition map_block (f : word -> word) (s : block) : block :=
  let '(c0, c1, c2, c3) := s in (f c0, f c1, f c2, f c3).

Definition xor_block (s k : block) : block :=
  let '(c0, c1, c2, c3) := s in
  let '(k0, k1, k2, k3) := k in
  (xor_word c0 k0, xor_word c1 k1, xor_word c2 k2, xor_word c3 k3).

(** *** Arithmetic in GF(2^8) (FIPS 197, 4.2) *)

(** Multiplication by [x], reduced by [x^8 + x^4 + x^3 + x + 1]. *)
Definition xtime (b : Z) : Z :=
  if b <? 128 then 2 * b else Z.lxor (2 * b - 256) 27.

Fixpoint gmul_n (n : nat) (a b : Z) : Z :=
  match n with
  | O => 0
  | S n' => Z.lxor (if Z.odd b then a else 0) (gmul_n n' (xtime a) (b / 2))
  end.

(** [gmul c a] is the product [{c} . a]. *)
Definition gmul (c a : Z) : Z := gmul_n 8 a c.

Definition gsquare (a : Z) : Z := gmul a a.

(** The multiplicative inverse [a^254], with [0] mapped to [0]. *)
Definition ginv (a : Z) : Z :=
  let a2 := gsquare a in
  let a4 := gsquare a2 in
  let a8 := gsquare a4 in
  let a16 := gsquare a8 in
  let a32 := gsquare a16 in
  let a64 := gsquare a32 in
  let a128 := gsquare a64 in
  gmul a128 (gmul a64 (gmul a32 (gmul a16 (gmul a8 (gmul a4 a2))))).

Definition rotl8 (b : Z) (k : Z) : Z :=
  Z.land (Z.lor (Z.shiftl b k) (Z.shiftr b (8 - k))) 255.

(** *** The S-box (FIPS 197, 5.1.1 and 5.3.2) *)

Definition affine (b : Z) : Z :=
  Z.lxor (Z.lxor (Z.lxor (Z.lxor (Z.lxor b (rotl8 b 1)) (rotl8 b 2))
                         (rotl8 b 3)) (rotl8 b 4)) 99.

Definition inv_affine (b : Z) : Z :=
  Z.lxor (Z.lxor (Z.lxor (rotl8 b 1) (rotl8 b 3)) (rotl8 b 6)) 5.

Definition all_bytes : list Z := map Z.of_nat (seq 0 256).

Definition SBOX : list Z :=
  Eval vm_compute in map (fun b => affine (ginv b)) all_bytes.

Definition INV_SBOX : list Z :=
  Eval vm_compute in map (fun b => ginv (inv_affine b)) all_bytes.

Definition sbox (b : Z) : Z := nth (Z.to_nat b) SBOX 0.
Definition inv_sbox (b : Z) : Z := nth (Z.to_nat b) INV_SBOX 0.

(** *** The round transformations (FIPS 197, 5.1 and 5.3) *)

Definition SubBytes : block -> block := map_block (map_word sbox).
Definition InvSubBytes : block -> block := map_block (map_word inv_sbox).

Definition ShiftRows (s : block) : block :=
  let '((a0, a1, a2, a3), (b0, b1, b2, b3),
        (c0, c1, c2, c3), (d0, d1, d2, d3)) := s in
  ((a0, b1, c2, d3), (b0, c1, d2, a3), (c0, d1, a2, b3), (d0, a1, b2, c3)).

Definition InvShiftRows (s : block) : block :=
  let '((a0, a1, a2, a3), (b0, b1, b2, b3),
        (c0, c1, c2, c3), (d0, d1, d2, d3)) := s in
  ((a0, d1, c2, b3), (b0, a1, d2, c3), (c0, b1, a2, d3), (d0, c1, b2, a3)).

Definition mix_column (w : word) : word :=
  let '(a0, a1, a2, a3) := w in
  (Z.lxor (Z.lxor (Z.lxor (gmul 2 a0) (gmul 3 a1)) a2) a3,
   Z.lxor (Z.lxor (Z.lxor a0 (gmul 2 a1)) (gmul 3 a2)) a3,
   Z.lxor (Z.lxor (Z.lxor a0 a1) (gmul 2 a2)) (gmul 3 a3),
   Z.lxor (Z.lxor (Z.lxor (gmul 3 a0) a1) a2) (gmul 2 a3)).

Definition inv_mix_column (w : word) : word :=
  let '(a0, a1, a2, a3) := w in
  (Z.lxor (Z.lxor (Z.lxor (gmul 14 a0) (gmul 11 a1)) (gmul 13 a2)) (gmul 9 a3),
   Z.lxor (Z.lxor (Z.lxor (gmul 9 a0) (gmul 14 a1)) (gmul 11 a2)) (gmul 13 a3),
   Z.lxor (Z.lxor (Z.lxor (gmul 13 a0) (gmul 9 a1)) (gmul 14 a2)) (gmul 11 a3),
   Z.lxor (Z.lxor (Z.lxor (gmul 11 a0) (gmul 13 a1)) (gmul 9 a2)) (gmul 14 a3)).

Definition MixColumns : block -> block := map_block mix_column.
Definition InvMixColumns : block -> block := map_block inv_mix_column.

Definition AddRoundKey (s k : block) : block := xor_block s k.

(** *** Key expansion (FIPS 197, 5.2) *)

Definition RotWord (w : word) : word :=
  let '(a, b, c, d) := w in (b, c, d, a).

Definition SubWord : word -> word := map_word sbox.

Definition zero_word : word := (0, 0, 0, 0).

Fixpoint words_of (key : bytes) : list word :=
  match key with
  | a :: b :: c :: d :: rest => (a, b, c, d) :: words_of rest
  | _ => []
  end.

(** [expand n Nk i rc ws] appends the words [w[i]], ..., [w[i+n-1]] to [ws];
    [rc] is the round constant due at the next multiple of [Nk]. *)
Fixpoint expand (n Nk i : nat) (rc : Z) (ws : list word) : list word :=
  match n with
  | O => ws
  | S n' =>
      let temp := nth (i - 1) ws zero_word in
      let temp' :=
        if (i mod Nk =? 0)%nat
        then xor_word (SubWord (RotWord temp)) (rc, 0, 0, 0)
        else if (6 <? Nk)%nat && (i mod Nk =? 4)%nat then SubWord temp
        else temp in
      expand n' Nk (S i) (if (i mod Nk =? 0)%nat then xtime rc else rc)
             (ws ++ [xor_word (nth (i - Nk) ws zero_word) temp'])
  end.

Fixpoint round_keys_of (ws : list word) : list block :=
  match ws with
  | a :: b :: c :: d :: rest => (a, b, c, d) :: round_keys_of rest
  | _ => []
  end.

(** The key schedule of a key of [4 * Nk] bytes: [Nk + 7] round keys. *)
Definition KeyExpansion (key : bytes) : list block :=
  let ws := words_of key in
  let Nk := List.length ws in
  round_keys_of (expand (4 * (Nk + 7) - Nk) Nk Nk 1 ws).

(** *** Cipher and inverse cipher (FIPS 197, Fig. 5 and Fig. 12) *)

Fixpoint rounds (rks : list block) (s : block) : block :=
  match rks with
  | [] => s
  | [last] => AddRoundKey (ShiftRows (SubBytes s)) last
  | rk :: more =>
      rounds more (AddRoundKey (MixColumns (ShiftRows (SubBytes s))) rk)
  end.

Definition Cipher (rks : list block) (input : block) : block :=
  match rks with
  | [] => input
  | rk0 :: rest => rounds rest (AddRoundKey input rk0)
  end.

Fixpoint inv_rounds (rks : list block) (s : block) : block :=
  match rks with
  | [] => s
  | [last] => InvSubBytes (InvShiftRows (AddRoundKey s last))
  | rk :: more =>
      InvSubBytes (InvShiftRows
        (InvMixColumns (AddRoundKey (inv_rounds more s) rk)))
  end.

Definition InvCipher (rks : list block) (input : block) : block :=
  match rks with
  | [] => input
  | rk0 :: rest => AddRoundKey (inv_rounds rest input) rk0
  end.

(** *** Blocks and byte sequences *)

Definition bytes_of_block (s : block) : bytes :=
  let '((a0, a1, a2, a3), (b0, b1, b2, b3),
        (c0, c1, c2, c3), (d0, d1, d2, d3)) := s in
  [a0; a1; a2; a3; b0; b1; b2; b3; c0; c1; c2; c3; d0; d1; d2; d3].

(** The blocks of a byte sequence; [None] when its length is not a
    multiple of 16. *)
Fixpoint blocks_of (l : bytes) : option (list block) :=
  match l with
  | [] => Some []
  | a0 :: a1 :: a2 :: a3 :: b0 :: b1 :: b2 :: b3 ::
    c0 :: c1 :: c2 :: c3 :: d0 :: d1 :: d2 :: d3 :: rest =>
      match blocks_of rest with
      | Some bs =>
          Some (((a0, a1, a2, a3), (b0, b1, b2, b3),
                 (c0, c1, c2, c3), (d0, d1, d2, d3)) :: bs)
      | None => None
      end
  | _ => None
  end.

Definition bytes_of_blocks (bs : list block) : bytes :=
  flat_map bytes_of_block bs.

(** *** CBC mode (SP 800-38A, 6.2) *)

Fixpoint cbc_encrypt (rks : list block) (prev : block) (ps : list block)
  : list block :=
  match ps with
  | [] => []
  | p :: ps' =>
      let c := Cipher rks (xor_block p prev) in
      c :: cbc_encrypt rks c ps'
  end.

Fixpoint cbc_decrypt (rks : list block) (prev : block) (cs : list block)
  : list block :=
  match cs with
  | [] => []
  | c :: cs' => xor_block (InvCipher rks c) prev :: cbc_decrypt rks c cs'
  end.

(** *** Padding (RFC 5652, 6.3) *)

Definition pad (p : bytes) : bytes :=
  let n := 16 - Z.of_nat (List.length p) mod 16 in
  p ++ repeat n (Z.to_nat n).

Definition unpad (p : bytes) : option bytes :=
  let n := last p 0 in
  let k := (List.length p - Z.to_nat n)%nat in
  if (1 <=? n) && (n <=? 16) && (n <=? Z.of_nat (List.length p))
     && forallb (Z.eqb n) (skipn k p)
  then Some (firstn k p)
  else None.

End AES.

(** ** [webcrypto.subtle] for AES-CBC (Web Cryptography API, 28.4) *)
Module WebCrypto.
Import AES.

(** An AES-CBC key: its raw bytes. *)
Record CryptoKey : Type := mkKey { key_data : bytes }.

(** [importKey("raw", keyData, {name: "AES-CBC"}, ...)]: the key must be
    128, 192 or 256 bits long. *)
Definition importKey (keyData : bytes) : result CryptoKey :=
  let n := List.length keyData in
  if (n =? 16)%nat || (n =? 24)%nat || (n =? 32)%nat
  then Ok (mkKey keyData)
  else Throw DataError.

(** [encrypt({name: "AES-CBC", iv}, key, data)]. *)
Definition encrypt (iv : bytes) (key : CryptoKey) (data : bytes)
  : result bytes :=
  match blocks_of iv, blocks_of (pad data) with
  | Some [iv0], Some ps =>
      Ok (bytes_of_blocks (cbc_encrypt (KeyExpansion (key_data key)) iv0 ps))
  | _, _ => Throw OperationError
  end.

(** [decrypt({name: "AES-CBC", iv}, key, data)]: rejects a ciphertext that
    is not a whole number of blocks or whose padding is malformed. *)
Definition decrypt (iv : bytes) (key : CryptoKey) (data : bytes)
  : result bytes :=
  match blocks_of iv, blocks_of data with
  | Some [iv0], Some cs =>
      match unpad (bytes_of_blocks
                     (cbc_decrypt (KeyExpansion (key_data key)) iv0 cs)) with
      | Some p => Ok p
      | None => Throw OperationError
      end
  | _, _ => Throw OperationError
  end.

End WebCrypto.

(** ** [TextEncoder] and [TextDecoder] (WHATWG Encoding, 9.1) *)
Module Encoding.

Definition is_high_surrogate (c : Z) : bool := (0xD800 <=? c) && (c <=? 0xDBFF).
Definition is_low_surrogate (c : Z) : bool := (0xDC00 <=? c) && (c <=? 0xDFFF).

Definition replacement : bytes := [0xEF; 0xBF; 0xBD].

(** [new TextEncoder().encode(s)]: an unpaired surrogate is encoded as
    U+FFFD, a surrogate pair as the four bytes of its code point. *)
Fixpoint encode (s : jsstring) : bytes :=
  match s with
  | [] => []
  | c :: s' =>
      if c <? 0x80 then c :: encode s'
      else if c <? 0x800 then
        (0xC0 + c / 64) :: (0x80 + c mod 64) :: encode s'
      else if is_high_surrogate c then
        match s' with
        | d :: s'' =>
            if is_low_surrogate d then
              let cp := 0x10000 + (c - 0xD800) * 1024 + (d - 0xDC00) in
              (0xF0 + cp / 262144) :: (0x80 + (cp / 4096) mod 64)
                :: (0x80 + (cp / 64) mod 64) :: (0x80 + cp mod 64)
                :: encode s''
            else replacement ++ encode s'
        | [] => replacement
        end
      else if is_low_surrogate c then replacement ++ encode s'
      else
        (0xE0 + c / 4096) :: (0x80 + (c / 64) mod 64)
          :: (0x80 + c mod 64) :: encode s'
  end.

(** The decoder's state while a multi-byte sequence is pending. *)
Record pending : Type := mkPending {
  code_point : Z;
  bytes_needed : Z;
  lower_boundary : Z;
  upper_boundary : Z
}.

(** The UTF-16 code units of a code point. *)
Definition units_of (cp : Z) : jsstring :=
  if cp <? 0x10000 then [cp]
  else [0xD800 + (cp - 0x10000) / 1024; 0xDC00 + (cp - 0x10000) mod 1024].

(** A byte met when no sequence is pending.  The lead byte's payload bits
    are what is left after taking its marker off. *)
Definition lead (b : Z) : jsstring * option pending :=
  if (0 <=? b) && (b <=? 0x7F) then ([b], None)
  else if (0xC2 <=? b) && (b <=? 0xDF) then
    ([], Some (mkPending (b - 0xC0) 1 0x80 0xBF))
  else if (0xE0 <=? b) && (b <=? 0xEF) then
    ([], Some (mkPending (b - 0xE0) 2
                 (if b =? 0xE0 then 0xA0 else 0x80)
                 (if b =? 0xED then 0x9F else 0xBF)))
  else if (0xF0 <=? b) && (b <=? 0xF4) then
    ([], Some (mkPending (b - 0xF0) 3
                 (if b =? 0xF0 then 0x90 else 0x80)
                 (if b =? 0xF4 then 0x8F else 0xBF)))
  else ([0xFFFD], None).

(** One step of the UTF-8 decoder; a byte that cannot continue the pending
    sequence yields U+FFFD and is then read again as a lead byte. *)
Definition step (st : option pending) (b : Z) : jsstring * option pending :=
  match st with
  | None => lead b
  | Some p =>
      if (lower_boundary p <=? b) && (b <=? upper_boundary p) then
        let cp := code_point p * 64 + (b - 0x80) in
        if bytes_needed p =? 1 then (units_of cp, None)
        else ([], Some (mkPending cp (bytes_needed p - 1) 0x80 0xBF))
      else
        let '(out, st') := lead b in (0xFFFD :: out, st')
  end.

Fixpoint decode_from (st : option pending) (bs : bytes) : jsstring :=
  match bs with
  | [] => match st with None => [] | Some _ => [0xFFFD] end
  | b :: bs' => let '(out, st') := step st b in out ++ decode_from st' bs'
  end.

(** [new TextDecoder().decode(bytes)]: UTF-8, replacement on error, a
    leading byte order mark dropped. *)
Definition decode (bs : bytes) : jsstring :=
  match decode_from None bs with
  | 0xFEFF :: s => s
  | s => s
  end.

End Encoding.

(** ** [btoa] and [atob] (HTML 8.3, Infra 5.1 forgiving-base64) *)
Module Base64.

Definition b64_char (i : Z) : Z :=
  if i <? 26 then 65 + i
  else if i <? 52 then 97 + (i - 26)
  else if i <? 62 then 48 + (i - 52)
  else if i =? 62 then 43
  else 47.

Definition b64_val (c : Z) : option Z :=
  if (65 <=? c) && (c <=? 90) then Some (c - 65)
  else if (97 <=? c) && (c <=? 122) then Some (c - 97 + 26)
  else if (48 <=? c) && (c <=? 57) then Some (c - 48 + 52)
  else if c =? 43 then Some 62
  else if c =? 47 then Some 63
  else None.

Fixpoint b64_encode (l : bytes) : jsstring :=
  match l with
  | [] => []
  | [a] => [b64_char (a / 4); b64_char (a mod 4 * 16); 61; 61]
  | [a; b] =>
      [b64_char (a / 4); b64_char (a mod 4 * 16 + b / 16);
       b64_char (b mod 16 * 4); 61]
  | a :: b :: c :: rest =>
      b64_char (a / 4) :: b64_char (a mod 4 * 16 + b / 16)
        :: b64_char (b mod 16 * 4 + c / 64) :: b64_char (c mod 64)
        :: b64_encode rest
  end.

(** [btoa(s)]: every code unit must be a byte. *)
Definition btoa (s : jsstring) : result jsstring :=
  if forallb (fun c => (0 <=? c) && (c <=? 255)) s then Ok (b64_encode s)
  else Throw InvalidCharacterError.

Definition is_ascii_whitespace (c : Z) : bool :=
  (c =? 9) || (c =? 10) || (c =? 12) || (c =? 13) || (c =? 32).

(** Remove one or two trailing [=]. *)
Fixpoint strip_padding (d : jsstring) : jsstring :=
  match d with
  | [] => []
  | c :: d' =>
      if (c =? 61) && (match d' with
                       | [] => true
                       | [e] => e =? 61
                       | _ => false
                       end)
      then []
      else c :: strip_padding d'
  end.

Fixpoint values_of (d : jsstring) : option (list Z) :=
  match d with
  | [] => Some []
  | c :: d' =>
      match b64_val c, values_of d' with
      | Some v, Some vs => Some (v :: vs)
      | _, _ => None
      end
  end.

(** Four sextets give three bytes; a tail of three gives two bytes and a
    tail of two gives one, the spare bits being dropped. *)
Fixpoint b64_decode (vs : list Z) : bytes :=
  match vs with
  | a :: b :: c :: d :: rest =>
      (a * 4 + b / 16) :: (b mod 16 * 16 + c / 4) :: (c mod 4 * 64 + d)
        :: b64_decode rest
  | [a; b; c] => [a * 4 + b / 16; b mod 16 * 16 + c / 4]
  | [a; b] => [a * 4 + b / 16]
  | _ => []
  end.

(** [atob(data)]. *)
Definition atob (data : jsstring) : result jsstring :=
  let d := filter (fun c => negb (is_ascii_whitespace c)) data in
  let d := if len d mod 4 =? 0 then strip_padding d else d in
  if len d mod 4 =? 1 then Throw InvalidCharacterError
  else match values_of d with
       | Some vs => Ok (b64_decode vs)
       | None => Throw InvalidCharacterError
       end.

End Base64.

(** ** [JSON] (ECMA-262 25.5, ECMA-404) *)
Module JSON.
Import Encoding.

Definition hex_char (d : Z) : Z := if d <? 10 then 48 + d else 97 + (d - 10).

Definition hex_val (c : Z) : option Z :=
  if (48 <=? c) && (c <=? 57) then Some (c - 48)
  else if (97 <=? c) && (c <=? 102) then Some (c - 97 + 10)
  else if (65 <=? c) && (c <=? 70) then Some (c - 65 + 10)
  else None.

(** [UnicodeEscape]: a backslash, [u] and four lowercase hex digits. *)
Definition UnicodeEscape (c : Z) : jsstring :=
  [92; 117; hex_char (c / 4096); hex_char ((c / 256) mod 16);
   hex_char ((c / 16) mod 16); hex_char (c mod 16)].

(** The characters of [QuoteJSONString] between the quotes: the short
    escapes, [UnicodeEscape] for the other control characters and for
    unpaired surrogates, everything else as it is. *)
Fixpoint quote_body (s : jsstring) : jsstring :=
  match s with
  | [] => []
  | c :: s' =>
      if c =? 8 then 92 :: 98 :: quote_body s'
      else if c =? 9 then 92 :: 116 :: quote_body s'
      else if c =? 10 then 92 :: 110 :: quote_body s'
      else if c =? 12 then 92 :: 102 :: quote_body s'
      else if c =? 13 then 92 :: 114 :: quote_body s'
      else if c =? 34 then 92 :: 34 :: quote_body s'
      else if c =? 92 then 92 :: 92 :: quote_body s'
      else if c <? 32 then UnicodeEscape c ++ quote_body s'
      else if is_high_surrogate c then
        match s' with
        | d :: s'' =>
            if is_low_surrogate d then c :: d :: quote_body s''
            else UnicodeEscape c ++ quote_body s'
        | [] => UnicodeEscape c
        end
      else if is_low_surrogate c then UnicodeEscape c ++ quote_body s'
      else c :: quote_body s'
  end.

Definition QuoteJSONString (s : jsstring) : jsstring :=
  34 :: quote_body s ++ [34].

Fixpoint join_comma (parts : list jsstring) : jsstring :=
  match parts with
  | [] => []
  | [p] => p
  | p :: more => p ++ 44 :: join_comma more
  end.

(** [SerializeJSONProperty]: [Ok None] stands for [undefined].  A BigInt
    throws; a non-finite number prints as [null]; in an array [undefined]
    prints as [null], in an object the property is left out. *)
Fixpoint SerializeJSONProperty (v : value) : result (option jsstring) :=
  match v with
  | VUndefined => Ok None
  | VNull => Ok (Some (lit "null"))
  | VBool true => Ok (Some (lit "true"))
  | VBool false => Ok (Some (lit "false"))
  | VNum NaN => Ok (Some (lit "null"))
  | VNum n => Ok (Some (Number_toString n))
  | VBigInt _ => Throw TypeError
  | VStr s => Ok (Some (QuoteJSONString s))
  | VArr l =>
      match
        (fix elements (l : list value) : result (list jsstring) :=
           match l with
           | [] => Ok []
           | x :: l' =>
               match SerializeJSONProperty x, elements l' with
               | Ok (Some t), Ok ts => Ok (t :: ts)
               | Ok None, Ok ts => Ok (lit "null" :: ts)
               | Throw e, _ | _, Throw e => Throw e
               end
           end) l
      with
      | Ok parts => Ok (Some (91 :: join_comma parts ++ [93]))
      | Throw e => Throw e
      end
  | VObj l =>
      match
        (fix members (l : list (jsstring * value)) : result (list jsstring) :=
           match l with
           | [] => Ok []
           | (k, x) :: l' =>
               match SerializeJSONProperty x, members l' with
               | Ok (Some t), Ok ts => Ok ((QuoteJSONString k ++ 58 :: t) :: ts)
               | Ok None, Ok ts => Ok ts
               | Throw e, _ | _, Throw e => Throw e
               end
           end) l
      with
      | Ok parts => Ok (Some (123 :: join_comma parts ++ [125]))
      | Throw e => Throw e
      end
  end.

(** [JSON.stringify(v)]. *)
Definition stringify (v : value) : result value :=
  match SerializeJSONProperty v with
  | Ok (Some t) => Ok (VStr t)
  | Ok None => Ok VUndefined
  | Throw e => Throw e
  end.

(** *** Parsing *)

Definition is_ws (c : Z) : bool :=
  (c =? 32) || (c =? 9) || (c =? 10) || (c =? 13).

Fixpoint skip_ws (s : jsstring) : jsstring :=
  match s with
  | c :: s' => if is_ws c then skip_ws s' else s
  | [] => []
  end.

Fixpoint strip_prefix (p s : jsstring) : option jsstring :=
  match p, s with
  | [], _ => Some s
  | a :: p', b :: s' => if a =? b then strip_prefix p' s' else None
  | _ :: _, [] => None
  end.

Definition is_digit (c : Z) : bool := (48 <=? c) && (c <=? 57).

Fixpoint take_digits (s : jsstring) : jsstring * jsstring :=
  match s with
  | c :: s' =>
      if is_digit c then let '(ds, r) := take_digits s' in (c :: ds, r)
      else ([], s)
  | [] => ([], [])
  end.

Definition value_of_digits (ds : jsstring) : Z :=
  fold_left (fun acc d => acc * 10 + (d - 48)) ds 0.

(** The number [m * 10^e]. *)
Definition decimal (m e : Z) : number :=
  if 0 <=? e then Int (m * 10 ^ e) else mk_dec m (Z.to_nat (- e)).

(** A JSON number: an optional minus; [0] or a digit from 1 to 9 and more
    digits; an optional point and digits; an optional [e] or [E], sign and
    digits. *)
Definition number_sign (s : jsstring) : bool * jsstring :=
  match s with
  | c :: t => if c =? 45 then (true, t) else (false, s)
  | [] => (false, s)
  end.

Definition number_int (s : jsstring) : jsstring * jsstring :=
  match s with
  | c :: t => if c =? 48 then ([48], t) else take_digits s
  | [] => ([], [])
  end.

Definition number_frac (s : jsstring) : option (jsstring * jsstring) :=
  match s with
  | c :: t =>
      if c =? 46 then
        let '(fp, r) := take_digits t in
        match fp with [] => None | _ => Some (fp, r) end
      else Some ([], s)
  | [] => Some ([], s)
  end.

Definition number_exp (s : jsstring) : option (Z * jsstring) :=
  match s with
  | c :: t =>
      if (c =? 101) || (c =? 69) then
        let '(eneg, t') :=
          match t with
          | g :: u => if g =? 45 then (true, u)
                      else if g =? 43 then (false, u)
                      else (false, t)
          | [] => (false, t)
          end in
        let '(ep, r) := take_digits t' in
        match ep with
        | [] => None
        | _ => Some ((if eneg then -1 else 1) * value_of_digits ep, r)
        end
      else Some (0, s)
  | [] => Some (0, s)
  end.

Definition parse_number (s : jsstring) : option (number * jsstring) :=
  let '(neg, s1) := number_sign s in
  let '(ip, s2) := number_int s1 in
  match ip with
  | [] => None
  | _ =>
      match number_frac s2 with
      | None => None
      | Some (fp, s3) =>
          match number_exp s3 with
          | None => None
          | Some (e, s4) =>
              let m := value_of_digits (ip ++ fp) in
              Some (decimal (if neg then - m else m) (e - len fp), s4)
          end
      end
  end.

(** The characters of a string up to its closing quote. *)
Fixpoint parse_string (s : jsstring) : option (jsstring * jsstring) :=
  match s with
  | [] => None
  | c :: rest =>
      if c =? 34 then Some ([], rest)
      else if c =? 92 then
        match rest with
        | [] => None
        | e :: rest1 =>
            let continue (u : Z) (r : option (jsstring * jsstring)) :=
              match r with
              | Some (str, r') => Some (u :: str, r')
              | None => None
              end in
            if (e =? 34) || (e =? 92) || (e =? 47) then continue e (parse_string rest1)
            else if e =? 98 then continue 8 (parse_string rest1)
            else if e =? 102 then continue 12 (parse_string rest1)
            else if e =? 110 then continue 10 (parse_string rest1)
            else if e =? 114 then continue 13 (parse_string rest1)
            else if e =? 116 then continue 9 (parse_string rest1)
            else if e =? 117 then
              match rest1 with
              | h1 :: h2 :: h3 :: h4 :: rest2 =>
                  match hex_val h1, hex_val h2, hex_val h3, hex_val h4 with
                  | Some a, Some b, Some c', Some d =>
                      continue (a * 4096 + b * 256 + c' * 16 + d)
                               (parse_string rest2)
                  | _, _, _, _ => None
                  end
              | _ => None
              end
            else None
        end
      else if c <? 32 then None
      else match parse_string rest with
           | Some (str, r') => Some (c :: str, r')
           | None => None
           end
  end.

(** A value, then what follows it; [fuel] bounds the number of values,
    elements and members read. *)
Fixpoint parse_value (fuel : nat) (s : jsstring) {struct fuel}
  : option (value * jsstring) :=
  match fuel with
  | O => None
  | S fuel' =>
      match skip_ws s with
      | [] => None
      | c :: rest =>
          if c =? 34 then
            match parse_string rest with
            | Some (str, r) => Some (VStr str, r)
            | None => None
            end
          else if c =? 91 then
            match skip_ws rest with
            | d :: r =>
                if d =? 93 then Some (VArr [], r)
                else match parse_elements fuel' rest with
                     | Some (l, r') => Some (VArr l, r')
                     | None => None
                     end
            | [] => None
            end
          else if c =? 123 then
            match skip_ws rest with
            | d :: r =>
                if d =? 125 then Some (VObj [], r)
                else match parse_members fuel' [] rest with
                     | Some (l, r') => Some (VObj l, r')
                     | None => None
                     end
            | [] => None
            end
          else
            match strip_prefix (lit "null") (c :: rest),
                  strip_prefix (lit "true") (c :: rest),
                  strip_prefix (lit "false") (c :: rest) with
            | Some r, _, _ => Some (VNull, r)
            | _, Some r, _ => Some (VBool true, r)
            | _, _, Some r => Some (VBool false, r)
            | None, None, None =>
                match parse_number (c :: rest) with
                | Some (n, r) => Some (VNum n, r)
                | None => None
                end
            end
      end
  end

with parse_elements (fuel : nat) (s : jsstring) {struct fuel}
  : option (list value * jsstring) :=
  match fuel with
  | O => None
  | S fuel' =>
      match parse_value fuel' s with
      | Some (v, rest) =>
          match skip_ws rest with
          | c :: r =>
              if c =? 44 then
                match parse_elements fuel' r with
                | Some (l, r') => Some (v :: l, r')
                | None => None
                end
              else if c =? 93 then Some ([v], r)
              else None
          | [] => None
          end
      | None => None
      end
  end

with parse_members (fuel : nat) (acc : list (jsstring * value)) (s : jsstring)
  {struct fuel} : option (list (jsstring * value) * jsstring) :=
  match fuel with
  | O => None
  | S fuel' =>
      match skip_ws s with
      | c :: rest =>
          if c =? 34 then
            match parse_string rest with
            | Some (k, rest1) =>
                match skip_ws rest1 with
                | d :: rest2 =>
                    if d =? 58 then
                      match parse_value fuel' rest2 with
                      | Some (v, rest3) =>
                          match skip_ws rest3 with
                          | g :: rest4 =>
                              if g =? 44 then
                                parse_members fuel' (define_key k v acc) rest4
                              else if g =? 125 then
                                Some (define_key k v acc, rest4)
                              else None
                          | [] => None
                          end
                      | None => None
                      end
                    else None
                | [] => None
                end
            | None => None
            end
          else None
      | [] => None
      end
  end.

(** [JSON.parse(text)]: one value, with nothing but white space around. *)
Definition parse (text : jsstring) : result value :=
  match parse_value (S (List.length text)) text with
  | Some (v, rest) =>
      match skip_ws rest with
      | [] => Ok v
      | _ => Throw SyntaxError
      end
  | None => Throw SyntaxError
  end.

End JSON.

(* ===================================================================== *)
(** * Part III. The program (src/index.js)                                *)
(* ===================================================================== *)

Section Program.

(** The time zone of the process and the platform's [StringToNumber]. *)
Variable LocalTZA : Z -> Z.
Variable StringToNumber : jsstring -> number.

(** How many arguments [Function.prototype.apply] passes on is left to the
    engine: 65536, which every engine accepts, and [more_arguments] more,
    a number that depends on the engine and its stack (about 60000 for
    node at its default stack size). *)
Variable more_arguments : nat.

Definition max_arguments : Z := 65536 + Z.of_nat more_arguments.

(** [generate_date_seq(date = null)] *)
Definition generate_date_seq (date : option Date) : M value :=
  date <- match date with
          | None => Date_now
          | Some d => ret d
          end ;;
  let day := padStart (Number_toString (getDate LocalTZA date)) 2 (lit "0") in
  let month :=
    padStart (Number_toString (number_add (getMonth LocalTZA date) (Int 1)))
             2 (lit "0") in
  let year := slice (Number_toString (getFullYear LocalTZA date)) 2 in
  let weekday := Number_toString (getDay LocalTZA date) in
  lift (let? r := js_add (char_at day 0) (char_at month 0) in
        let? r := js_add r (char_at year 0) in
        let? r := js_add r (VStr weekday) in
        let? r := js_add r (char_at day 1) in
        let? r := js_add r (char_at month 1) in
        js_add r (char_at year 1)).

Definition charset : jsstring :=
  lit "0123456789abcdefghijklmnopqrstuvwxyzABCDEFGHIJKLMNOPQRSTUVWXYZ".

(** [charset[randomIndex]] *)
Definition charset_at (i : Z) : value :=
  if i <? 0 then VUndefined else char_at charset (Z.to_nat i).

(** The loop of [get_random_char_seq], [n] iterations from [result].  The
    product [Math.random() * charset.length] is exact here; rounded to a
    double it can fall on the other side of an integer, which changes the
    character picked, not that one of the 62 is picked. *)
Fixpoint random_chars (n : nat) (result : jsstring) : M jsstring :=
  match n with
  | O => ret result
  | S n' =>
      r <- Math_random ;;
      let randomIndex := Qfloor (r * inject_Z (len charset)) in
      random_chars n' (result ++ ToString (charset_at randomIndex))
  end.

(** [get_random_char_seq(n)] *)
Definition get_random_char_seq (n : nat) : M jsstring := random_chars n [].

(** [base64Encode(data)]: [btoa] of the string whose code units are the
    bytes.  The bytes are the arguments of [String.fromCharCode.apply]:
    more of them than the engine passes on throw [RangeError]. *)
Definition base64Encode (data : bytes) : result jsstring :=
  if Z.of_nat (List.length data) <=? max_arguments
  then Base64.btoa data
  else Throw RangeError.

(** [base64Decode(data)]: the code units of [atob(data)], as bytes. *)
Definition base64Decode (data : value) : result bytes :=
  Base64.atob (ToString data).

Definition IV : bytes := Encoding.encode (lit "dcek9wb8frty1pnm").

(** [generate_key(date = null)] *)
Definition generate_key (date : option Date) : M WebCrypto.CryptoKey :=
  dateSeq <- generate_date_seq date ;;
  s <- lift (let? r := js_add (VStr (lit "qa8y")) dateSeq in
             js_add r (VStr (lit "ty1pn"))) ;;
  let keyData := Encoding.encode (ToString s) in
  lift (WebCrypto.importKey keyData).

(** [encrypt(data)] *)
Definition encrypt (data : bytes) : M bytes :=
  key <- generate_key None ;;
  lift (WebCrypto.encrypt IV key data).

(** [decrypt(data)] *)
Definition decrypt (data : bytes) : M bytes :=
  key <- generate_key None ;;
  lift (WebCrypto.decrypt IV key data).

(** [generate_local_name(date = null)] *)
Definition generate_local_name (date : option Date) : M jsstring :=
  randomCharSeq <- get_random_char_seq 4 ;;
  dateSeq <- generate_date_seq date ;;
  randomSuffix <- get_random_char_seq 5 ;;
  s <- lift (let? r := js_add (VStr randomCharSeq) dateSeq in
             js_add r (VStr randomSuffix)) ;;
  let nameBytes := Encoding.encode (ToString s) in
  encryptedBytes <- encrypt nameBytes ;;
  lift (base64Encode encryptedBytes).

(** [deserialize_payload(payload)] *)
Definition deserialize_payload (payload : value) : M value :=
  pbytes <- lift (base64Decode payload) ;;
  raw <- decrypt pbytes ;;
  lift (JSON.parse (Encoding.decode raw)).

(** [new TextEncoder().encode(input)]: the argument defaults to the empty
    string when it is [undefined]. *)
Definition TextEncoder_encode (input : value) : bytes :=
  match input with
  | VUndefined => []
  | _ => Encoding.encode (ToString input)
  end.

(** [serialize_payload(payload)] *)
Definition serialize_payload (payload : value) : M jsstring :=
  text <- lift (JSON.stringify payload) ;;
  let raw := TextEncoder_encode text in
  pbytes <- encrypt raw ;;
  lift (base64Encode pbytes).

Definition API : jsstring :=
  lit "https://webportal.jiit.ac.in:6011/StudentPortalAPI".

Definition DEFCAPTCHA : value :=
  VObj [(lit "captcha", VStr (lit "phw5n"));
        (lit "hidden", VStr (lit "gmBctEffdSg="))].

(** The fields of a [WebPortalSession] instance. *)
Record WebPortalSession : Type := mkSession {
  raw_response : value;
  regdata : value;
  institute : value;
  instituteid : value;
  memberid : value;
  userid : value;
  token : value;
  expiry : Date;
  clientid : value;
  membertype : value;
  name : value;
  enrollmentno : value
}.

(** [token.split(".")]: only a string has the method. *)
Definition split_dot (token : value) : result (list jsstring) :=
  match token with
  | VStr s => Ok (split_on 46 s)
  | _ => Throw TypeError
  end.

Definition segment (segs : list jsstring) (i : nat) : value :=
  match nth_error segs i with
  | Some s => VStr s
  | None => VUndefined
  end.

(** [new WebPortalSession(resp)] *)
Definition WebPortalSession_new (resp : value) : result WebPortalSession :=
  let? regdata := get_prop resp (lit "regdata") in
  let? institutelist := get_prop regdata (lit "institutelist") in
  let? institute := get_index institutelist 0 in
  let? label := get_prop institute (lit "label") in
  let? instituteid := get_prop institute (lit "value") in
  let? memberid := get_prop regdata (lit "memberid") in
  let? userid := get_prop regdata (lit "userid") in
  let? token := get_prop regdata (lit "token") in
  let? segs := split_dot token in
  let? decoded := Base64.atob (ToString (segment segs 1)) in
  let? claims := JSON.parse decoded in
  let? expiry_timestamp := get_prop claims (lit "exp") in
  let? n := ToNumber StringToNumber expiry_timestamp in
  let expiry := TimeClip (number_mul n (Int 1000)) in
  let? clientid := get_prop regdata (lit "clientid") in
  let? membertype := get_prop regdata (lit "membertype") in
  let? name := get_prop regdata (lit "name") in
  let? enrollmentno := get_prop regdata (lit "enrollmentno") in
  Ok (mkSession resp regdata label instituteid memberid userid token expiry
                clientid membertype name enrollmentno).

(** [session.get_headers()] *)
Definition get_headers (session : WebPortalSession)
  : M (list (jsstring * jsstring)) :=
  localname <- generate_local_name None ;;
  ret [(lit "Authorization", lit "Bearer " ++ ToString (token session));
       (lit "LocalName", localname)].

(** [resp.json()] *)
Definition Response_json (resp : Response) : M value :=
  lift (JSON.parse (body resp)).

Definition post (endpoint body : jsstring) (headers : list (jsstring * jsstring))
  : M Response :=
  fetch (mkRequest (API ++ endpoint) (lit "POST") body
                   ((lit "Content-Type", lit "application/json") :: headers)).

(** The [try] block of [StudentLogin], from the serialized first payload
    to the session. *)
Definition StudentLogin_try (password : value) (payload : jsstring)
  : M (option WebPortalSession) :=
  let pretoken_endpoint := lit "/token/pretoken-check" in
  let token_endpoint := lit "/token/generate-token1" in
  localname <- generate_local_name None ;;
  resp <- post pretoken_endpoint payload [(lit "LocalName", localname)] ;;
  resp <- Response_json resp ;;
  payload <- lift (get_prop resp (lit "response")) ;;
  payload <- lift (delete_prop payload (lit "rejectedData")) ;;
  payload <- lift (set_prop payload (lit "Modulename")
                            (VStr (lit "STUDENTMODULE"))) ;;
  payload <- lift (set_prop payload (lit "passwordotpvalue") password) ;;
  payload <- serialize_payload payload ;;
  localname <- generate_local_name None ;;
  resp <- post token_endpoint payload [(lit "LocalName", localname)] ;;
  resp <- Response_json resp ;;
  r <- lift (get_prop resp (lit "response")) ;;
  session <- lift (WebPortalSession_new r) ;;
  ret (Some session).

(** [StudentLogin(username, password, captcha = DEFCAPTCHA)]: the session,
    or [None] for [null]. *)
Definition StudentLogin (username password captcha : value)
  : M (option WebPortalSession) :=
  let captcha := match captcha with VUndefined => DEFCAPTCHA | _ => captcha end in
  let payload := VObj [(lit "username", username);
                       (lit "usertype", VStr (lit "S"));
                       (lit "captcha", captcha)] in
  payload <- serialize_payload payload ;;
  try_catch (StudentLogin_try password payload) (fun _ => ret None).

(** What a caller may pass for [session]: an instance of the class, or any
    other value ([null] when the login failed). *)
Inductive session_arg : Type :=
  | Instance (s : WebPortalSession)
  | Other (v : value).

(** [session.instituteid] *)
Definition session_instituteid (session : session_arg) : result value :=
  match session with
  | Instance s => Ok (instituteid s)
  | Other v => get_prop v (lit "instituteid")
  end.

(** [session.get_headers()]: only an instance has the method. *)
Definition session_get_headers (session : session_arg)
  : M (list (jsstring * jsstring)) :=
  match session with
  | Instance s => get_headers s
  | Other _ => throw TypeError
  end.

(** The [try] block shared by the two data calls: post [payload] with the
    session's headers and return the [response] field. *)
Definition data_call_try (endpoint : jsstring) (session : session_arg)
                         (payload : value) : M value :=
  header <- session_get_headers session ;;
  text <- lift (JSON.stringify payload) ;;
  resp <- post endpoint (ToString text) header ;;
  resp <- Response_json resp ;;
  lift (get_prop resp (lit "response")).

(** The body shared by the two data calls: the [try] block, or [null]. *)
Definition data_call (endpoint : jsstring) (session : session_arg)
                     (payload : value) : M value :=
  try_catch (data_call_try endpoint session payload) (fun _ => ret VNull).

(** [GetPersonalInfo(session)] *)
Definition GetPersonalInfo (session : session_arg) : M value :=
  let ENDPOINT := lit "/studentpersinfo/getstudent-personalinformation" in
  id <- lift (session_instituteid session) ;;
  let payload := VObj [(lit "clinetid", VStr (lit "SOAU"));
                       (lit "instituteid", id)] in
  data_call ENDPOINT session payload.

(** [GetHostelInfo(session)] *)
Definition GetHostelInfo (session : session_arg) : M value :=
  let ENDPOINT := lit "/myhostelallocationdetail/gethostelallocationdetail" in
  id <- lift (session_instituteid session) ;;
  let payload := VObj [(lit "instituteid", id)] in
  data_call ENDPOINT session payload.

End Program.

(* ===================================================================== *)
(** * Part IV. Properties                                                 *)
(* ===================================================================== *)

(** Linear arithmetic with the quotients and remainders of the goal spelled
    out by their Euclidean equations. *)
Ltac dlia := Z.to_euclidean_division_equations; lia.

(** ** Finite case analysis *)

Definition range (lo : Z) (n : nat) : list Z := map (fun k => lo + Z.of_nat k) (seq 0 n).

Lemma range_In lo n z : lo <= z < lo + Z.of_nat n -> In z (range lo n).
Proof.
  intros H. unfold range. apply in_map_iff.
  exists (Z.to_nat (z - lo)). split; [lia|].
  apply in_seq. lia.
Qed.

(** A decidable property checked on every integer of an interval holds on
    the interval. *)
Lemma range_cases (P : Z -> bool) lo n :
  forallb P (range lo n) = true ->
  forall z, lo <= z < lo + Z.of_nat n -> P z = true.
Proof.
  intros H z Hz. rewrite forallb_forall in H. apply H, range_In, Hz.
Qed.

Lemma byte_cases (P : Z -> bool) :
  forallb P (range 0 256) = true -> forall b, byte_ok b -> P b = true.
Proof. intros H b Hb. apply (range_cases P 0 256 H). exact Hb. Qed.

Lemma byte_cases2 (P : Z -> Z -> bool) :
  forallb (fun a => forallb (P a) (range 0 256)) (range 0 256) = true ->
  forall a b, byte_ok a -> byte_ok b -> P a b = true.
Proof.
  intros H a b Ha Hb.
  apply (byte_cases (P a)); [|exact Hb].
  apply (byte_cases (fun a => forallb (P a) (range 0 256)) H a Ha).
Qed.

Lemma str_eqb_eq a b : str_eqb a b = true <-> a = b.
Proof. unfold str_eqb. destruct (list_eq_dec Z.eq_dec a b); split; congruence. Qed.

Lemma str_eqb_refl a : str_eqb a a = true.
Proof. apply str_eqb_eq. reflexivity. Qed.

(** ** The calendar *)

Module DateFacts.

Lemma DayFromYear_step y : DayFromYear (y + 1) = DayFromYear y + DaysInYear y.
Proof.
  unfold DayFromYear, DaysInYear.
  destruct (y mod 4 =? 0) eqn:E4; destruct (y mod 100 =? 0) eqn:E100;
    destruct (y mod 400 =? 0) eqn:E400; cbn [andb orb negb];
    rewrite ?Z.eqb_eq, ?Z.eqb_neq in *; dlia.
Qed.

Lemma DaysInYear_cases y : DaysInYear y = 365 \/ DaysInYear y = 366.
Proof.
  unfold DaysInYear.
  destruct ((y mod 4 =? 0) && (negb (y mod 100 =? 0) || (y mod 400 =? 0))); auto.
Qed.

Lemma DayFromYear_mono y : DayFromYear y < DayFromYear (y + 1).
Proof. rewrite DayFromYear_step. destruct (DaysInYear_cases y); lia. Qed.

(** [YearFromTime t] is the year whose days contain [Day t]. *)
Lemma YearFromTime_spec t :
  DayFromYear (YearFromTime t) <= Day t < DayFromYear (YearFromTime t + 1).
Proof.
  unfold YearFromTime. set (d := Day t). clearbody d.
  set (y0 := 1970 + d * 400 / 146097).
  assert (Hlo : DayFromYear (y0 - 1) <= d)
    by (unfold DayFromYear, y0; dlia).
  assert (Hhi : d < DayFromYear (y0 + 2))
    by (unfold DayFromYear, y0; dlia).
  destruct (DayFromYear (y0 + 1) <=? d) eqn:E1.
  - apply Z.leb_le in E1. replace (y0 + 1 + 1) with (y0 + 2) by lia. lia.
  - apply Z.leb_gt in E1.
    destruct (DayFromYear y0 <=? d) eqn:E0.
    + apply Z.leb_le in E0. lia.
    + apply Z.leb_gt in E0. replace (y0 - 1 + 1) with y0 by lia. lia.
Qed.

Lemma DayWithinYear_range t :
  0 <= DayWithinYear t < 365 + InLeapYear t.
Proof.
  unfold DayWithinYear, InLeapYear.
  pose proof (YearFromTime_spec t) as H.
  rewrite DayFromYear_step in H.
  destruct (DaysInYear_cases (YearFromTime t)) as [E|E]; rewrite E in *;
    cbn [Z.eqb Pos.eqb]; lia.
Qed.

Lemma InLeapYear_cases t : InLeapYear t = 0 \/ InLeapYear t = 1.
Proof. unfold InLeapYear. destruct (DaysInYear (YearFromTime t) =? 366); auto. Qed.

Lemma MonthFromTime_range t : 0 <= MonthFromTime t <= 11.
Proof.
  unfold MonthFromTime.
  repeat match goal with |- context [if ?c then _ else _] => destruct c end; lia.
Qed.

Lemma DateFromTime_range t : 1 <= DateFromTime t <= 31.
Proof.
  unfold DateFromTime, MonthFromTime.
  pose proof (DayWithinYear_range t) as H.
  destruct (InLeapYear_cases t) as [L|L]; rewrite L in *;
    repeat match goal with
           | |- context [if ?a <? ?b then _ else _] =>
               destruct (Z.ltb_spec a b)
           end; lia.
Qed.

Lemma WeekDay_range t : 0 <= WeekDay t <= 6.
Proof. unfold WeekDay. dlia. Qed.

(** Two instants of one day have the same calendar date. *)
Definition same_day (t1 t2 : Z) : Prop := Day t1 = Day t2.

Lemma YearFromTime_day t1 t2 : same_day t1 t2 -> YearFromTime t1 = YearFromTime t2.
Proof. unfold same_day, YearFromTime. intros ->. reflexivity. Qed.

Lemma MonthFromTime_day t1 t2 : same_day t1 t2 -> MonthFromTime t1 = MonthFromTime t2.
Proof.
  intros H. unfold MonthFromTime, DayWithinYear, InLeapYear.
  rewrite (YearFromTime_day t1 t2 H). unfold same_day in H. rewrite H. reflexivity.
Qed.

Lemma DateFromTime_day t1 t2 : same_day t1 t2 -> DateFromTime t1 = DateFromTime t2.
Proof.
  intros H. unfold DateFromTime, DayWithinYear, InLeapYear.
  rewrite (MonthFromTime_day t1 t2 H), (YearFromTime_day t1 t2 H).
  unfold same_day in H. rewrite H. reflexivity.
Qed.

Lemma WeekDay_day t1 t2 : same_day t1 t2 -> WeekDay t1 = WeekDay t2.
Proof. unfold same_day, WeekDay. intros ->. reflexivity. Qed.

End DateFacts.

(** ** Decimal digits and [Number::toString] *)

Module Digits.
Import JSON.

Definition is_ascii (c : Z) : Prop := 0 <= c < 128.
Definition ascii_string (s : jsstring) : Prop := Forall is_ascii s.

Definition is_asciib (c : Z) : bool := (0 <=? c) && (c <? 128).

Lemma ascii_check s : forallb is_asciib s = true -> ascii_string s.
Proof.
  intros H. apply Forall_forall. intros c Hc.
  rewrite forallb_forall in H. specialize (H c Hc).
  unfold is_asciib in H. unfold is_ascii. lia.
Qed.

Lemma Forall_take {A} (P : A -> Prop) n : forall l,
  Forall P l -> Forall P (firstn n l).
Proof.
  induction n as [|n IH]; intros l H; [constructor|].
  destruct H; cbn [firstn]; constructor; auto.
Qed.

Lemma Forall_drop {A} (P : A -> Prop) n : forall l,
  Forall P l -> Forall P (skipn n l).
Proof.
  induction n as [|n IH]; intros l H; [exact H|].
  destruct H; cbn [skipn]; [constructor|auto].
Qed.

Lemma ascii_app a b : ascii_string a -> ascii_string b -> ascii_string (a ++ b).
Proof. intros. apply Forall_app. auto. Qed.

Lemma digit_is_ascii c : is_digit c = true -> is_ascii c.
Proof. unfold is_digit, is_ascii. lia. Qed.

Definition all_digits (s : jsstring) : Prop := Forall (fun c => is_digit c = true) s.

Lemma all_digits_ascii s : all_digits s -> ascii_string s.
Proof. apply Forall_impl. exact digit_is_ascii. Qed.

(** *** The digits of a number *)

Lemma digits_fuel_acc f : forall n acc,
  digits_fuel f n acc = digits_fuel f n [] ++ acc.
Proof.
  induction f as [|f IH]; intros n acc; [reflexivity|].
  cbn [digits_fuel]. destruct (n <? 10); [reflexivity|].
  rewrite (IH _ (_ :: acc)), (IH _ [_]), <- app_assoc. reflexivity.
Qed.

Lemma digits_fuel_enough f1 : forall f2 n,
  0 <= n < 10 ^ Z.of_nat (S f1) -> 0 <= n < 10 ^ Z.of_nat (S f2) ->
  digits_fuel (S f1) n [] = digits_fuel (S f2) n [].
Proof.
  induction f1 as [|f1 IH]; intros f2 n H1 H2.
  - change (10 ^ Z.of_nat 1) with 10 in H1.
    cbn [digits_fuel]. destruct (Z.ltb_spec n 10); [reflexivity|lia].
  - destruct f2 as [|f2].
    + change (10 ^ Z.of_nat 1) with 10 in H2.
      cbn [digits_fuel]. destruct (Z.ltb_spec n 10); [reflexivity|lia].
    + remember (S f1) as g1. remember (S f2) as g2.
      cbn [digits_fuel]. destruct (Z.ltb_spec n 10); [reflexivity|].
      rewrite (digits_fuel_acc g1), (digits_fuel_acc g2). f_equal.
      subst g1 g2. apply IH.
      * rewrite Nat2Z.inj_succ, Z.pow_succ_r in H1 by lia. dlia.
      * rewrite Nat2Z.inj_succ, Z.pow_succ_r in H2 by lia. dlia.
Qed.

Lemma log2_fuel n : 0 <= n -> n < 10 ^ Z.of_nat (S (Z.to_nat (Z.log2 n))).
Proof.
  intros Hn. rewrite Nat2Z.inj_succ, Z2Nat.id by apply Z.log2_nonneg.
  destruct (Z.eq_dec n 0) as [->|Hz]; [reflexivity|].
  pose proof (Z.log2_spec n ltac:(lia)) as [_ H].
  eapply Z.lt_le_trans; [exact H|].
  apply Z.pow_le_mono_l. pose proof (Z.log2_nonneg n). lia.
Qed.

(** The defining equation of [digits]. *)
Lemma digits_eq n : 0 <= n ->
  digits n = if n <? 10 then [48 + n] else digits (n / 10) ++ [48 + n mod 10].
Proof.
  intros Hn. unfold digits at 1. cbn [digits_fuel].
  destruct (Z.ltb_spec n 10) as [Hlt|Hge].
  - rewrite Z.mod_small by lia. reflexivity.
  - rewrite digits_fuel_acc. f_equal. unfold digits.
    remember (Z.to_nat (Z.log2 n)) as f eqn:Ef.
    destruct f as [|f].
    + pose proof (Z.log2_le_mono 10 n ltac:(lia)) as Hl.
      change (Z.log2 10) with 3 in Hl. lia.
    + apply digits_fuel_enough.
      * pose proof (log2_fuel n Hn) as H. rewrite <- Ef in H.
        rewrite Nat2Z.inj_succ, Z.pow_succ_r in H by lia. dlia.
      * split; [dlia|]. apply log2_fuel. dlia.
Qed.

(** Induction along the digits: from [n / 10] to [n]. *)
Lemma digits_ind (P : Z -> Prop) :
  (forall n, 0 <= n < 10 -> P n) ->
  (forall n, 10 <= n -> P (n / 10) -> P n) ->
  forall n, 0 <= n -> P n.
Proof.
  intros Hsmall Hstep n Hn.
  revert Hn. pattern n. apply (well_founded_ind (Z.lt_wf 0)). clear n.
  intros n IH Hn.
  destruct (Z.lt_ge_cases n 10); [apply Hsmall; lia|].
  apply Hstep; [lia|]. apply IH; dlia.
Qed.

Lemma digits_all_digits n : 0 <= n -> all_digits (digits n).
Proof.
  revert n. apply digits_ind; intros n Hn.
  - rewrite digits_eq by lia. destruct (Z.ltb_spec n 10); [|lia].
    constructor; [|constructor]. unfold is_digit. lia.
  - intros IH. rewrite digits_eq by lia. destruct (Z.ltb_spec n 10); [lia|].
    apply Forall_app. split; [exact IH|].
    constructor; [|constructor]. unfold is_digit. dlia.
Qed.

Lemma value_of_digits_acc b : forall x,
  fold_left (fun acc d => acc * 10 + (d - 48)) b x
  = x * 10 ^ len b + value_of_digits b.
Proof.
  unfold value_of_digits, len.
  induction b as [|c b IH]; intros x.
  - cbn. lia.
  - cbn [fold_left List.length]. rewrite IH.
    rewrite (IH (0 * 10 + (c - 48))).
    rewrite Nat2Z.inj_succ, Z.pow_succ_r by lia. ring.
Qed.

Lemma value_of_digits_app a b :
  value_of_digits (a ++ b)
  = value_of_digits a * 10 ^ len b + value_of_digits b.
Proof.
  unfold value_of_digits at 1. rewrite fold_left_app.
  apply value_of_digits_acc.
Qed.

Lemma value_of_digits_digits n : 0 <= n -> value_of_digits (digits n) = n.
Proof.
  revert n. apply digits_ind; intros n Hn.
  - rewrite digits_eq by lia. destruct (Z.ltb_spec n 10); [|lia].
    unfold value_of_digits. cbn [fold_left]. lia.
  - intros IH. rewrite digits_eq by lia. destruct (Z.ltb_spec n 10); [lia|].
    rewrite value_of_digits_app, IH.
    unfold value_of_digits, len. cbn [fold_left List.length].
    change (10 ^ Z.of_nat 1) with 10. dlia.
Qed.

(** The number of digits: [10^(k-1) <= n < 10^k]. *)
Lemma digits_length n : 0 < n ->
  10 ^ (len (digits n) - 1) <= n < 10 ^ len (digits n).
Proof.
  intros Hn. assert (H0 : 0 <= n) by lia. revert n H0 Hn.
  apply (digits_ind (fun n => 0 < n ->
                       10 ^ (len (digits n) - 1) <= n < 10 ^ len (digits n)));
    intros n Hn.
  - intros Hpos. rewrite digits_eq by lia. destruct (Z.ltb_spec n 10); [|lia].
    unfold len. cbn [List.length]. change (10 ^ (Z.of_nat 1 - 1)) with 1.
    change (10 ^ Z.of_nat 1) with 10. lia.
  - intros IH _. rewrite digits_eq by lia. destruct (Z.ltb_spec n 10); [lia|].
    unfold len in *. rewrite length_app. cbn [List.length].
    rewrite Nat2Z.inj_add. change (Z.of_nat 1) with 1.
    specialize (IH ltac:(dlia)).
    set (k := Z.of_nat (List.length (digits (n / 10)))) in *.
    assert (Hk : 1 <= k).
    { destruct (Z.le_gt_cases 1 k); [assumption|].
      assert (k = 0) by lia.
      replace k with 0 in IH by lia.
      change (10 ^ 0) with 1 in IH. dlia. }
    replace (k + 1 - 1) with (Z.succ (k - 1)) by lia.
    replace (k + 1) with (Z.succ k) by lia.
    rewrite !Z.pow_succ_r by lia. dlia.
Qed.

Lemma digits_nonempty n : 0 <= n -> digits n <> [].
Proof.
  intros Hn. rewrite digits_eq by lia. destruct (n <? 10); [discriminate|].
  destruct (digits (n / 10)); discriminate.
Qed.

Lemma digits_head n : 0 < n -> exists d ds, digits n = d :: ds /\ 49 <= d <= 57.
Proof.
  intros Hn. assert (H0 : 0 <= n) by lia. revert n H0 Hn.
  apply (digits_ind (fun n => 0 < n ->
           exists d ds, digits n = d :: ds /\ 49 <= d <= 57)); intros n Hn.
  - intros Hpos. rewrite digits_eq by lia. destruct (Z.ltb_spec n 10); [|lia].
    exists (48 + n), []. split; [reflexivity|lia].
  - intros IH _. rewrite digits_eq by lia. destruct (Z.ltb_spec n 10); [lia|].
    destruct (IH ltac:(dlia)) as (d & ds & -> & Hd).
    exists d, (ds ++ [48 + n mod 10]). split; [reflexivity|assumption].
Qed.

(** *** Integers print as their digits *)

Lemma strip_zeros_rev_split r :
  exists j, r = repeat 48 j ++ strip_zeros_rev r.
Proof.
  induction r as [|c r [j IH]]; [exists O; reflexivity|].
  cbn [strip_zeros_rev].
  destruct (Z.eq_dec c 48) as [->|Hc].
  - exists (S j). cbn [repeat app]. f_equal. exact IH.
  - exists O. cbn [repeat app].
    destruct c as [|p|p]; try reflexivity.
    repeat (destruct p as [p|p|]; try reflexivity). congruence.
Qed.

Lemma significand_split n :
  exists j, digits n = significand n ++ repeat 48 j.
Proof.
  unfold significand.
  destruct (strip_zeros_rev_split (rev (digits n))) as [j H].
  exists j. rewrite <- (rev_involutive (digits n)) at 1. rewrite H at 1.
  rewrite rev_app_distr. f_equal.
  clear. induction j as [|j IH]; [reflexivity|].
  cbn [repeat rev]. rewrite IH. clear.
  induction j; [reflexivity|]. cbn. f_equal. assumption.
Qed.

Lemma format_integer n : 0 < n < 10 ^ 21 ->
  format_decimal (significand n) (len (digits n)) = digits n.
Proof.
  intros Hn. unfold format_decimal.
  destruct (significand_split n) as [j Hj].
  assert (Hlen : len (digits n) = len (significand n) + Z.of_nat j).
  { unfold len. rewrite Hj at 1. rewrite length_app, repeat_length. lia. }
  assert (H21 : len (digits n) <= 21).
  { pose proof (digits_length n ltac:(lia)) as [Hlo _].
    destruct (Z.le_gt_cases (len (digits n)) 21); [assumption|].
    assert (10 ^ 21 <= 10 ^ (len (digits n) - 1))
      by (apply Z.pow_le_mono_r; lia).
    lia. }
  destruct (Z.leb_spec (len (significand n)) (len (digits n))); [|lia].
  destruct (Z.leb_spec (len (digits n)) 21); [|lia].
  cbn [andb]. unfold zeros.
  replace (Z.to_nat (len (digits n) - len (significand n))) with j by lia.
  symmetry. exact Hj.
Qed.

Lemma Number_toString_nat n : 0 <= n < 10 ^ 21 ->
  Number_toString (Int n) = digits n.
Proof.
  intros Hn. destruct n as [|p|p]; [reflexivity| |lia].
  unfold Number_toString. cbn [Z.ltb Z.compare Z.abs app].
  apply format_integer. lia.
Qed.

(** *** Every number prints in ASCII *)

Lemma digits_fuel_ascii f : forall n acc,
  ascii_string acc -> ascii_string (digits_fuel f n acc).
Proof.
  induction f as [|f IH]; intros n acc Hacc; [exact Hacc|].
  cbn [digits_fuel].
  assert (H : ascii_string ((48 + n mod 10) :: acc)).
  { constructor; [|exact Hacc]. unfold is_ascii. dlia. }
  destruct (n <? 10); [exact H|]. apply IH, H.
Qed.

Lemma digits_ascii n : ascii_string (digits n).
Proof. apply digits_fuel_ascii. constructor. Qed.

Lemma strip_zeros_rev_ascii r : ascii_string r -> ascii_string (strip_zeros_rev r).
Proof.
  induction 1 as [|c r Hc Hr IH]; [constructor|].
  cbn [strip_zeros_rev].
  destruct (Z.eq_dec c 48) as [->|Hn]; [exact IH|].
  assert (E : strip_zeros_rev (c :: r) = c :: r).
  { destruct c as [|p|p]; try reflexivity.
    repeat (destruct p as [p|p|]; try reflexivity). congruence. }
  cbn [strip_zeros_rev] in E. rewrite E. constructor; assumption.
Qed.

Lemma significand_ascii n : ascii_string (significand n).
Proof.
  unfold significand. apply Forall_rev, strip_zeros_rev_ascii, Forall_rev.
  apply digits_ascii.
Qed.

Lemma zeros_ascii n : ascii_string (zeros n).
Proof.
  unfold zeros. apply Forall_forall. intros c Hc.
  apply repeat_spec in Hc. subst c. unfold is_ascii. lia.
Qed.

Lemma format_decimal_ascii s n : ascii_string s -> ascii_string (format_decimal s n).
Proof.
  intros Hs. unfold format_decimal.
  assert (Hdot : ascii_string (lit ".")) by (apply ascii_check; reflexivity).
  assert (H0dot : ascii_string (lit "0.")) by (apply ascii_check; reflexivity).
  assert (He : ascii_string (lit "e")) by (apply ascii_check; reflexivity).
  assert (Hsign : ascii_string (if n - 1 <? 0 then lit "-" else lit "+"))
    by (destruct (n - 1 <? 0); apply ascii_check; reflexivity).
  destruct ((len s <=? n) && (n <=? 21)).
  { apply ascii_app; [exact Hs|apply zeros_ascii]. }
  destruct ((0 <? n) && (n <=? 21)).
  { apply ascii_app; [apply Forall_take, Hs|].
    apply ascii_app; [exact Hdot|apply Forall_drop, Hs]. }
  destruct ((-6 <? n) && (n <=? 0)).
  { apply ascii_app; [exact H0dot|].
    apply ascii_app; [apply zeros_ascii|exact Hs]. }
  destruct s as [|d [|d' ds]]; [constructor| |].
  - repeat apply ascii_app; auto using digits_ascii.
  - inversion Hs as [|? ? Hd Hds]; subst.
    apply ascii_app; [constructor; [exact Hd|constructor]|].
    repeat apply ascii_app; auto using digits_ascii.
Qed.

Lemma Number_toString_ascii x : ascii_string (Number_toString x).
Proof.
  destruct x as [z|m e|]; unfold Number_toString.
  - destruct z; [apply ascii_check; reflexivity| |];
      (apply ascii_app;
       [match goal with |- context [if ?c then _ else _] => destruct c end;
        [apply ascii_check; reflexivity|constructor]
       |apply format_decimal_ascii, significand_ascii]).
  - apply ascii_app;
      [destruct (m <? 0); [apply ascii_check; reflexivity|constructor]
      |apply format_decimal_ascii, digits_ascii].
  - apply ascii_check; reflexivity.
Qed.

End Digits.

(** ** The date sequence *)

Module DateSeq.
Import DateFacts Digits.

(** The world after one reading of the clock. *)
Definition tick (w : World) : World :=
  mkWorld (clock w) (S (ticks w)) (entropy w) (draws w) (network w) (sent w).

(** The instant of the next reading of the clock, in local time. *)
Definition local_now (tz : Z -> Z) (w : World) : Z :=
  LocalTime tz (clock w (ticks w)).

(** What [String(year).slice(2)] is. *)
Definition year_text (y : Z) : jsstring := slice (Number_toString (Int y)) 2.

(** What the code concatenates, for the local time [lt]: a missing
    character of the year contributes the text [undefined]. *)
Definition date_seq (lt : Z) : jsstring :=
  let D := DateFromTime lt in
  let M := MonthFromTime lt + 1 in
  let y := year_text (YearFromTime lt) in
  [48 + D / 10; 48 + M / 10] ++ ToString (char_at y 0)
    ++ [48 + WeekDay lt; 48 + D mod 10; 48 + M mod 10]
    ++ ToString (char_at y 1).

(** The digest of the specification: [D0 M0 Y0 W D1 M1 Y1] with [Y] the
    last two digits of the year. *)
Definition digest (lt : Z) : jsstring :=
  let D := DateFromTime lt in
  let M := MonthFromTime lt + 1 in
  let Y := YearFromTime lt mod 100 in
  [48 + D / 10; 48 + M / 10; 48 + Y / 10; 48 + WeekDay lt;
   48 + D mod 10; 48 + M mod 10; 48 + Y mod 10].

Lemma two_digits z : 0 <= z <= 99 ->
  padStart (Number_toString (Int z)) 2 (lit "0") = [48 + z / 10; 48 + z mod 10].
Proof.
  intros Hz. apply str_eqb_eq.
  apply (range_cases
           (fun z => str_eqb (padStart (Number_toString (Int z)) 2 (lit "0"))
                             [48 + z / 10; 48 + z mod 10]) 0 100);
    [vm_compute; reflexivity|lia].
Qed.

Lemma one_digit z : 0 <= z <= 9 -> Number_toString (Int z) = [48 + z].
Proof.
  intros Hz. apply str_eqb_eq.
  apply (range_cases (fun z => str_eqb (Number_toString (Int z)) [48 + z]) 0 10);
    [vm_compute; reflexivity|lia].
Qed.

Lemma js_add_str s v : js_add (VStr s) v = Ok (VStr (s ++ ToString v)).
Proof. reflexivity. Qed.

Lemma generate_date_seq_at tz t w :
  generate_date_seq tz (Some (DateAt t)) w
  = (Ok (VStr (date_seq (LocalTime tz t))), w).
Proof.
  unfold generate_date_seq, bind, ret, lift, getDate, getMonth, getFullYear,
    getDay, getter.
  set (lt := LocalTime tz t).
  cbn [number_add].
  rewrite (two_digits (DateFromTime lt))
    by (pose proof (DateFromTime_range lt); lia).
  rewrite (two_digits (MonthFromTime lt + 1))
    by (pose proof (MonthFromTime_range lt); lia).
  rewrite (one_digit (WeekDay lt))
    by (pose proof (WeekDay_range lt); lia).
  unfold date_seq. fold (year_text (YearFromTime lt)).
  cbn [char_at nth_error].
  repeat (rewrite js_add_str; cbn [rbind]). cbn [ToString].
  rewrite <- !app_assoc. reflexivity.
Qed.

Lemma generate_date_seq_now tz w :
  generate_date_seq tz None w = (Ok (VStr (date_seq (local_now tz w))), tick w).
Proof.
  pose proof (generate_date_seq_at tz (clock w (ticks w)) (tick w)) as H.
  unfold generate_date_seq, bind, ret, Date_now in *. exact H.
Qed.

(** Instants of one local day have one date sequence. *)
Lemma date_seq_day t1 t2 : same_day t1 t2 -> date_seq t1 = date_seq t2.
Proof.
  intros H. unfold date_seq.
  rewrite (DateFromTime_day t1 t2 H), (MonthFromTime_day t1 t2 H),
    (YearFromTime_day t1 t2 H), (WeekDay_day t1 t2 H). reflexivity.
Qed.

(** *** The year *)

Lemma year_text_4 y : 1000 <= y <= 9999 ->
  year_text y = [48 + (y mod 100) / 10; 48 + (y mod 100) mod 10].
Proof.
  intros Hy. unfold year_text.
  rewrite Number_toString_nat by lia.
  rewrite (digits_eq y) by lia. destruct (Z.ltb_spec y 10); [lia|].
  rewrite (digits_eq (y / 10)) by dlia.
  destruct (Z.ltb_spec (y / 10) 10); [dlia|].
  rewrite (digits_eq (y / 10 / 10)) by dlia.
  destruct (Z.ltb_spec (y / 10 / 10) 10); [dlia|].
  rewrite (digits_eq (y / 10 / 10 / 10)) by dlia.
  destruct (Z.ltb_spec (y / 10 / 10 / 10) 10); [|dlia].
  cbn [app]. unfold slice, len. cbn [List.length Z.of_nat Z.ltb Z.compare].
  change (Z.to_nat (Z.min 2 4)) with 2%nat. cbn [skipn].
  replace ((y / 10) mod 10) with ((y mod 100) / 10) by dlia.
  replace (y mod 10) with ((y mod 100) mod 10) by dlia.
  reflexivity.
Qed.

Lemma digest_4 lt : 1000 <= YearFromTime lt <= 9999 -> date_seq lt = digest lt.
Proof.
  intros Hy. unfold date_seq, digest.
  rewrite (year_text_4 _ Hy). reflexivity.
Qed.

Lemma slice_2_long a b c d rest :
  exists x y more, slice (a :: b :: c :: d :: rest) 2 = x :: y :: more.
Proof.
  unfold slice, len. cbn [List.length]. cbn [Z.ltb Z.compare].
  rewrite Z.min_l by lia. change (Z.to_nat 2) with 2%nat. cbn [skipn].
  eauto.
Qed.

(** From the year 1000 on, [String(year).slice(2)] has two characters or
    more. *)
Lemma year_text_long y : 1000 <= y ->
  exists a b rest, year_text y = a :: b :: rest.
Proof.
  intros Hy. unfold year_text.
  destruct (Z.lt_ge_cases y (10 ^ 21)) as [Hlt|Hge].
  - rewrite Number_toString_nat by lia.
    pose proof (digits_length y ltac:(lia)) as [_ Hlen].
    destruct (digits y) as [|a [|b [|c [|d rest]]]] eqn:E;
      try (unfold len in Hlen; cbn in Hlen; lia).
    apply slice_2_long.
  - destruct y as [|p|p]; try lia.
    unfold Number_toString. cbn [Z.ltb Z.compare Z.abs app].
    pose proof (digits_length (Z.pos p) ltac:(lia)) as [Hlo _].
    assert (Hn : 21 < len (digits (Z.pos p))).
    { destruct (Z.lt_ge_cases 21 (len (digits (Z.pos p)))); [assumption|].
      assert (10 ^ len (digits (Z.pos p)) <= 10 ^ 21)
        by (apply Z.pow_le_mono_r; lia).
      pose proof (digits_length (Z.pos p) ltac:(lia)) as [_ Hhi]. lia. }
    unfold format_decimal.
    set (n := len (digits (Z.pos p))) in *.
    replace (n <=? 21) with false by (symmetry; apply Z.leb_gt; lia).
    rewrite !andb_false_r.
    replace (n <=? 0) with false by (symmetry; apply Z.leb_gt; lia).
    rewrite andb_false_r.
    replace (n - 1 <? 0) with false by (symmetry; apply Z.ltb_ge; lia).
    assert (Hs : significand (Z.pos p) <> []).
    { destruct (digits_head (Z.pos p) ltac:(lia)) as (d & ds & Ed & Hd).
      unfold significand. rewrite Ed. cbn [rev].
      intros Hnil. apply (f_equal (@rev Z)) in Hnil.
      rewrite rev_involutive in Hnil. cbn [rev] in Hnil.
      destruct (strip_zeros_rev_split (rev ds ++ [d])) as [j Hj].
      rewrite Hnil, app_nil_r in Hj.
      assert (Hin : In d (repeat 48 j))
        by (rewrite <- Hj; apply in_or_app; right; left; reflexivity).
      apply repeat_spec in Hin. lia. }
    destruct (digits (Z.abs (n - 1))) as [|e es] eqn:Ee;
      [exfalso; apply (digits_nonempty (Z.abs (n - 1))); [lia|exact Ee]|].
    destruct (significand (Z.pos p)) as [|d [|d' ds]]; [congruence| |].
    + cbn [app lit list_ascii_of_string map]. apply slice_2_long.
    + cbn [app lit list_ascii_of_string map].
      destruct (ds ++ _ :: _ :: e :: es) as [|x xs] eqn:Ex;
        [destruct ds; discriminate|].
      apply slice_2_long.
Qed.

(** *** What the key and the local name are made of *)

Lemma char_at_ascii s i : ascii_string s -> ascii_string (ToString (char_at s i)).
Proof.
  intros Hs. unfold char_at.
  destruct (nth_error s i) as [c|] eqn:E.
  - cbn [ToString]. constructor; [|constructor].
    apply nth_error_In in E. unfold ascii_string in Hs.
    rewrite Forall_forall in Hs. exact (Hs c E).
  - apply ascii_check. reflexivity.
Qed.

Lemma year_text_ascii y : ascii_string (year_text y).
Proof. apply Forall_drop, Number_toString_ascii. Qed.

Lemma date_seq_ascii lt : ascii_string (date_seq lt).
Proof.
  unfold date_seq.
  pose proof (DateFromTime_range lt). pose proof (MonthFromTime_range lt).
  pose proof (WeekDay_range lt).
  repeat first
    [ apply ascii_app
    | apply char_at_ascii, year_text_ascii
    | constructor ]; unfold is_ascii; dlia.
Qed.

(** The sequence has 7 characters, or 15 or 23 when [undefined] stands in
    for one or both characters of the year. *)
Lemma date_seq_length lt :
  List.length (date_seq lt) = 7%nat \/ List.length (date_seq lt) = 15%nat
  \/ List.length (date_seq lt) = 23%nat.
Proof.
  unfold date_seq.
  destruct (year_text (YearFromTime lt)) as [|a [|b rest]];
    cbn; auto.
Qed.

End DateSeq.

(** ** The block cipher *)

Module AESFacts.
Import AES.

Definition byte_okb (b : Z) : bool := (0 <=? b) && (b <? 256).

Lemma byte_okb_ok b : byte_okb b = true <-> byte_ok b.
Proof. unfold byte_okb, byte_ok. lia. Qed.

Definition word_ok (w : word) : Prop :=
  let '(a, b, c, d) := w in byte_ok a /\ byte_ok b /\ byte_ok c /\ byte_ok d.

Definition block_ok (s : block) : Prop :=
  let '(a, b, c, d) := s in word_ok a /\ word_ok b /\ word_ok c /\ word_ok d.

(** *** Bytes stay bytes *)

Lemma lxor_byte a b : byte_ok a -> byte_ok b -> byte_ok (Z.lxor a b).
Proof.
  intros Ha Hb. apply byte_okb_ok.
  apply (byte_cases2 (fun a b => byte_okb (Z.lxor a b)));
    [vm_compute; reflexivity|assumption|assumption].
Qed.

Lemma xtime_byte a : byte_ok a -> byte_ok (xtime a).
Proof.
  intros Ha. apply byte_okb_ok.
  apply (byte_cases (fun a => byte_okb (xtime a)));
    [vm_compute; reflexivity|assumption].
Qed.

Lemma sbox_byte a : byte_ok a -> byte_ok (sbox a).
Proof.
  intros Ha. apply byte_okb_ok.
  apply (byte_cases (fun a => byte_okb (sbox a)));
    [vm_compute; reflexivity|assumption].
Qed.

Lemma gmul_n_byte n : forall a c, byte_ok a -> byte_ok (gmul_n n a c).
Proof.
  induction n as [|n IH]; intros a c Ha; cbn [gmul_n].
  - unfold byte_ok. lia.
  - apply lxor_byte; [|apply IH, xtime_byte, Ha].
    destruct (Z.odd c); [exact Ha|unfold byte_ok; lia].
Qed.

Lemma gmul_byte c a : byte_ok a -> byte_ok (gmul c a).
Proof. apply gmul_n_byte. Qed.

Lemma xor_word_ok u v : word_ok u -> word_ok v -> word_ok (xor_word u v).
Proof.
  destruct u as [[[a b] c] d], v as [[[a' b'] c'] d'].
  cbn. intuition auto using lxor_byte.
Qed.

Lemma xor_block_ok s k : block_ok s -> block_ok k -> block_ok (xor_block s k).
Proof.
  destruct s as [[[a b] c] d], k as [[[a' b'] c'] d'].
  cbn [block_ok xor_block]. intuition auto using xor_word_ok.
Qed.

Lemma map_word_ok f w :
  (forall b, byte_ok b -> byte_ok (f b)) -> word_ok w -> word_ok (map_word f w).
Proof. destruct w as [[[a b] c] d]. cbn. intuition auto. Qed.

Lemma map_block_ok f s :
  (forall w, word_ok w -> word_ok (f w)) -> block_ok s ->
  block_ok (map_block f s).
Proof. destruct s as [[[a b] c] d]. cbn [block_ok map_block]. intuition auto. Qed.

Lemma SubBytes_ok s : block_ok s -> block_ok (SubBytes s).
Proof. apply map_block_ok. intros w. apply map_word_ok. exact sbox_byte. Qed.

Lemma ShiftRows_ok s : block_ok s -> block_ok (ShiftRows s).
Proof.
  destruct s as [[[[[[a0 a1] a2] a3] [[[b0 b1] b2] b3]]
                   [[[c0 c1] c2] c3]] [[[d0 d1] d2] d3]].
  cbn. intuition auto.
Qed.

Lemma mix_column_ok w : word_ok w -> word_ok (mix_column w).
Proof.
  destruct w as [[[a b] c] d]. cbn [word_ok mix_column].
  intuition auto using lxor_byte, gmul_byte.
Qed.

Lemma MixColumns_ok s : block_ok s -> block_ok (MixColumns s).
Proof. apply map_block_ok. exact mix_column_ok. Qed.

(** *** Exclusive or *)

Lemma lxor_cancel a b : Z.lxor (Z.lxor a b) b = a.
Proof. rewrite Z.lxor_assoc, Z.lxor_nilpotent, Z.lxor_0_r. reflexivity. Qed.

Lemma xor_word_cancel u v : xor_word (xor_word u v) v = u.
Proof.
  destruct u as [[[a b] c] d], v as [[[a' b'] c'] d'].
  cbn. rewrite !lxor_cancel. reflexivity.
Qed.

Lemma xor_block_cancel s k : xor_block (xor_block s k) k = s.
Proof.
  destruct s as [[[a b] c] d], k as [[[a' b'] c'] d'].
  cbn [xor_block]. rewrite !xor_word_cancel. reflexivity.
Qed.

(** Two sums of four, added term by term. *)
Lemma lxor_shuffle a b c d a' b' c' d' :
  Z.lxor (Z.lxor (Z.lxor (Z.lxor a a') (Z.lxor b b')) (Z.lxor c c')) (Z.lxor d d')
  = Z.lxor (Z.lxor (Z.lxor (Z.lxor a b) c) d) (Z.lxor (Z.lxor (Z.lxor a' b') c') d').
Proof.
  apply Z.bits_inj'. intros n _. rewrite !Z.lxor_spec. btauto.
Qed.

(** *** Multiplication distributes over the sum *)

Lemma xtime_lxor a b : byte_ok a -> byte_ok b ->
  xtime (Z.lxor a b) = Z.lxor (xtime a) (xtime b).
Proof.
  intros Ha Hb. apply Z.eqb_eq.
  apply (byte_cases2 (fun a b => xtime (Z.lxor a b) =? Z.lxor (xtime a) (xtime b)));
    [vm_compute; reflexivity|assumption|assumption].
Qed.

Lemma gmul_n_lxor n : forall a b c, byte_ok a -> byte_ok b ->
  gmul_n n (Z.lxor a b) c = Z.lxor (gmul_n n a c) (gmul_n n b c).
Proof.
  induction n as [|n IH]; intros a b c Ha Hb; cbn [gmul_n]; [reflexivity|].
  rewrite xtime_lxor, IH by auto using xtime_byte.
  destruct (Z.odd c).
  - apply Z.bits_inj'. intros k _. rewrite !Z.lxor_spec. btauto.
  - apply Z.bits_inj'. intros k _. rewrite !Z.lxor_spec.
    rewrite Z.bits_0. btauto.
Qed.

Lemma gmul_lxor c a b : byte_ok a -> byte_ok b ->
  gmul c (Z.lxor a b) = Z.lxor (gmul c a) (gmul c b).
Proof. apply gmul_n_lxor. Qed.

Lemma mix_column_lxor u v : word_ok u -> word_ok v ->
  mix_column (xor_word u v) = xor_word (mix_column u) (mix_column v).
Proof.
  destruct u as [[[a b] c] d], v as [[[a' b'] c'] d'].
  cbn [word_ok]. intros (Ha & Hb & Hc & Hd) (Ha' & Hb' & Hc' & Hd').
  cbn [xor_word mix_column].
  rewrite !gmul_lxor by assumption.
  rewrite <- !lxor_shuffle. reflexivity.
Qed.

Lemma inv_mix_column_lxor u v : word_ok u -> word_ok v ->
  inv_mix_column (xor_word u v)
  = xor_word (inv_mix_column u) (inv_mix_column v).
Proof.
  destruct u as [[[a b] c] d], v as [[[a' b'] c'] d'].
  cbn [word_ok]. intros (Ha & Hb & Hc & Hd) (Ha' & Hb' & Hc' & Hd').
  cbn [xor_word inv_mix_column].
  rewrite !gmul_lxor by assumption.
  rewrite <- !lxor_shuffle. reflexivity.
Qed.

(** *** The inverse transformations *)

Definition word_eqb (u v : word) : bool :=
  let '(a, b, c, d) := u in
  let '(a', b', c', d') := v in
  (a =? a') && (b =? b') && (c =? c') && (d =? d').

Lemma word_eqb_eq u v : word_eqb u v = true -> u = v.
Proof.
  destruct u as [[[a b] c] d], v as [[[a' b'] c'] d']. cbn.
  rewrite !andb_true_iff, !Z.eqb_eq. intuition congruence.
Qed.

(** On a column with a single non-zero byte. *)
Lemma inv_mix_column_unit a : byte_ok a ->
  inv_mix_column (mix_column (a, 0, 0, 0)) = (a, 0, 0, 0) /\
  inv_mix_column (mix_column (0, a, 0, 0)) = (0, a, 0, 0) /\
  inv_mix_column (mix_column (0, 0, a, 0)) = (0, 0, a, 0) /\
  inv_mix_column (mix_column (0, 0, 0, a)) = (0, 0, 0, a).
Proof.
  intros Ha.
  pose (check a :=
          word_eqb (inv_mix_column (mix_column (a, 0, 0, 0))) (a, 0, 0, 0) &&
          word_eqb (inv_mix_column (mix_column (0, a, 0, 0))) (0, a, 0, 0) &&
          word_eqb (inv_mix_column (mix_column (0, 0, a, 0))) (0, 0, a, 0) &&
          word_eqb (inv_mix_column (mix_column (0, 0, 0, a))) (0, 0, 0, a)).
  assert (H : check a = true)
    by (apply byte_cases; [vm_compute; reflexivity|assumption]).
  unfold check in H. rewrite !andb_true_iff in H.
  intuition auto using word_eqb_eq.
Qed.

Lemma inv_mix_column_mix_column w : word_ok w ->
  inv_mix_column (mix_column w) = w.
Proof.
  destruct w as [[[a b] c] d]. intros (Ha & Hb & Hc & Hd).
  assert (H0 : byte_ok 0) by (unfold byte_ok; lia).
  assert (E : (a, b, c, d)
              = xor_word (xor_word (xor_word (a, 0, 0, 0) (0, b, 0, 0))
                                   (0, 0, c, 0)) (0, 0, 0, d)).
  { cbn [xor_word]. rewrite !Z.lxor_0_r, !Z.lxor_0_l. reflexivity. }
  rewrite E at 1.
  assert (Wa : word_ok (a, 0, 0, 0)) by (cbn; auto).
  assert (Wb : word_ok (0, b, 0, 0)) by (cbn; auto).
  assert (Wc : word_ok (0, 0, c, 0)) by (cbn; auto).
  assert (Wd : word_ok (0, 0, 0, d)) by (cbn; auto).
  rewrite !mix_column_lxor by auto using xor_word_ok.
  rewrite !inv_mix_column_lxor by auto using xor_word_ok, mix_column_ok.
  destruct (inv_mix_column_unit a Ha) as (-> & _ & _ & _).
  destruct (inv_mix_column_unit b Hb) as (_ & -> & _ & _).
  destruct (inv_mix_column_unit c Hc) as (_ & _ & -> & _).
  destruct (inv_mix_column_unit d Hd) as (_ & _ & _ & ->).
  symmetry. exact E.
Qed.

Lemma InvMixColumns_MixColumns s : block_ok s -> InvMixColumns (MixColumns s) = s.
Proof.
  destruct s as [[[a b] c] d]. intros (Ha & Hb & Hc & Hd).
  unfold InvMixColumns, MixColumns. cbn [map_block].
  rewrite !inv_mix_column_mix_column by assumption. reflexivity.
Qed.

Lemma inv_sbox_sbox a : byte_ok a -> inv_sbox (sbox a) = a.
Proof.
  intros Ha. apply Z.eqb_eq.
  apply (byte_cases (fun a => inv_sbox (sbox a) =? a));
    [vm_compute; reflexivity|assumption].
Qed.

Lemma InvSubBytes_SubBytes s : block_ok s -> InvSubBytes (SubBytes s) = s.
Proof.
  destruct s as [[[[[[a0 a1] a2] a3] [[[b0 b1] b2] b3]]
                   [[[c0 c1] c2] c3]] [[[d0 d1] d2] d3]].
  cbn [block_ok word_ok]. intros H.
  unfold InvSubBytes, SubBytes. cbn [map_block map_word].
  rewrite !inv_sbox_sbox by intuition. reflexivity.
Qed.

Lemma InvShiftRows_ShiftRows s : InvShiftRows (ShiftRows s) = s.
Proof.
  destruct s as [[[[[[a0 a1] a2] a3] [[[b0 b1] b2] b3]]
                   [[[c0 c1] c2] c3]] [[[d0 d1] d2] d3]].
  reflexivity.
Qed.

(** *** The cipher *)

Lemma inv_rounds_rounds rks : Forall block_ok rks ->
  forall s, block_ok s -> inv_rounds rks (rounds rks s) = s.
Proof.
  induction 1 as [|rk more Hrk Hmore IH]; intros s Hs; [reflexivity|].
  destruct more as [|rk' more'].
  - cbn [rounds inv_rounds]. unfold AddRoundKey.
    rewrite xor_block_cancel, InvShiftRows_ShiftRows.
    apply InvSubBytes_SubBytes, Hs.
  - change (inv_rounds (rk :: rk' :: more') (rounds (rk :: rk' :: more') s))
      with (InvSubBytes (InvShiftRows (InvMixColumns (AddRoundKey
              (inv_rounds (rk' :: more')
                 (rounds (rk' :: more')
                    (AddRoundKey (MixColumns (ShiftRows (SubBytes s))) rk)))
              rk)))).
    rewrite IH
      by auto using xor_block_ok, MixColumns_ok, ShiftRows_ok, SubBytes_ok.
    unfold AddRoundKey. rewrite xor_block_cancel.
    rewrite InvMixColumns_MixColumns by auto using ShiftRows_ok, SubBytes_ok.
    rewrite InvShiftRows_ShiftRows. apply InvSubBytes_SubBytes, Hs.
Qed.

(** Deciphering undoes enciphering, under any key schedule of bytes. *)
Lemma InvCipher_Cipher rks s : Forall block_ok rks -> block_ok s ->
  InvCipher rks (Cipher rks s) = s.
Proof.
  intros Hrks Hs. destruct rks as [|rk0 rest]; [reflexivity|].
  inversion Hrks as [|? ? H0 Hrest]; subst.
  unfold InvCipher, Cipher, AddRoundKey.
  rewrite inv_rounds_rounds by auto using xor_block_ok.
  apply xor_block_cancel.
Qed.

Lemma rounds_ok rks : Forall block_ok rks ->
  forall s, block_ok s -> block_ok (rounds rks s).
Proof.
  induction 1 as [|rk more Hrk Hmore IH]; intros s Hs; [exact Hs|].
  destruct more as [|rk' more'].
  - cbn [rounds]. apply xor_block_ok; auto using ShiftRows_ok, SubBytes_ok.
  - change (rounds (rk :: rk' :: more') s)
      with (rounds (rk' :: more')
              (AddRoundKey (MixColumns (ShiftRows (SubBytes s))) rk)).
    apply IH. apply xor_block_ok;
      auto using MixColumns_ok, ShiftRows_ok, SubBytes_ok.
Qed.

Lemma Cipher_ok rks s : Forall block_ok rks -> block_ok s ->
  block_ok (Cipher rks s).
Proof.
  intros Hrks Hs. destruct rks as [|rk0 rest]; [exact Hs|].
  inversion Hrks; subst. apply rounds_ok; auto using xor_block_ok.
Qed.

End AESFacts.

(** ** Key schedule, blocks, CBC and padding *)

Module CBCFacts.
Import AES AESFacts.

Lemma length_ind {A} (P : list A -> Prop) :
  (forall l, (forall l', (List.length l' < List.length l)%nat -> P l') -> P l) ->
  forall l, P l.
Proof.
  intros H l. remember (List.length l) as n eqn:E. revert l E.
  induction n as [n IH] using lt_wf_ind. intros l ->.
  apply H. intros l' Hl'. apply (IH (List.length l') Hl' l' eq_refl).
Qed.

(** *** The key schedule consists of bytes *)

Lemma words_of_ok key : bytes_ok key -> Forall word_ok (words_of key).
Proof.
  induction key as [key IH] using length_ind. intros Hk.
  destruct key as [|a [|b [|c [|d rest]]]]; try constructor.
  - inversion Hk as [|? ? Ha H1]; subst. inversion H1 as [|? ? Hb H2]; subst.
    inversion H2 as [|? ? Hc H3]; subst. inversion H3 as [|? ? Hd H4]; subst.
    cbn. auto.
  - apply IH; [cbn; lia|].
    do 4 (inversion Hk as [|? ? _ Hk']; subst; clear Hk; rename Hk' into Hk).
    exact Hk.
Qed.

Lemma round_keys_of_ok ws : Forall word_ok ws -> Forall block_ok (round_keys_of ws).
Proof.
  induction ws as [ws IH] using length_ind. intros Hw.
  destruct ws as [|a [|b [|c [|d rest]]]]; try constructor.
  - inversion Hw as [|? ? Ha H1]; subst. inversion H1 as [|? ? Hb H2]; subst.
    inversion H2 as [|? ? Hc H3]; subst. inversion H3 as [|? ? Hd H4]; subst.
    cbn [block_ok]. auto.
  - apply IH; [cbn; lia|].
    do 4 (inversion Hw as [|? ? _ Hw']; subst; clear Hw; rename Hw' into Hw).
    exact Hw.
Qed.

Lemma zero_word_ok : word_ok zero_word.
Proof. cbn. unfold byte_ok. lia. Qed.

Lemma nth_word_ok ws i : Forall word_ok ws -> word_ok (nth i ws zero_word).
Proof.
  intros H. destruct (nth_in_or_default i ws zero_word) as [Hin| ->].
  - rewrite Forall_forall in H. apply H, Hin.
  - exact zero_word_ok.
Qed.

Lemma SubWord_ok w : word_ok w -> word_ok (SubWord w).
Proof. apply map_word_ok. exact sbox_byte. Qed.

Lemma RotWord_ok w : word_ok w -> word_ok (RotWord w).
Proof. destruct w as [[[a b] c] d]. cbn. intuition. Qed.

Lemma expand_ok n Nk : forall i rc ws,
  byte_ok rc -> Forall word_ok ws -> Forall word_ok (expand n Nk i rc ws).
Proof.
  induction n as [|n IH]; intros i rc ws Hrc Hws; [exact Hws|].
  cbn [expand]. apply IH.
  - destruct (i mod Nk =? 0)%nat; auto using xtime_byte.
  - apply Forall_app. split; [exact Hws|].
    constructor; [|constructor].
    apply xor_word_ok; [apply nth_word_ok, Hws|].
    destruct (i mod Nk =? 0)%nat.
    + apply xor_word_ok.
      * apply SubWord_ok, RotWord_ok, nth_word_ok, Hws.
      * cbn. unfold byte_ok in *. lia.
    + destruct ((6 <? Nk)%nat && (i mod Nk =? 4)%nat).
      * apply SubWord_ok, nth_word_ok, Hws.
      * apply nth_word_ok, Hws.
Qed.

Lemma KeyExpansion_ok key : bytes_ok key -> Forall block_ok (KeyExpansion key).
Proof.
  intros Hk. unfold KeyExpansion.
  apply round_keys_of_ok, expand_ok; [unfold byte_ok; lia|].
  apply words_of_ok, Hk.
Qed.

(** *** Blocks of a byte sequence *)

Lemma blocks_of_cons b rest :
  blocks_of (bytes_of_block b ++ rest)
  = match blocks_of rest with Some bs => Some (b :: bs) | None => None end.
Proof.
  destruct b as [[[[[[a0 a1] a2] a3] [[[b0 b1] b2] b3]]
                   [[[c0 c1] c2] c3]] [[[d0 d1] d2] d3]].
  reflexivity.
Qed.

Lemma blocks_of_bytes_of_blocks bs : blocks_of (bytes_of_blocks bs) = Some bs.
Proof.
  induction bs as [|b bs IH]; [reflexivity|].
  unfold bytes_of_blocks in *. cbn [flat_map].
  rewrite blocks_of_cons, IH. reflexivity.
Qed.

Lemma blocks_of_inv l : forall bs, blocks_of l = Some bs -> l = bytes_of_blocks bs.
Proof.
  induction l as [l IH] using length_ind. intros bs H.
  destruct l as [|a0 [|a1 [|a2 [|a3 [|b0 [|b1 [|b2 [|b3
                [|c0 [|c1 [|c2 [|c3 [|d0 [|d1 [|d2 [|d3 rest]]]]]]]]]]]]]]]];
    try discriminate.
  - inversion H. reflexivity.
  - cbn [blocks_of] in H.
    destruct (blocks_of rest) as [bs'|] eqn:E; [|discriminate].
    inversion H; subst. cbn. do 16 f_equal.
    apply IH; [cbn; lia|exact E].
Qed.

Lemma bytes_of_blocks_length bs :
  List.length (bytes_of_blocks bs) = (16 * List.length bs)%nat.
Proof.
  induction bs as [|b bs IH]; [reflexivity|].
  unfold bytes_of_blocks in *. cbn [flat_map]. rewrite length_app, IH.
  destruct b as [[[[[[a0 a1] a2] a3] [[[b0 b1] b2] b3]]
                   [[[c0 c1] c2] c3]] [[[d0 d1] d2] d3]].
  cbn [bytes_of_block List.length]. lia.
Qed.

(** A byte sequence splits into blocks exactly when its length is a
    multiple of 16. *)
Lemma blocks_of_None l :
  (List.length l mod 16 <> 0)%nat -> blocks_of l = None.
Proof.
  intros H. destruct (blocks_of l) as [bs|] eqn:E; [|reflexivity].
  apply blocks_of_inv in E. subst l. rewrite bytes_of_blocks_length in H.
  exfalso. apply H. rewrite Nat.mul_comm. apply Nat.Div0.mod_mul.
Qed.

Lemma blocks_of_Some n : forall l, List.length l = (16 * n)%nat ->
  exists bs, blocks_of l = Some bs.
Proof.
  induction n as [|n IH]; intros l Hl.
  - destruct l; [eexists; reflexivity|discriminate].
  - destruct l as [|a0 [|a1 [|a2 [|a3 [|b0 [|b1 [|b2 [|b3
                  [|c0 [|c1 [|c2 [|c3 [|d0 [|d1 [|d2 [|d3 rest]]]]]]]]]]]]]]]];
      cbn [List.length] in Hl; try lia.
    destruct (IH rest ltac:(lia)) as [bs E].
    cbn [blocks_of]. rewrite E. eexists; reflexivity.
Qed.

Lemma bytes_of_block_ok b : bytes_ok (bytes_of_block b) <-> block_ok b.
Proof.
  destruct b as [[[[[[a0 a1] a2] a3] [[[b0 b1] b2] b3]]
                   [[[c0 c1] c2] c3]] [[[d0 d1] d2] d3]].
  cbn [bytes_of_block block_ok word_ok]. unfold bytes_ok.
  rewrite !Forall_cons_iff.
  assert (Forall byte_ok []) by constructor. tauto.
Qed.

Lemma bytes_of_blocks_ok bs : bytes_ok (bytes_of_blocks bs) <-> Forall block_ok bs.
Proof.
  induction bs as [|b bs IH].
  - split; constructor.
  - unfold bytes_of_blocks, bytes_ok in *. cbn [flat_map].
    rewrite Forall_app. split.
    + intros [Hb Hbs]. constructor; [apply bytes_of_block_ok, Hb|apply IH, Hbs].
    + intros H. inversion H; subst.
      split; [apply bytes_of_block_ok; assumption|apply IH; assumption].
Qed.

(** *** CBC *)

Lemma cbc_encrypt_ok rks : Forall block_ok rks ->
  forall ps prev, block_ok prev -> Forall block_ok ps ->
  Forall block_ok (cbc_encrypt rks prev ps).
Proof.
  intros Hrks ps. induction ps as [|p ps IH]; intros prev Hprev Hps;
    [constructor|].
  inversion Hps; subst. cbn [cbc_encrypt].
  assert (block_ok (Cipher rks (xor_block p prev)))
    by auto using Cipher_ok, xor_block_ok.
  constructor; auto.
Qed.

Lemma cbc_decrypt_encrypt rks : Forall block_ok rks ->
  forall ps prev, block_ok prev -> Forall block_ok ps ->
  cbc_decrypt rks prev (cbc_encrypt rks prev ps) = ps.
Proof.
  intros Hrks ps. induction ps as [|p ps IH]; intros prev Hprev Hps;
    [reflexivity|].
  inversion Hps; subst. cbn [cbc_encrypt cbc_decrypt].
  rewrite InvCipher_Cipher by auto using xor_block_ok.
  rewrite xor_block_cancel. f_equal.
  apply IH; auto using Cipher_ok, xor_block_ok.
Qed.

(** *** Padding *)

Definition pad_length (p : bytes) : Z := 16 - Z.of_nat (List.length p) mod 16.

Lemma pad_length_range p : 1 <= pad_length p <= 16.
Proof. unfold pad_length. dlia. Qed.

Lemma pad_ok p : bytes_ok p -> bytes_ok (pad p).
Proof.
  intros Hp. unfold pad. fold (pad_length p).
  apply Forall_app. split; [exact Hp|].
  apply Forall_forall. intros c Hc. apply repeat_spec in Hc. subst c.
  pose proof (pad_length_range p). unfold byte_ok. lia.
Qed.

Lemma pad_blocks p : exists bs, blocks_of (pad p) = Some bs.
Proof.
  apply (blocks_of_Some (Z.to_nat ((Z.of_nat (List.length p) + pad_length p) / 16))).
  unfold pad. fold (pad_length p). rewrite length_app, repeat_length.
  pose proof (pad_length_range p). unfold pad_length in *. dlia.
Qed.

Lemma last_repeat (x : Z) n p : last (p ++ repeat x (S n)) 0 = x.
Proof.
  replace (repeat x (S n)) with (repeat x n ++ [x]).
  - rewrite app_assoc. apply last_last.
  - clear. induction n as [|n IH]; [reflexivity|].
    cbn [repeat app] in *. f_equal. exact IH.
Qed.

Lemma unpad_pad p : unpad (pad p) = Some p.
Proof.
  unfold unpad, pad. fold (pad_length p).
  pose proof (pad_length_range p) as Hn.
  set (n := pad_length p) in *.
  destruct (Z.to_nat n) as [|k] eqn:Ek; [lia|].
  rewrite last_repeat, length_app, repeat_length, Ek.
  replace (List.length p + S k - S k)%nat with (List.length p) by lia.
  rewrite skipn_app, skipn_all, Nat.sub_diag, firstn_app, firstn_all,
    Nat.sub_diag.
  cbn [skipn firstn app]. rewrite app_nil_r.
  replace (forallb (Z.eqb n) (repeat n (S k))) with true.
  - replace ((1 <=? n) && (n <=? 16)
             && (n <=? Z.of_nat (List.length p + S k))) with true;
      [reflexivity|].
    symmetry. rewrite !andb_true_iff, !Z.leb_le. lia.
  - symmetry. apply forallb_forall. intros c Hc.
    apply repeat_spec in Hc. subst c. apply Z.eqb_refl.
Qed.

(** *** [subtle.decrypt] undoes [subtle.encrypt] *)

Lemma decrypt_encrypt iv iv0 key p :
  blocks_of iv = Some [iv0] -> block_ok iv0 ->
  bytes_ok (WebCrypto.key_data key) -> bytes_ok p ->
  exists c, WebCrypto.encrypt iv key p = Ok c /\
            WebCrypto.decrypt iv key c = Ok p /\
            bytes_ok c.
Proof.
  intros Hiv Hiv0 Hkey Hp.
  destruct (pad_blocks p) as [ps Hps].
  pose proof (KeyExpansion_ok _ Hkey) as Hrks.
  assert (Hpsok : Forall block_ok ps).
  { apply bytes_of_blocks_ok. rewrite <- (blocks_of_inv _ _ Hps).
    apply pad_ok, Hp. }
  unfold WebCrypto.encrypt, WebCrypto.decrypt. rewrite Hiv, Hps.
  eexists. split; [reflexivity|]. split.
  - rewrite blocks_of_bytes_of_blocks.
    rewrite cbc_decrypt_encrypt by assumption.
    rewrite <- (blocks_of_inv _ _ Hps), unpad_pad. reflexivity.
  - apply bytes_of_blocks_ok, cbc_encrypt_ok; assumption.
Qed.

(** *** Lengths *)

Lemma cbc_encrypt_length rks : forall ps prev,
  List.length (cbc_encrypt rks prev ps) = List.length ps.
Proof.
  induction ps as [|p ps IH]; intros prev; cbn [cbc_encrypt List.length];
    [reflexivity|]. rewrite IH. reflexivity.
Qed.

Lemma cbc_decrypt_length rks : forall cs prev,
  List.length (cbc_decrypt rks prev cs) = List.length cs.
Proof.
  induction cs as [|c cs IH]; intros prev; cbn [cbc_decrypt List.length];
    [reflexivity|]. rewrite IH. reflexivity.
Qed.

Lemma pad_len p :
  Z.of_nat (List.length (pad p)) = 16 * (Z.of_nat (List.length p) / 16 + 1).
Proof.
  unfold pad. rewrite length_app, repeat_length, Nat2Z.inj_add, Z2Nat.id; dlia.
Qed.

Lemma unpad_len x p : unpad x = Some p ->
  1 <= Z.of_nat (List.length x) - Z.of_nat (List.length p) <= 16.
Proof.
  unfold unpad. set (n := last x 0).
  destruct ((1 <=? n) && (n <=? 16) && (n <=? Z.of_nat (List.length x))
            && forallb (Z.eqb n) (skipn (List.length x - Z.to_nat n) x)) eqn:E;
    [|discriminate].
  intros H. inversion H; subst. rewrite length_firstn.
  repeat (apply andb_true_iff in E; destruct E as [E ?]). lia.
Qed.

End CBCFacts.

(** ** Key derivation *)

Module KeyFacts.
Import DateFacts Digits DateSeq AESFacts CBCFacts.

Lemma encode_ascii s : ascii_string s -> Encoding.encode s = s.
Proof.
  induction 1 as [|c s Hc Hs IH]; [reflexivity|].
  cbn [Encoding.encode]. unfold is_ascii in Hc.
  destruct (Z.ltb_spec c 128); [|lia]. rewrite IH. reflexivity.
Qed.

Lemma ascii_bytes_ok s : ascii_string s -> bytes_ok s.
Proof. apply Forall_impl. unfold is_ascii, byte_ok. lia. Qed.

(** The text whose UTF-8 bytes are the key of the local time [lt]. *)
Definition key_text (lt : Z) : jsstring :=
  lit "qa8y" ++ date_seq lt ++ lit "ty1pn".

Lemma key_text_ascii lt : ascii_string (key_text lt).
Proof.
  unfold key_text.
  apply ascii_app; [apply ascii_check; reflexivity|].
  apply ascii_app; [apply date_seq_ascii|apply ascii_check; reflexivity].
Qed.

(** The key is always of a size that [importKey] accepts: 16 bytes, or 24
    or 32 when [undefined] was spliced into the date sequence. *)
Lemma importKey_key_text lt :
  WebCrypto.importKey (key_text lt) = Ok (WebCrypto.mkKey (key_text lt)).
Proof.
  unfold WebCrypto.importKey, key_text.
  rewrite !length_app.
  destruct (date_seq_length lt) as [E|[E|E]]; rewrite E; reflexivity.
Qed.

Lemma key_of_date_seq s :
  (let? r := js_add (VStr (lit "qa8y")) (VStr s) in js_add r (VStr (lit "ty1pn")))
  = Ok (VStr (lit "qa8y" ++ s ++ lit "ty1pn")).
Proof.
  rewrite js_add_str. cbn [rbind]. rewrite js_add_str. cbn [ToString].
  rewrite <- app_assoc. reflexivity.
Qed.

Lemma generate_key_at tz t w :
  generate_key tz (Some (DateAt t)) w
  = (Ok (WebCrypto.mkKey (key_text (LocalTime tz t))), w).
Proof.
  unfold generate_key, bind. rewrite generate_date_seq_at.
  unfold lift. rewrite key_of_date_seq. cbn [ToString].
  fold (key_text (LocalTime tz t)).
  rewrite (encode_ascii _ (key_text_ascii _)), importKey_key_text. reflexivity.
Qed.

Lemma generate_key_now tz w :
  generate_key tz None w
  = (Ok (WebCrypto.mkKey (key_text (local_now tz w))), tick w).
Proof.
  unfold generate_key, bind. rewrite generate_date_seq_now.
  unfold lift. rewrite key_of_date_seq. cbn [ToString].
  fold (key_text (local_now tz w)).
  rewrite (encode_ascii _ (key_text_ascii _)), importKey_key_text. reflexivity.
Qed.

Lemma key_text_day t1 t2 : same_day t1 t2 -> key_text t1 = key_text t2.
Proof. intros H. unfold key_text. rewrite (date_seq_day t1 t2 H). reflexivity. Qed.

(** *** The initialization vector *)

Definition IV0 : AES.block :=
  Eval vm_compute in
    match AES.blocks_of IV with Some [b] => b | _ => (AES.zero_word, AES.zero_word, AES.zero_word, AES.zero_word) end.

Lemma IV_block : AES.blocks_of IV = Some [IV0].
Proof. reflexivity. Qed.

Lemma IV0_ok : block_ok IV0.
Proof. cbn. unfold byte_ok. repeat split; lia. Qed.

(** *** [encrypt] and [decrypt] *)

Lemma encrypt_eq tz data w :
  encrypt tz data w
  = (WebCrypto.encrypt IV (WebCrypto.mkKey (key_text (local_now tz w))) data,
     tick w).
Proof. unfold encrypt, bind. rewrite generate_key_now. reflexivity. Qed.

Lemma decrypt_eq tz data w :
  decrypt tz data w
  = (WebCrypto.decrypt IV (WebCrypto.mkKey (key_text (local_now tz w))) data,
     tick w).
Proof. unfold decrypt, bind. rewrite generate_key_now. reflexivity. Qed.

(** Under the key of one local time. *)
Lemma decrypt_encrypt_key lt p : bytes_ok p ->
  exists c,
    WebCrypto.encrypt IV (WebCrypto.mkKey (key_text lt)) p = Ok c /\
    WebCrypto.decrypt IV (WebCrypto.mkKey (key_text lt)) c = Ok p /\
    bytes_ok c.
Proof.
  intros Hp.
  apply (decrypt_encrypt IV IV0 (WebCrypto.mkKey (key_text lt)) p IV_block IV0_ok);
    [|exact Hp].
  apply ascii_bytes_ok, key_text_ascii.
Qed.

(** The length of a ciphertext. *)
Lemma WebCrypto_encrypt_length key p c :
  WebCrypto.encrypt IV key p = Ok c ->
  Z.of_nat (List.length c) = 16 * (Z.of_nat (List.length p) / 16 + 1).
Proof.
  unfold WebCrypto.encrypt. rewrite IV_block.
  destruct (pad_blocks p) as [bs Hbs]. rewrite Hbs. intros H.
  inversion H; subst c.
  rewrite bytes_of_blocks_length, CBCFacts.cbc_encrypt_length.
  rewrite <- bytes_of_blocks_length, <- (blocks_of_inv _ _ Hbs).
  apply CBCFacts.pad_len.
Qed.

End KeyFacts.

(** ** Concrete instances *)

(** Indian Standard Time, UTC+05:30. *)
Definition IST (_ : Z) : Z := 19800000.

(** Midnight UTC of 15 March 2024 and of 1 January 999. *)
Definition t_2024_03_15 : Z := Eval vm_compute in MakeTime 2024 2 15.
Definition t_0999_01_01 : Z := Eval vm_compute in MakeTime 999 0 1.

(** A sequence of random numbers, all in [0, 1). *)
Definition entropy0 (k : nat) : Q := (Z.of_nat k * 37 + 3) mod 100 # 100.

(** A world stopped at 2024-03-15 whose network is down. *)
Definition world0 : World :=
  mkWorld (fun _ => t_2024_03_15) 0 entropy0 0 (fun _ _ => Throw NetworkError) [].

Lemma entropy0_ok j : (0 <= entropy0 j)%Q /\ (entropy0 j < 1)%Q.
Proof.
  unfold entropy0, Qle, Qlt. cbn [Qnum Qden].
  pose proof (Z.mod_pos_bound (Z.of_nat j * 37 + 3) 100). lia.
Qed.

(** ** The date sequence (claim C2) *)

(** C2.  For every date whose local full year has four digits (the calendar
    dates of the specification),
    [generate_date_seq] returns, without touching the world, the seven
    characters [D0 M0 Y0 W D1 M1 Y1]: [D] the zero-padded day, [M] the
    zero-padded 1-based month, [Y] the last two digits of the year, [W] the
    weekday. *)
Theorem generate_date_seq_digest (tz : Z -> Z) (t : Z) (w : World) :
  1000 <= YearFromTime (LocalTime tz t) <= 9999 ->
  generate_date_seq tz (Some (DateAt t)) w
  = (Ok (VStr (DateSeq.digest (LocalTime tz t))), w)
  /\ List.length (DateSeq.digest (LocalTime tz t)) = 7%nat.
Proof.
  intros Hy. split; [|reflexivity].
  rewrite DateSeq.generate_date_seq_at, (DateSeq.digest_4 _ Hy). reflexivity.
Qed.

(** C2, witness: 2024-03-15, a Friday, gives 1025534. *)
Lemma generate_date_seq_digest_witness :
  1000 <= YearFromTime (LocalTime IST t_2024_03_15) <= 9999
  /\ generate_date_seq IST (Some (DateAt t_2024_03_15)) world0
     = (Ok (VStr (lit "1025534")), world0)
  /\ WeekDay (LocalTime IST t_2024_03_15) = 5.
Proof.
  assert (H : 1000 <= YearFromTime (LocalTime IST t_2024_03_15) <= 9999)
    by (vm_compute; split; discriminate).
  split; [exact H|]. split; [|reflexivity].
  exact (proj1 (generate_date_seq_digest IST t_2024_03_15 world0 H)).
Defined.

(** Outside the four-digit years, which no caller reaches: on 1 January 999
    the year prints as one character after [slice(2)], the second one is
    [undefined], and the result has 15 characters instead of the 7 of the
    digest, against the function's own description of [y]. *)
Lemma generate_date_seq_year_999 :
  generate_date_seq IST (Some (DateAt t_0999_01_01)) world0
  = (Ok (VStr (lit "009211undefined")), world0)
  /\ DateSeq.digest (LocalTime IST t_0999_01_01) = lit "0092119"
  /\ lit "009211undefined" <> DateSeq.digest (LocalTime IST t_0999_01_01).
Proof. repeat split. vm_compute. discriminate. Qed.

(** ** Encryption round trip (claim C1) *)

(** C1.  A plaintext encrypted at one reading of the clock and decrypted at
    another reading of the same local calendar day comes back unchanged:
    [encrypt] succeeds, and [decrypt] of its result returns the plaintext. *)
Theorem decrypt_encrypt_same_day (tz : Z -> Z) (w1 w2 : World) (p : bytes) :
  bytes_ok p ->
  DateFacts.same_day (DateSeq.local_now tz w1) (DateSeq.local_now tz w2) ->
  exists c,
    encrypt tz p w1 = (Ok c, DateSeq.tick w1) /\
    decrypt tz c w2 = (Ok p, DateSeq.tick w2).
Proof.
  intros Hp Hday.
  destruct (KeyFacts.decrypt_encrypt_key (DateSeq.local_now tz w1) p Hp)
    as (c & Henc & Hdec & _).
  exists c. rewrite KeyFacts.encrypt_eq, KeyFacts.decrypt_eq.
  rewrite <- (KeyFacts.key_text_day _ _ Hday), Henc, Hdec. split; reflexivity.
Qed.

(** C1, witness: three bytes, encrypted and decrypted in [world0]. *)
Lemma decrypt_encrypt_same_day_witness :
  exists c,
    encrypt IST [1; 2; 3] world0 = (Ok c, DateSeq.tick world0) /\
    decrypt IST c (DateSeq.tick world0) = (Ok [1; 2; 3], DateSeq.tick (DateSeq.tick world0)).
Proof.
  apply (decrypt_encrypt_same_day IST world0 (DateSeq.tick world0) [1; 2; 3]).
  - repeat constructor; unfold byte_ok; lia.
  - reflexivity.
Defined.

(** ** Key size (claim C5) *)

(** C5.  For every date of a four-digit year (the statement holds from the
    year 1000 on),
    the key material [UTF8("qa8y" + generate_date_seq(d) + "ty1pn")] is
    exactly 16 bytes long and [generate_key] returns the key made of it:
    [importKey] does not reject it. *)
Theorem generate_key_16_bytes (tz : Z -> Z) (t : Z) (w : World) :
  1000 <= YearFromTime (LocalTime tz t) ->
  exists s,
    generate_date_seq tz (Some (DateAt t)) w = (Ok (VStr s), w) /\
    generate_key tz (Some (DateAt t)) w
    = (Ok (WebCrypto.mkKey (Encoding.encode (lit "qa8y" ++ s ++ lit "ty1pn"))), w) /\
    List.length (Encoding.encode (lit "qa8y" ++ s ++ lit "ty1pn")) = 16%nat.
Proof.
  intros Hy. exists (DateSeq.date_seq (LocalTime tz t)).
  split; [apply DateSeq.generate_date_seq_at|].
  fold (KeyFacts.key_text (LocalTime tz t)).
  rewrite (KeyFacts.encode_ascii _ (KeyFacts.key_text_ascii _)).
  split; [apply KeyFacts.generate_key_at|].
  unfold KeyFacts.key_text, DateSeq.date_seq.
  destruct (DateSeq.year_text_long _ Hy) as (a & b & rest & ->).
  reflexivity.
Qed.

(** C5, witness: the key of 2024-03-15. *)
Lemma generate_key_16_bytes_witness :
  exists s,
    generate_date_seq IST (Some (DateAt t_2024_03_15)) world0 = (Ok (VStr s), world0) /\
    generate_key IST (Some (DateAt t_2024_03_15)) world0
    = (Ok (WebCrypto.mkKey (Encoding.encode (lit "qa8y" ++ s ++ lit "ty1pn"))), world0) /\
    List.length (Encoding.encode (lit "qa8y" ++ s ++ lit "ty1pn")) = 16%nat.
Proof.
  apply (generate_key_16_bytes IST t_2024_03_15 world0).
  vm_compute. discriminate.
Defined.

(** Outside the four-digit years, which no caller reaches: for 1 January
    999 the key material is the 24 bytes of [qa8y009211undefinedty1pn],
    which [importKey] accepts as a 192-bit key. *)
Lemma generate_key_year_999 :
  generate_key IST (Some (DateAt t_0999_01_01)) world0
  = (Ok (WebCrypto.mkKey (Encoding.encode (lit "qa8y009211undefinedty1pn"))), world0)
  /\ List.length (Encoding.encode (lit "qa8y009211undefinedty1pn")) = 24%nat.
Proof. split; reflexivity. Qed.

(** ** Undecryptable ciphertext (claim C7) *)

(** The padding found after CBC decryption under [key] is malformed. *)
Definition padding_invalid (key : bytes) (data : bytes) : Prop :=
  exists cs, AES.blocks_of data = Some cs /\
    AES.unpad (AES.bytes_of_blocks
                 (AES.cbc_decrypt (AES.KeyExpansion key) KeyFacts.IV0 cs)) = None.

(** C7.  A ciphertext whose length is not a multiple of 16, whose padding is
    malformed under the day's key, or which [subtle.decrypt] rejects, makes
    [decrypt] throw the cipher's [OperationError]; [deserialize_payload] of a
    payload that decodes to it throws the same error: neither function
    catches it. *)
Theorem decrypt_rejects (tz : Z -> Z) (w : World) (data : bytes) :
  let key := KeyFacts.key_text (DateSeq.local_now tz w) in
  (List.length data mod 16 <> 0)%nat
  \/ padding_invalid key data
  \/ WebCrypto.decrypt IV (WebCrypto.mkKey key) data = Throw OperationError ->
  decrypt tz data w = (Throw OperationError, DateSeq.tick w)
  /\ forall payload, base64Decode payload = Ok data ->
       deserialize_payload tz payload w = (Throw OperationError, DateSeq.tick w).
Proof.
  intros key H.
  assert (E : WebCrypto.decrypt IV (WebCrypto.mkKey key) data = Throw OperationError).
  { destruct H as [H|[H|H]]; [| |exact H].
    - unfold WebCrypto.decrypt. rewrite KeyFacts.IV_block.
      rewrite (CBCFacts.blocks_of_None _ H). reflexivity.
    - destruct H as (cs & Hcs & Hpad).
      unfold WebCrypto.decrypt. rewrite KeyFacts.IV_block, Hcs.
      cbn [WebCrypto.key_data]. rewrite Hpad. reflexivity. }
  assert (D : decrypt tz data w = (Throw OperationError, DateSeq.tick w)).
  { rewrite KeyFacts.decrypt_eq. fold key. rewrite E. reflexivity. }
  split; [exact D|].
  intros payload Hp. unfold deserialize_payload, bind, lift.
  rewrite Hp, D. reflexivity.
Qed.

(** C7, witness: a ciphertext of three bytes. *)
Lemma decrypt_rejects_witness :
  decrypt IST [1; 2; 3] world0 = (Throw OperationError, DateSeq.tick world0)
  /\ forall payload, base64Decode payload = Ok [1; 2; 3] ->
       deserialize_payload IST payload world0
       = (Throw OperationError, DateSeq.tick world0).
Proof.
  apply (decrypt_rejects IST world0 [1; 2; 3]).
  left. cbn. discriminate.
Defined.

(** A block of zeros has malformed padding under the key of 2024-03-15, and
    so has [unpad] no answer. *)
Example padding_invalid_zeros :
  padding_invalid (KeyFacts.key_text (DateSeq.local_now IST world0))
                  (repeat 0 16).
Proof. eexists. split; [reflexivity|]. vm_compute. reflexivity. Qed.

(** ** Base64 *)

Module Base64Facts.
Import Base64 CBCFacts.

Definition sextet_ok (v : Z) : Prop := 0 <= v < 64.

(** The sextets of a byte sequence, the last one filled with zero bits. *)
Fixpoint sextets (l : bytes) : list Z :=
  match l with
  | [] => []
  | [a] => [a / 4; a mod 4 * 16]
  | [a; b] => [a / 4; a mod 4 * 16 + b / 16; b mod 16 * 4]
  | a :: b :: c :: rest =>
      a / 4 :: (a mod 4 * 16 + b / 16) :: (b mod 16 * 4 + c / 64) :: c mod 64
        :: sextets rest
  end.

Definition padding (l : bytes) : jsstring :=
  match (List.length l mod 3)%nat with
  | 1%nat => [61; 61]
  | 2%nat => [61]
  | _ => []
  end.

Lemma b64_encode_sextets l :
  b64_encode l = map b64_char (sextets l) ++ padding l.
Proof.
  induction l as [l IH] using length_ind.
  destruct l as [|a [|b [|c rest]]]; try reflexivity.
  cbn [b64_encode sextets map app]. rewrite (IH rest) by (cbn; lia).
  do 4 f_equal. unfold padding.
  replace (List.length (a :: b :: c :: rest))
    with (List.length rest + 1 * 3)%nat by (cbn [List.length]; lia).
  rewrite Nat.Div0.mod_add. reflexivity.
Qed.

Lemma sextets_ok l : bytes_ok l -> Forall sextet_ok (sextets l).
Proof.
  induction l as [l IH] using length_ind. intros Hl.
  destruct l as [|a [|b [|c rest]]].
  - constructor.
  - inversion Hl as [|? ? Ha _]; subst. unfold byte_ok in Ha.
    cbn [sextets]. repeat constructor; unfold sextet_ok; try dlia.
  - inversion Hl as [|? ? Ha H1]; subst. inversion H1 as [|? ? Hb _]; subst.
    unfold byte_ok in *.
    cbn [sextets]. repeat constructor; unfold sextet_ok; try dlia.
  - inversion Hl as [|? ? Ha H1]; subst. inversion H1 as [|? ? Hb H2]; subst.
    inversion H2 as [|? ? Hc H3]; subst. unfold byte_ok in *.
    cbn [sextets].
    repeat (constructor; [unfold sextet_ok; dlia|]).
    apply IH; [cbn; lia|exact H3].
Qed.

Lemma b64_decode_sextets l : bytes_ok l -> b64_decode (sextets l) = l.
Proof.
  induction l as [l IH] using length_ind. intros Hl.
  destruct l as [|a [|b [|c rest]]].
  - reflexivity.
  - inversion Hl as [|? ? Ha _]; subst. unfold byte_ok in Ha.
    cbn [sextets b64_decode]. f_equal. dlia.
  - inversion Hl as [|? ? Ha H1]; subst. inversion H1 as [|? ? Hb _]; subst.
    unfold byte_ok in *. cbn [sextets b64_decode].
    f_equal; [dlia|f_equal; dlia].
  - inversion Hl as [|? ? Ha H1]; subst. inversion H1 as [|? ? Hb H2]; subst.
    inversion H2 as [|? ? Hc H3]; subst. unfold byte_ok in *.
    cbn [sextets b64_decode]. rewrite (IH rest) by (cbn; try lia; exact H3).
    f_equal; [dlia|f_equal; [dlia|f_equal; dlia]].
Qed.

(** The number of sextets is never 1 modulo 4. *)
Lemma sextets_length l : (Z.of_nat (List.length (sextets l)) mod 4 =? 1) = false.
Proof.
  induction l as [l IH] using length_ind.
  destruct l as [|a [|b [|c rest]]]; try reflexivity.
  cbn [sextets List.length].
  specialize (IH rest ltac:(cbn; lia)).
  apply Z.eqb_neq. apply Z.eqb_neq in IH. dlia.
Qed.

Lemma b64_encode_length l :
  (Z.of_nat (List.length (b64_encode l)) mod 4 =? 0) = true.
Proof.
  induction l as [l IH] using length_ind.
  destruct l as [|a [|b [|c rest]]]; try reflexivity.
  cbn [b64_encode List.length].
  specialize (IH rest ltac:(cbn; lia)).
  apply Z.eqb_eq. apply Z.eqb_eq in IH. dlia.
Qed.

Definition char_check (i : Z) : bool :=
  match b64_val (b64_char i) with
  | Some v => (v =? i) && negb (is_ascii_whitespace (b64_char i))
              && negb (b64_char i =? 61)
  | None => false
  end.

Lemma b64_char_facts i : sextet_ok i ->
  b64_val (b64_char i) = Some i
  /\ is_ascii_whitespace (b64_char i) = false
  /\ b64_char i <> 61.
Proof.
  intros Hi.
  assert (H : char_check i = true)
    by (apply (range_cases char_check 0 64); [vm_compute; reflexivity|exact Hi]).
  unfold char_check in H.
  destruct (b64_val (b64_char i)) as [v|]; [|discriminate].
  rewrite !andb_true_iff, !negb_true_iff, Z.eqb_eq, Z.eqb_neq in H.
  destruct H as [[-> Hw] Hp]. auto.
Qed.

Lemma values_of_chars vs : Forall sextet_ok vs ->
  values_of (map b64_char vs) = Some vs.
Proof.
  induction 1 as [|v vs Hv Hvs IH]; [reflexivity|].
  cbn [map values_of]. destruct (b64_char_facts v Hv) as (-> & _ & _).
  rewrite IH. reflexivity.
Qed.

Lemma strip_padding_chars vs pad : Forall sextet_ok vs ->
  pad = [] \/ pad = [61] \/ pad = [61; 61] ->
  strip_padding (map b64_char vs ++ pad) = map b64_char vs.
Proof.
  intros Hvs Hpad. induction Hvs as [|v vs Hv Hvs IH].
  - destruct Hpad as [->|[->| ->]]; reflexivity.
  - cbn [map app strip_padding].
    destruct (b64_char_facts v Hv) as (_ & _ & Hne).
    destruct (Z.eqb_spec (b64_char v) 61); [contradiction|].
    cbn [andb]. rewrite IH. reflexivity.
Qed.

Lemma filter_chars vs pad : Forall sextet_ok vs ->
  pad = [] \/ pad = [61] \/ pad = [61; 61] ->
  filter (fun c => negb (is_ascii_whitespace c)) (map b64_char vs ++ pad)
  = map b64_char vs ++ pad.
Proof.
  intros Hvs Hpad. induction Hvs as [|v vs Hv Hvs IH].
  - destruct Hpad as [->|[->| ->]]; reflexivity.
  - cbn [map app filter].
    destruct (b64_char_facts v Hv) as (_ & -> & _).
    cbn [negb]. rewrite IH. reflexivity.
Qed.

Lemma padding_cases l :
  padding l = [] \/ padding l = [61] \/ padding l = [61; 61].
Proof.
  unfold padding.
  destruct (List.length l mod 3)%nat as [|[|[|n]]]; auto.
Qed.

(** [atob] undoes [btoa] on bytes. *)
Lemma atob_b64_encode l : bytes_ok l -> atob (b64_encode l) = Ok l.
Proof.
  intros Hl. unfold atob.
  pose proof (b64_encode_length l) as Hlen.
  rewrite b64_encode_sextets in *.
  rewrite filter_chars by auto using sextets_ok, padding_cases.
  unfold len. rewrite Hlen.
  rewrite strip_padding_chars by auto using sextets_ok, padding_cases.
  rewrite length_map, sextets_length.
  rewrite values_of_chars by auto using sextets_ok.
  rewrite b64_decode_sextets by assumption. reflexivity.
Qed.

Lemma btoa_bytes l : bytes_ok l -> btoa l = Ok (b64_encode l).
Proof.
  intros Hl. unfold btoa.
  replace (forallb (fun c => (0 <=? c) && (c <=? 255)) l) with true;
    [reflexivity|].
  symmetry. apply forallb_forall. intros c Hc.
  unfold bytes_ok in Hl. rewrite Forall_forall in Hl.
  specialize (Hl c Hc). unfold byte_ok in Hl. lia.
Qed.

(** What [atob] rejects, and how. *)
Lemma values_of_None d c :
  In c d -> b64_val c = None -> values_of d = None.
Proof.
  induction d as [|x d IH]; cbn [values_of In]; [tauto|].
  intros [->|Hin] Hc.
  - rewrite Hc. reflexivity.
  - rewrite (IH Hin Hc). destruct (b64_val x); reflexivity.
Qed.

Lemma strip_padding_In d c : In c d -> c <> 61 -> In c (strip_padding d).
Proof.
  induction d as [|x d IH]; cbn [strip_padding In]; [tauto|].
  intros [->|Hin] Hc.
  - destruct (c =? 61) eqn:E; [lia|]. cbn [andb]. left. reflexivity.
  - destruct ((x =? 61) && _) eqn:E.
    + apply andb_true_iff in E. destruct E as [_ E].
      destruct d as [|e [|f d']]; cbn [In] in Hin; try discriminate;
        [tauto|]. destruct Hin as [->|[]]. lia.
    + right. apply IH; assumption.
Qed.

Lemma atob_throws s e : atob s = Throw e -> e = InvalidCharacterError.
Proof.
  unfold atob. destruct (_ =? 1); [congruence|].
  match goal with |- context [values_of ?d] =>
    destruct (values_of d) end; congruence.
Qed.


(** [base64Encode] within the engine's limit on arguments, and beyond. *)
Lemma base64Encode_bytes more l : bytes_ok l ->
  Z.of_nat (List.length l) <= max_arguments more ->
  base64Encode more l = Ok (b64_encode l).
Proof.
  intros Hl Hn. unfold base64Encode.
  destruct (Z.of_nat (List.length l) <=? max_arguments more) eqn:E; [|lia].
  apply btoa_bytes, Hl.
Qed.

Lemma base64Encode_small more l : bytes_ok l ->
  Z.of_nat (List.length l) <= 65536 ->
  base64Encode more l = Ok (b64_encode l).
Proof.
  intros Hl Hn. apply base64Encode_bytes; [exact Hl|].
  unfold max_arguments. lia.
Qed.

Lemma base64Encode_large more l :
  max_arguments more < Z.of_nat (List.length l) ->
  base64Encode more l = Throw RangeError.
Proof.
  intros Hn. unfold base64Encode.
  destruct (Z.of_nat (List.length l) <=? max_arguments more) eqn:E; [lia|].
  reflexivity.
Qed.

(** [base64Decode] undoes [base64Encode]. *)
Lemma base64Decode_base64Encode more l : bytes_ok l ->
  Z.of_nat (List.length l) <= max_arguments more ->
  exists s, base64Encode more l = Ok s /\ base64Decode (VStr s) = Ok l.
Proof.
  intros Hl Hn. exists (b64_encode l). split.
  - apply base64Encode_bytes; assumption.
  - unfold base64Decode. cbn [ToString]. apply atob_b64_encode, Hl.
Qed.

End Base64Facts.

(** ** The local name *)

Module LocalName.
Import DateFacts Digits DateSeq KeyFacts Base64Facts.

(** The world after [n] calls of [Math.random]. *)
Definition draws_by (n : nat) (w : World) : World :=
  mkWorld (clock w) (ticks w) (entropy w) (n + draws w) (network w) (sent w).

(** What one iteration appends for the random number [r]. *)
Definition random_char (r : Q) : jsstring :=
  ToString (charset_at (Qfloor (r * inject_Z (len charset)))).

(** The text of [n] iterations, from the [k]-th random number on. *)
Fixpoint random_text (e : nat -> Q) (k n : nat) : jsstring :=
  match n with
  | O => []
  | S n' => random_char (e k) ++ random_text e (S k) n'
  end.

Lemma random_chars_eq n : forall result w,
  random_chars n result w
  = (Ok (result ++ random_text (entropy w) (draws w) n), draws_by n w).
Proof.
  induction n as [|n IH]; intros result w.
  - cbn [random_chars random_text]. rewrite app_nil_r. unfold ret, draws_by.
    destruct w; reflexivity.
  - cbn [random_chars random_text]. unfold bind, Math_random.
    rewrite IH. cbn [entropy draws]. fold (random_char (entropy w (draws w))).
    rewrite <- app_assoc. f_equal. unfold draws_by.
    cbn [clock ticks entropy draws network sent]. f_equal. lia.
Qed.

Lemma get_random_char_seq_eq n w :
  get_random_char_seq n w
  = (Ok (random_text (entropy w) (draws w) n), draws_by n w).
Proof. unfold get_random_char_seq. rewrite random_chars_eq. reflexivity. Qed.

Lemma charset_ascii : ascii_string charset.
Proof. apply ascii_check. reflexivity. Qed.

Lemma random_char_ascii r : ascii_string (random_char r).
Proof.
  unfold random_char, charset_at.
  destruct (Qfloor (r * inject_Z (len charset)) <? 0).
  - apply ascii_check. reflexivity.
  - apply char_at_ascii, charset_ascii.
Qed.

Lemma random_text_ascii e n : forall k, ascii_string (random_text e k n).
Proof.
  induction n as [|n IH]; intros k; [constructor|].
  cbn [random_text]. apply ascii_app; [apply random_char_ascii|apply IH].
Qed.

(** A character of the 62-character alphabet. *)
Definition alphanumeric (c : Z) : Prop := In c charset.

Definition index_check (i : Z) : bool :=
  match charset_at i with
  | VStr [c] => existsb (Z.eqb c) charset
  | _ => false
  end.

(** Within the contract of [Math.random], an iteration appends one
    character of the alphabet. *)
Lemma random_char_ok r : (0 <= r)%Q -> (r < 1)%Q ->
  exists c, random_char r = [c] /\ alphanumeric c.
Proof.
  intros H0 H1. unfold random_char.
  set (i := Qfloor (r * inject_Z (len charset))).
  assert (Hi : 0 <= i < 62).
  { unfold i. change (len charset) with 62. split.
    - change 0 with (Qfloor 0). apply Qfloor_resp_le.
      apply Qmult_le_0_compat; [exact H0|discriminate].
    - rewrite Zlt_Qlt. eapply Qle_lt_trans; [apply Qfloor_le|].
      destruct r as [n d]. unfold Qlt in *.
      cbn [Qnum Qden Qmult inject_Z] in *.
      rewrite ?Pos2Z.inj_mul. lia. }
  assert (H : index_check i = true)
    by (apply (range_cases index_check 0 62); [vm_compute; reflexivity|exact Hi]).
  unfold index_check in H.
  destruct (charset_at i) as [| | | | |[|c [|]]| |]; try discriminate.
  exists c. split; [reflexivity|].
  apply existsb_exists in H. destruct H as (x & Hx & E).
  apply Z.eqb_eq in E. subst x. exact Hx.
Qed.

Lemma random_text_ok e n : forall k,
  (forall j, (0 <= e j)%Q /\ (e j < 1)%Q) ->
  List.length (random_text e k n) = n /\ Forall alphanumeric (random_text e k n).
Proof.
  induction n as [|n IH]; intros k He; [split; [reflexivity|constructor]|].
  cbn [random_text].
  destruct (random_char_ok (e k)) as (c & -> & Hc); [apply He..|].
  destruct (IH (S k) He) as [Hl Hf].
  cbn [app List.length]. split; [lia|constructor; assumption].
Qed.

(** The plaintext of the local name built in [w] for the local time [lt]. *)
Definition name_text (lt : Z) (w : World) : jsstring :=
  random_text (entropy w) (draws w) 4 ++ date_seq lt
    ++ random_text (entropy w) (4 + draws w) 5.

Lemma name_text_ascii lt w : ascii_string (name_text lt w).
Proof.
  unfold name_text.
  apply ascii_app; [apply random_text_ascii|].
  apply ascii_app; [apply date_seq_ascii|apply random_text_ascii].
Qed.

(** The plaintext has at most 104 characters ([undefined] may stand for
    a character), so its ciphertext is well within what [base64Encode]
    accepts. *)
Lemma random_char_length r : (List.length (random_char r) <= 9)%nat.
Proof.
  unfold random_char, charset_at.
  destruct (Qfloor (r * inject_Z (len charset)) <? 0); [cbn; lia|].
  unfold char_at. destruct (nth_error charset _); cbn; lia.
Qed.

Lemma random_text_length e n : forall k,
  (List.length (random_text e k n) <= 9 * n)%nat.
Proof.
  induction n as [|n IH]; intros k; cbn [random_text]; [cbn; lia|].
  rewrite length_app. pose proof (random_char_length (e k)).
  specialize (IH (S k)). lia.
Qed.

Lemma name_text_length lt w : (List.length (name_text lt w) <= 104)%nat.
Proof.
  unfold name_text. rewrite !length_app.
  pose proof (random_text_length (entropy w) 4 (draws w)).
  pose proof (random_text_length (entropy w) 5 (4 + draws w)).
  destruct (date_seq_length lt) as [E|[E|E]]; rewrite E; lia.
Qed.

Lemma name_cipher_small key lt w c :
  WebCrypto.encrypt IV key (name_text lt w) = Ok c ->
  Z.of_nat (List.length c) <= 65536.
Proof.
  intros H. apply WebCrypto_encrypt_length in H. rewrite H.
  pose proof (name_text_length lt w) as Hl.
  unfold bytes, jsstring, code_unit in *. dlia.
Qed.

(** [generate_local_name] for an explicit date: the date gives the
    sequence in the plaintext, the clock gives the key. *)
Lemma generate_local_name_at tz more t w :
  exists c,
    WebCrypto.encrypt IV (WebCrypto.mkKey (key_text (local_now tz w)))
                      (name_text (LocalTime tz t) w) = Ok c
    /\ bytes_ok c
    /\ generate_local_name tz more (Some (DateAt t)) w
       = (Ok (Base64.b64_encode c), tick (draws_by 9 w)).
Proof.
  destruct (decrypt_encrypt_key (local_now tz w) (name_text (LocalTime tz t) w))
    as (c & Henc & _ & Hc);
    [apply ascii_bytes_ok, name_text_ascii|].
  exists c. split; [exact Henc|]. split; [exact Hc|].
  unfold generate_local_name, bind.
  rewrite get_random_char_seq_eq, generate_date_seq_at, get_random_char_seq_eq.
  unfold lift. rewrite js_add_str. cbn [rbind ToString].
  rewrite js_add_str. cbn [ToString]. rewrite <- app_assoc.
  cbn [entropy draws draws_by].
  fold (name_text (LocalTime tz t) w).
  rewrite (encode_ascii _ (name_text_ascii _ _)), encrypt_eq.
  unfold local_now at 1. cbn [clock ticks draws_by]. fold (local_now tz w).
  rewrite Henc.
  rewrite (base64Encode_small more _ Hc (name_cipher_small _ _ _ _ Henc)).
  reflexivity.
Qed.

(** Decoding and decrypting a local name on the day it was built. *)
Lemma decrypt_local_name tz t w w2 c :
  WebCrypto.encrypt IV (WebCrypto.mkKey (key_text (local_now tz w)))
                    (name_text (LocalTime tz t) w) = Ok c ->
  bytes_ok c ->
  same_day (local_now tz w) (local_now tz w2) ->
  bind (lift (base64Decode (VStr (Base64.b64_encode c)))) (decrypt tz) w2
  = (Ok (name_text (LocalTime tz t) w), tick w2).
Proof.
  intros Henc Hc Hday.
  destruct (decrypt_encrypt_key (local_now tz w) (name_text (LocalTime tz t) w))
    as (c' & Henc' & Hdec & _);
    [apply ascii_bytes_ok, name_text_ascii|].
  rewrite Henc in Henc'. inversion Henc'; subst c'.
  unfold bind, lift, base64Decode. cbn [ToString].
  rewrite (atob_b64_encode _ Hc), decrypt_eq.
  rewrite <- (key_text_day _ _ Hday), Hdec. reflexivity.
Qed.

End LocalName.

(** ** The local name (claims C3 and C10) *)



(** Outside the four-digit years, which no caller reaches: the local name
    built for 1 January 999 decrypts to 24 characters, the date sequence
    being [009211undefined]. *)
Example local_name_year_999 :
  exists name,
    fst (generate_local_name IST 0 (Some (DateAt t_0999_01_01)) world0) = Ok name
    /\ fst (bind (lift (base64Decode (VStr name))) (decrypt IST) world0)
       = Ok (lit "1oL8009211undefinedvSfCZ")
    /\ List.length (lit "1oL8009211undefinedvSfCZ") = 24%nat.
Proof.
  eexists. split; [vm_compute; reflexivity|].
  split; [vm_compute; reflexivity|reflexivity].
Qed.

(** 6 February 1970, and a world whose clock reads it. *)
Definition t_1970_02_06 : Z := Eval vm_compute in MakeTime 1970 1 6.

Definition world_1970 : World :=
  mkWorld (fun _ => t_1970_02_06) 0 entropy0 0 (fun _ _ => Throw NetworkError) [].

(** C10, as amended.  For an explicit date [d], [generate_local_name] uses
    [d] for the sequence [s_d] placed between the random prefix and suffix
    and for nothing else: the key is the one whose bytes are [qa8y], the
    date sequence [s_now] of the clock's reading at the call and [ty1pn].
    The name therefore decrypts, to that plaintext, on the day of the call,
    whatever [d] was. *)
Theorem local_name_key_of_today (tz : Z -> Z) (more : nat) (t : Z)
    (w w2 : World) :
  DateFacts.same_day (DateSeq.local_now tz w) (DateSeq.local_now tz w2) ->
  let pre := LocalName.random_text (entropy w) (draws w) 4 in
  let suf := LocalName.random_text (entropy w) (4 + draws w) 5 in
  exists s_d s_now c name,
    generate_date_seq tz (Some (DateAt t)) w = (Ok (VStr s_d), w)
    /\ generate_date_seq tz (Some (DateAt (clock w (ticks w)))) w
       = (Ok (VStr s_now), w)
    /\ WebCrypto.encrypt IV
         (WebCrypto.mkKey (Encoding.encode (lit "qa8y" ++ s_now ++ lit "ty1pn")))
         (Encoding.encode (pre ++ s_d ++ suf))
       = Ok c
    /\ base64Encode more c = Ok name
    /\ generate_local_name tz more (Some (DateAt t)) w
       = (Ok name, DateSeq.tick (LocalName.draws_by 9 w))
    /\ bind (lift (base64Decode (VStr name))) (decrypt tz) w2
       = (Ok (Encoding.encode (pre ++ s_d ++ suf)), DateSeq.tick w2).
Proof.
  intros Hday pre suf.
  destruct (LocalName.generate_local_name_at tz more t w) as (c & Henc & Hc & Hname).
  exists (DateSeq.date_seq (LocalTime tz t)),
    (DateSeq.date_seq (DateSeq.local_now tz w)), c, (Base64.b64_encode c).
  subst pre suf.
  fold (LocalName.name_text (LocalTime tz t) w).
  rewrite (KeyFacts.encode_ascii _ (LocalName.name_text_ascii _ _)).
  fold (KeyFacts.key_text (DateSeq.local_now tz w)).
  rewrite (KeyFacts.encode_ascii _ (KeyFacts.key_text_ascii _)).
  split; [apply DateSeq.generate_date_seq_at|].
  split; [apply DateSeq.generate_date_seq_at|].
  split; [exact Henc|].
  split; [exact (Base64Facts.base64Encode_small more _ Hc
                   (LocalName.name_cipher_small _ _ _ _ Henc))|].
  split; [exact Hname|].
  exact (LocalName.decrypt_local_name tz t w w2 c Henc Hc Hday).
Qed.

(** C10, witness: a local name for 6 February 1970 built in [world0]. *)
Lemma local_name_key_of_today_witness :
  let pre := LocalName.random_text (entropy world0) (draws world0) 4 in
  let suf := LocalName.random_text (entropy world0) (4 + draws world0) 5 in
  exists s_d s_now c name,
    generate_date_seq IST (Some (DateAt t_1970_02_06)) world0
    = (Ok (VStr s_d), world0)
    /\ generate_date_seq IST (Some (DateAt (clock world0 (ticks world0)))) world0
       = (Ok (VStr s_now), world0)
    /\ WebCrypto.encrypt IV
         (WebCrypto.mkKey (Encoding.encode (lit "qa8y" ++ s_now ++ lit "ty1pn")))
         (Encoding.encode (pre ++ s_d ++ suf))
       = Ok c
    /\ base64Encode 0 c = Ok name
    /\ generate_local_name IST 0 (Some (DateAt t_1970_02_06)) world0
       = (Ok name, DateSeq.tick (LocalName.draws_by 9 world0))
    /\ bind (lift (base64Decode (VStr name))) (decrypt IST) world0
       = (Ok (Encoding.encode (pre ++ s_d ++ suf)), DateSeq.tick world0).
Proof.
  apply (local_name_key_of_today IST 0 t_1970_02_06 world0 world0). reflexivity.
Defined.

(** C10 as stated fails in its last part: the local name built on
    2024-03-15 for 6 February 1970 is also accepted under the key of
    6 February 1970, which decrypts it to 31 other bytes. *)
Lemma local_name_accepted_under_another_key :
  exists name other,
    fst (generate_local_name IST 0 (Some (DateAt t_1970_02_06)) world0) = Ok name
    /\ fst (bind (lift (base64Decode (VStr name))) (decrypt IST) world0)
       = Ok (lit "1oL80075620vSfCZ")
    /\ fst (generate_key IST None world_1970)
       = fst (generate_key IST (Some (DateAt t_1970_02_06)) world0)
    /\ fst (generate_key IST None world_1970) <> fst (generate_key IST None world0)
    /\ fst (bind (lift (base64Decode (VStr name))) (decrypt IST) world_1970)
       = Ok other
    /\ List.length other = 31%nat.
Proof.
  eexists. eexists.
  split; [vm_compute; reflexivity|].
  split; [vm_compute; reflexivity|].
  split; [vm_compute; reflexivity|].
  split; [vm_compute; discriminate|].
  split; [vm_compute; reflexivity|reflexivity].
Qed.

(** Under the key of another date the same kind of name is rejected: the
    one built on 2024-03-15 for 1 January 1970, under the key of that day. *)
Example local_name_not_under_the_key_of_its_date :
  exists name c,
    fst (generate_local_name IST 0 (Some (DateAt 0)) world0) = Ok name
    /\ base64Decode (VStr name) = Ok c
    /\ WebCrypto.decrypt IV (WebCrypto.mkKey (KeyFacts.key_text (LocalTime IST 0))) c
       = Throw OperationError.
Proof.
  eexists. eexists. split; [vm_compute; reflexivity|].
  split; [vm_compute; reflexivity|vm_compute; reflexivity].
Qed.

(** ** The session (claims C4 and C8) *)

Module Session.


(** Base64url (RFC 4648, 5), as the specification names the encoding of the
    token's segments: [-] and [_] stand for [+] and [/]. *)
Definition base64url_decode (s : jsstring) : result jsstring :=
  Base64.atob (map (fun c => if c =? 45 then 43 else if c =? 95 then 47 else c) s).


(** One step of the constructor: either it throws, and so does the whole,
    or it returned. *)
Ltac step :=
  lazymatch goal with
  | |- exists e, rbind ?r _ = Throw e =>
      destruct r eqn:?; cbn [rbind]; [|eexists; reflexivity]
  end.


(** What the constructor returns once every step went through. *)
Lemma session_expiry stn resp rd il inst tok s seg text claims ex n :
  get_prop resp (lit "regdata") = Ok rd ->
  get_prop rd (lit "institutelist") = Ok il ->
  get_index il 0 = Ok inst ->
  inst <> VUndefined -> inst <> VNull ->
  get_prop rd (lit "token") = Ok tok ->
  tok = VStr s ->
  nth_error (split_on 46 s) 1 = Some seg ->
  Base64.atob seg = Ok text ->
  JSON.parse text = Ok claims ->
  get_prop claims (lit "exp") = Ok ex ->
  ToNumber stn ex = Ok n ->
  exists session,
    WebPortalSession_new stn resp = Ok session
    /\ expiry session = TimeClip (number_mul n (Int 1000))
    /\ token session = tok.
Proof.
  intros Hrd Hil Hinst Hu Hn Htok -> Hseg Hatob Hparse Hexp Hnum.
  assert (Hget : forall k, exists x, get_prop rd k = Ok x).
  { intros k. destruct rd; try discriminate; eexists; reflexivity. }
  assert (Hgeti : forall k, exists x, get_prop inst k = Ok x).
  { intros k. destruct inst; try congruence; eexists; reflexivity. }
  unfold WebPortalSession_new.
  rewrite Hrd. cbn [rbind]. rewrite Hil. cbn [rbind]. rewrite Hinst. cbn [rbind].
  destruct (Hgeti (lit "label")) as [x1 ->]. cbn [rbind].
  destruct (Hgeti (lit "value")) as [x2 ->]. cbn [rbind].
  destruct (Hget (lit "memberid")) as [x3 ->]. cbn [rbind].
  destruct (Hget (lit "userid")) as [x4 ->]. cbn [rbind].
  rewrite Htok. cbn [rbind split_dot]. unfold segment. rewrite Hseg.
  cbn [ToString]. rewrite Hatob. cbn [rbind]. rewrite Hparse. cbn [rbind].
  rewrite Hexp. cbn [rbind]. rewrite Hnum. cbn [rbind].
  destruct (Hget (lit "clientid")) as [x5 ->]. cbn [rbind].
  destruct (Hget (lit "membertype")) as [x6 ->]. cbn [rbind].
  destruct (Hget (lit "name")) as [x7 ->]. cbn [rbind].
  destruct (Hget (lit "enrollmentno")) as [x8 ->]. cbn [rbind].
  eexists. split; [reflexivity|]. split; reflexivity.
Qed.




(** *** The errors of the constructor *)





Lemma parse_throws text e : JSON.parse text = Throw e -> e = SyntaxError.
Proof.
  unfold JSON.parse. destruct (JSON.parse_value _ _) as [[v rest]|]; [|congruence].
  destruct (JSON.skip_ws rest); congruence.
Qed.





End Session.

(** A login response around the token [tok]. *)
Definition login_response (tok : jsstring) : value :=
  VObj [(lit "regdata",
         VObj [(lit "institutelist",
                VArr [VObj [(lit "label", VStr (lit "JIIT"));
                            (lit "value", VStr (lit "11IN1902J000001"))]]);
               (lit "memberid", VStr (lit "M1"));
               (lit "userid", VStr (lit "U1"));
               (lit "token", VStr tok);
               (lit "clientid", VStr (lit "JAYPEE"));
               (lit "membertype", VStr (lit "S"));
               (lit "name", VStr (lit "A STUDENT"));
               (lit "enrollmentno", VStr (lit "21103001"))])].

(** A [StringToNumber] for the instances; no instance converts a string. *)
Definition no_numeric_strings (_ : jsstring) : number := NaN.

(** A session as the constructor builds it from [login_response]. *)
Definition session0 : WebPortalSession :=
  mkSession (login_response (lit "h.e30.s")) VNull (VStr (lit "JIIT"))
            (VStr (lit "11IN1902J000001")) (VStr (lit "M1")) (VStr (lit "U1"))
            (VStr (lit "h.e30.s")) InvalidDate (VStr (lit "JAYPEE"))
            (VStr (lit "S")) (VStr (lit "A STUDENT")) (VStr (lit "21103001")).




(** The expiry of a session: a token whose claims are the object with
    [exp] 1700000000 expires at 1700000000 seconds. *)
Example session_expiry_1700000000 :
  Base64.atob (lit "eyJleHAiOjE3MDAwMDAwMDB9") = Ok (lit "{" ++ quoted "exp" ++ lit ":1700000000}")
  /\ exists s,
       WebPortalSession_new no_numeric_strings
         (login_response (lit "h.eyJleHAiOjE3MDAwMDAwMDB9.s")) = Ok s
       /\ expiry s = DateAt (1700000000 * 1000).
Proof.
  split; [reflexivity|]. eexists; split; vm_compute; reflexivity.
Qed.

(** The JSON text of the claims [exp] 1700000000 and [ub] [???]. *)
Definition claims_text : jsstring :=
  lit "{" ++ quoted "exp" ++ lit ":1700000000," ++ quoted "ub" ++ lit ":"
    ++ quoted "???" ++ lit "}".

(** C8, at the failing input.  The middle segment of this token is the
    base64url form of the claims [exp] 1700000000 and [ub] [???] and
    contains [_]; [atob] rejects it and the constructor throws, where the
    claim expects a session expiring at 1700000000 seconds. *)
Theorem base64url_token_rejected :
  let seg := lit "eyJleHAiOjE3MDAwMDAwMDAsInViIjoiPz8_In0" in
  Session.base64url_decode seg = Ok claims_text
  /\ JSON.parse claims_text
     = Ok (VObj [(lit "exp", VNum (Int 1700000000)); (lit "ub", VStr (lit "???"))])
  /\ WebPortalSession_new no_numeric_strings
       (login_response (lit "h." ++ seg ++ lit ".s"))
     = Throw InvalidCharacterError.
Proof. repeat split; vm_compute; reflexivity. Qed.

(** ** The exported calls (claim C9) *)

Module Calls.

Lemma bind_fst {A B} (m : M A) (k : A -> M B) (w : World) :
  fst (bind m k w)
  = match fst (m w) with
    | Ok a => fst (k a (snd (m w)))
    | Throw e => Throw e
    end.
Proof. unfold bind. destruct (m w) as [[a|e] w']; reflexivity. Qed.

(** [try { body } catch (e) { return a }]: what the body returns, or [a]
    when it throws, in the world the body left. *)
Lemma try_catch_run {A} (body : M A) (a : A) (w : World) :
  try_catch body (fun _ => ret a) w
  = match body w with
    | (Ok r, w') => (Ok r, w')
    | (Throw _, w') => (Ok a, w')
    end.
Proof. unfold try_catch, ret. destruct (body w) as [[r|e] w']; reflexivity. Qed.

(** The payload that [StudentLogin] serializes before its [try]. *)
Definition login_payload (username captcha : value) : value :=
  VObj [(lit "username", username);
        (lit "usertype", VStr (lit "S"));
        (lit "captcha",
         match captcha with VUndefined => DEFCAPTCHA | _ => captcha end)].

(** The payloads of the two data calls. *)
Definition personal_payload (id : value) : value :=
  VObj [(lit "clinetid", VStr (lit "SOAU")); (lit "instituteid", id)].

Definition hostel_payload (id : value) : value :=
  VObj [(lit "instituteid", id)].

Definition personal_endpoint : jsstring :=
  lit "/studentpersinfo/getstudent-personalinformation".

Definition hostel_endpoint : jsstring :=
  lit "/myhostelallocationdetail/gethostelallocationdetail".

Lemma StudentLogin_run tz stn more username password captcha w :
  StudentLogin tz stn more username password captcha w
  = match serialize_payload tz more (login_payload username captcha) w with
    | (Throw e, w1) => (Throw e, w1)
    | (Ok payload, w1) =>
        match StudentLogin_try tz stn more password payload w1 with
        | (Ok r, w2) => (Ok r, w2)
        | (Throw _, w2) => (Ok None, w2)
        end
    end.
Proof.
  unfold StudentLogin. fold (login_payload username captcha). unfold bind.
  destruct (serialize_payload tz more (login_payload username captcha) w)
    as [[payload|e] w1]; [|reflexivity].
  apply try_catch_run.
Qed.

Lemma data_call_run tz more endpoint session payload w :
  data_call tz more endpoint session payload w
  = match data_call_try tz more endpoint session payload w with
    | (Ok v, w') => (Ok v, w')
    | (Throw _, w') => (Ok VNull, w')
    end.
Proof. unfold data_call. apply try_catch_run. Qed.

End Calls.

(** C9, as amended.  In [StudentLogin], [GetPersonalInfo] and
    [GetHostelInfo] every error thrown inside the [try] block is caught and
    the call returns [null]; when the block returns, the call returns its
    value.  What is evaluated before the [try] propagates to the caller: an
    error of the first [serialize_payload] in [StudentLogin], and the
    [TypeError] of reading [session.instituteid] in the two data calls. *)
Theorem errors_caught_inside_try (tz : Z -> Z) (stn : jsstring -> number)
    (more : nat) (w : World) :
  (forall username password captcha,
     match serialize_payload tz more (Calls.login_payload username captcha) w with
     | (Throw e, w1) =>
         StudentLogin tz stn more username password captcha w = (Throw e, w1)
     | (Ok payload, w1) =>
         match StudentLogin_try tz stn more password payload w1 with
         | (Ok session, w2) =>
             StudentLogin tz stn more username password captcha w = (Ok session, w2)
         | (Throw _, w2) =>
             StudentLogin tz stn more username password captcha w = (Ok None, w2)
         end
     end)
  /\ (forall session,
        match session_instituteid session with
        | Throw e =>
            GetPersonalInfo tz more session w = (Throw e, w)
            /\ GetHostelInfo tz more session w = (Throw e, w)
        | Ok id =>
            match data_call_try tz more Calls.personal_endpoint session
                                (Calls.personal_payload id) w with
            | (Ok v, w2) => GetPersonalInfo tz more session w = (Ok v, w2)
            | (Throw _, w2) => GetPersonalInfo tz more session w = (Ok VNull, w2)
            end
            /\ match data_call_try tz more Calls.hostel_endpoint session
                                   (Calls.hostel_payload id) w with
               | (Ok v, w2) => GetHostelInfo tz more session w = (Ok v, w2)
               | (Throw _, w2) => GetHostelInfo tz more session w = (Ok VNull, w2)
               end
        end).
Proof.
  split.
  - intros username password captcha. rewrite Calls.StudentLogin_run.
    destruct (serialize_payload tz more (Calls.login_payload username captcha) w)
      as [[payload|e] w1]; [|reflexivity].
    destruct (StudentLogin_try tz stn more password payload w1)
      as [[r|e] w2]; reflexivity.
  - intros session. unfold GetPersonalInfo, GetHostelInfo, bind, lift.
    destruct (session_instituteid session) as [id|e]; [|split; reflexivity].
    fold Calls.personal_endpoint Calls.hostel_endpoint.
    fold (Calls.personal_payload id) (Calls.hostel_payload id).
    rewrite !Calls.data_call_run. split.
    + destruct (data_call_try tz more Calls.personal_endpoint session
                  (Calls.personal_payload id) w) as [[v|e] w2]; reflexivity.
    + destruct (data_call_try tz more Calls.hostel_endpoint session
                  (Calls.hostel_payload id) w) as [[v|e] w2]; reflexivity.
Qed.

(** With the network down, the [try] blocks throw [NetworkError] and the
    three calls return [null]. *)
Example network_down_returns_null :
  (exists payload,
     fst (serialize_payload IST 0
            (Calls.login_payload (VStr (lit "21103001")) VUndefined) world0)
     = Ok payload
     /\ fst (StudentLogin_try IST no_numeric_strings 0 (VStr (lit "secret"))
                              payload (DateSeq.tick world0))
        = Throw NetworkError)
  /\ fst (StudentLogin IST no_numeric_strings 0 (VStr (lit "21103001"))
                       (VStr (lit "secret")) VUndefined world0) = Ok None
  /\ fst (data_call_try IST 0 Calls.personal_endpoint (Instance session0)
                        (Calls.personal_payload (instituteid session0))
                        world0)
     = Throw NetworkError
  /\ fst (GetPersonalInfo IST 0 (Instance session0) world0) = Ok VNull
  /\ fst (GetHostelInfo IST 0 (Instance session0) world0) = Ok VNull.
Proof.
  split; [eexists; split; vm_compute; reflexivity|].
  repeat split; vm_compute; reflexivity.
Qed.

(** C9 as stated fails: handed the [null] that a failed login returned, the
    data calls throw [TypeError]; a captcha that [JSON.stringify] cannot
    serialize makes [StudentLogin] throw. *)
Lemma errors_outside_try_propagate :
  fst (GetPersonalInfo IST 0 (Other VNull) world0) = Throw TypeError
  /\ fst (GetHostelInfo IST 0 (Other VNull) world0) = Throw TypeError
  /\ fst (StudentLogin IST no_numeric_strings 0 (VStr (lit "21103001"))
                       (VStr (lit "secret")) (VBigInt 1) world0)
     = Throw TypeError.
Proof. repeat split; vm_compute; reflexivity. Qed.

(** ** UTF-8 *)

Module UTF8.
Import Encoding Digits CBCFacts.

(** A well-formed string: code units in range, every surrogate paired. *)
Fixpoint well_formed (s : jsstring) : bool :=
  match s with
  | [] => true
  | c :: s' =>
      if is_high_surrogate c then
        match s' with
        | d :: s'' => is_low_surrogate d && well_formed s''
        | [] => false
        end
      else if is_low_surrogate c then false
      else (0 <=? c) && (c <? 65536) && well_formed s'
  end.

Lemma well_formed_app a : forall b,
  well_formed a = true -> well_formed b = true -> well_formed (a ++ b) = true.
Proof.
  induction a as [a IH] using length_ind. intros b Ha Hb.
  destruct a as [|c a']; [exact Hb|].
  cbn [app well_formed] in *.
  destruct (is_high_surrogate c).
  - destruct a' as [|d a'']; [discriminate|].
    apply andb_true_iff in Ha. destruct Ha as [Hd Ha].
    cbn [app]. rewrite Hd. cbn [andb]. apply IH; [cbn; lia|exact Ha|exact Hb].
  - destruct (is_low_surrogate c); [discriminate|].
    apply andb_true_iff in Ha. destruct Ha as [Hc Ha].
    rewrite Hc. cbn [andb]. apply IH; [cbn; lia|exact Ha|exact Hb].
Qed.

Lemma well_formed_ascii s : ascii_string s -> well_formed s = true.
Proof.
  induction 1 as [|c s Hc Hs IH]; [reflexivity|].
  cbn [well_formed]. unfold is_ascii in Hc.
  unfold is_high_surrogate, is_low_surrogate.
  destruct (Z.leb_spec 0xD800 c); [lia|].
  destruct (Z.leb_spec 0xDC00 c); [lia|]. cbn [andb].
  rewrite IH. destruct (Z.leb_spec 0 c); [|lia].
  destruct (Z.ltb_spec c 65536); [reflexivity|lia].
Qed.

Lemma well_formed_ok s : well_formed s = true -> jsstring_ok s.
Proof.
  induction s as [s IH] using length_ind. intros H.
  destruct s as [|c s']; [constructor|].
  cbn [well_formed] in H.
  destruct (is_high_surrogate c) eqn:Eh.
  - destruct s' as [|d s'']; [discriminate|].
    apply andb_true_iff in H. destruct H as [Hd H].
    unfold is_high_surrogate in Eh. unfold is_low_surrogate in Hd.
    constructor; [unfold code_unit_ok; lia|].
    constructor; [unfold code_unit_ok; lia|].
    apply IH; [cbn; lia|exact H].
  - destruct (is_low_surrogate c); [discriminate|].
    rewrite !andb_true_iff in H. destruct H as [[H0 H1] H].
    constructor; [unfold code_unit_ok; lia|].
    apply IH; [cbn; lia|exact H].
Qed.

(** *** Decoding what was encoded *)

Lemma decode_from_cons st b bs :
  decode_from st (b :: bs)
  = fst (step st b) ++ decode_from (snd (step st b)) bs.
Proof. cbn [decode_from]. destruct (step st b). reflexivity. Qed.

Lemma lead_1 b : 0 <= b <= 0x7F -> lead b = ([b], None).
Proof.
  intros H. unfold lead.
  destruct (Z.leb_spec 0 b); [|lia]. destruct (Z.leb_spec b 0x7F); [|lia].
  reflexivity.
Qed.

Lemma lead_2 b : 0xC2 <= b <= 0xDF ->
  lead b = ([], Some (mkPending (b - 0xC0) 1 0x80 0xBF)).
Proof.
  intros H. unfold lead.
  destruct (Z.leb_spec 0 b); [|lia]. destruct (Z.leb_spec b 0x7F); [lia|].
  destruct (Z.leb_spec 0xC2 b); [|lia]. destruct (Z.leb_spec b 0xDF); [|lia].
  reflexivity.
Qed.

Lemma lead_3 b : 0xE0 <= b <= 0xEF ->
  lead b = ([], Some (mkPending (b - 0xE0) 2
                        (if b =? 0xE0 then 0xA0 else 0x80)
                        (if b =? 0xED then 0x9F else 0xBF))).
Proof.
  intros H. unfold lead.
  destruct (Z.leb_spec 0 b); [|lia]. destruct (Z.leb_spec b 0x7F); [lia|].
  destruct (Z.leb_spec 0xC2 b); [|lia]. destruct (Z.leb_spec b 0xDF); [lia|].
  destruct (Z.leb_spec 0xE0 b); [|lia]. destruct (Z.leb_spec b 0xEF); [|lia].
  reflexivity.
Qed.

Lemma lead_4 b : 0xF0 <= b <= 0xF4 ->
  lead b = ([], Some (mkPending (b - 0xF0) 3
                        (if b =? 0xF0 then 0x90 else 0x80)
                        (if b =? 0xF4 then 0x8F else 0xBF))).
Proof.
  intros H. unfold lead.
  destruct (Z.leb_spec 0 b); [|lia]. destruct (Z.leb_spec b 0x7F); [lia|].
  destruct (Z.leb_spec 0xC2 b); [|lia]. destruct (Z.leb_spec b 0xDF); [lia|].
  destruct (Z.leb_spec 0xE0 b); [|lia]. destruct (Z.leb_spec b 0xEF); [lia|].
  destruct (Z.leb_spec 0xF0 b); [|lia]. destruct (Z.leb_spec b 0xF4); [|lia].
  reflexivity.
Qed.

(** A continuation byte within the boundaries: the last one completes the
    code point, another one extends it. *)
Lemma step_last cp lo hi b : lo <= b <= hi ->
  step (Some (mkPending cp 1 lo hi)) b = (units_of (cp * 64 + (b - 0x80)), None).
Proof.
  intros H. unfold step. cbn [lower_boundary upper_boundary code_point bytes_needed].
  destruct (Z.leb_spec lo b); [|lia]. destruct (Z.leb_spec b hi); [|lia].
  reflexivity.
Qed.

Lemma step_more cp n lo hi b : lo <= b <= hi -> n <> 1 ->
  step (Some (mkPending cp n lo hi)) b
  = ([], Some (mkPending (cp * 64 + (b - 0x80)) (n - 1) 0x80 0xBF)).
Proof.
  intros H Hn. unfold step.
  cbn [lower_boundary upper_boundary code_point bytes_needed].
  destruct (Z.leb_spec lo b); [|lia]. destruct (Z.leb_spec b hi); [|lia].
  destruct (Z.eqb_spec n 1); [contradiction|]. reflexivity.
Qed.

Lemma units_of_bmp c : c < 0x10000 -> units_of c = [c].
Proof. intros H. unfold units_of. destruct (Z.ltb_spec c 0x10000); [reflexivity|lia]. Qed.

Lemma decode_1 c bs : 0 <= c < 0x80 ->
  decode_from None (c :: bs) = c :: decode_from None bs.
Proof.
  intros Hc. rewrite decode_from_cons. cbn [step].
  rewrite lead_1 by lia. reflexivity.
Qed.

Lemma decode_2 c bs : 0x80 <= c < 0x800 ->
  decode_from None ((0xC0 + c / 64) :: (0x80 + c mod 64) :: bs)
  = c :: decode_from None bs.
Proof.
  intros Hc. rewrite decode_from_cons. cbn [step].
  rewrite lead_2 by dlia. cbn [fst snd app].
  rewrite decode_from_cons, step_last by dlia. cbn [fst snd].
  replace ((0xC0 + c / 64 - 0xC0) * 64 + (0x80 + c mod 64 - 0x80)) with c by dlia.
  rewrite units_of_bmp by lia. reflexivity.
Qed.

Lemma decode_3 c bs : 0x800 <= c < 0x10000 ->
  is_high_surrogate c = false -> is_low_surrogate c = false ->
  decode_from None ((0xE0 + c / 4096) :: (0x80 + (c / 64) mod 64)
                      :: (0x80 + c mod 64) :: bs)
  = c :: decode_from None bs.
Proof.
  intros Hc Hh Hl. unfold is_high_surrogate, is_low_surrogate in *.
  assert (Hns : c < 0xD800 \/ 0xDFFF < c) by lia.
  set (b1 := 0xE0 + c / 4096). set (b2 := 0x80 + (c / 64) mod 64).
  set (b3 := 0x80 + c mod 64).
  assert (H1 : 0xE0 <= b1 <= 0xEF) by (unfold b1; dlia).
  assert (H2 : (if b1 =? 0xE0 then 0xA0 else 0x80) <= b2
               <= (if b1 =? 0xED then 0x9F else 0xBF)).
  { destruct (Z.eqb_spec b1 0xE0); destruct (Z.eqb_spec b1 0xED);
      unfold b1, b2 in *; dlia. }
  assert (H3 : 0x80 <= b3 <= 0xBF) by (unfold b3; dlia).
  rewrite decode_from_cons. cbn [step]. rewrite lead_3 by exact H1.
  cbn [fst snd app].
  rewrite decode_from_cons, step_more by (try exact H2; lia). cbn [fst snd app].
  change (2 - 1) with 1.
  rewrite decode_from_cons, step_last by exact H3. cbn [fst snd].
  replace (((b1 - 0xE0) * 64 + (b2 - 0x80)) * 64 + (b3 - 0x80)) with c
    by (unfold b1, b2, b3; dlia).
  rewrite units_of_bmp by lia. reflexivity.
Qed.

Lemma decode_4 h l bs :
  is_high_surrogate h = true -> is_low_surrogate l = true ->
  let cp := 0x10000 + (h - 0xD800) * 1024 + (l - 0xDC00) in
  decode_from None ((0xF0 + cp / 262144) :: (0x80 + (cp / 4096) mod 64)
                      :: (0x80 + (cp / 64) mod 64) :: (0x80 + cp mod 64) :: bs)
  = h :: l :: decode_from None bs.
Proof.
  intros Hh Hl cp. unfold is_high_surrogate, is_low_surrogate in *.
  assert (Hcp : 0x10000 <= cp <= 0x10FFFF) by (unfold cp; lia).
  assert (Eh : h = 0xD800 + (cp - 0x10000) / 1024) by (unfold cp; dlia).
  assert (El : l = 0xDC00 + (cp - 0x10000) mod 1024) by (unfold cp; dlia).
  clearbody cp.
  set (b1 := 0xF0 + cp / 262144). set (b2 := 0x80 + (cp / 4096) mod 64).
  set (b3 := 0x80 + (cp / 64) mod 64). set (b4 := 0x80 + cp mod 64).
  assert (H1 : 0xF0 <= b1 <= 0xF4) by (unfold b1; dlia).
  assert (H2 : (if b1 =? 0xF0 then 0x90 else 0x80) <= b2
               <= (if b1 =? 0xF4 then 0x8F else 0xBF)).
  { destruct (Z.eqb_spec b1 0xF0); destruct (Z.eqb_spec b1 0xF4);
      unfold b1, b2 in *; dlia. }
  assert (H3 : 0x80 <= b3 <= 0xBF) by (unfold b3; dlia).
  assert (H4 : 0x80 <= b4 <= 0xBF) by (unfold b4; dlia).
  rewrite decode_from_cons. cbn [step]. rewrite lead_4 by exact H1.
  cbn [fst snd app].
  rewrite decode_from_cons, step_more by (try exact H2; lia). cbn [fst snd app].
  change (3 - 1) with 2.
  rewrite decode_from_cons, step_more by (try exact H3; lia). cbn [fst snd app].
  change (2 - 1) with 1.
  rewrite decode_from_cons, step_last by exact H4. cbn [fst snd].
  replace ((((b1 - 0xF0) * 64 + (b2 - 0x80)) * 64 + (b3 - 0x80)) * 64
           + (b4 - 0x80)) with cp by (unfold b1, b2, b3, b4; dlia).
  unfold units_of. destruct (Z.ltb_spec cp 0x10000); [lia|].
  rewrite <- Eh, <- El. reflexivity.
Qed.

Lemma decode_from_encode s : forall bs,
  well_formed s = true ->
  decode_from None (encode s ++ bs) = s ++ decode_from None bs.
Proof.
  induction s as [s IH] using length_ind. intros bs H.
  destruct s as [|c s']; [reflexivity|].
  cbn [well_formed] in H. cbn [encode].
  destruct (is_high_surrogate c) eqn:Eh.
  - destruct s' as [|d s'']; [discriminate|].
    apply andb_true_iff in H. destruct H as [Hd H].
    assert (Hc : 0x800 <= c) by (unfold is_high_surrogate in Eh; lia).
    destruct (Z.ltb_spec c 0x80); [lia|]. destruct (Z.ltb_spec c 0x800); [lia|].
    rewrite Hd. cbn [app].
    rewrite decode_4 by assumption. rewrite IH by (cbn; try lia; exact H).
    reflexivity.
  - destruct (is_low_surrogate c) eqn:El; [discriminate|].
    rewrite !andb_true_iff in H. destruct H as [[H0 H1] H].
    destruct (Z.ltb_spec c 0x80).
    + cbn [app]. rewrite decode_1 by lia. rewrite IH by (cbn; try lia; exact H).
      reflexivity.
    + destruct (Z.ltb_spec c 0x800).
      * cbn [app]. rewrite decode_2 by lia.
        rewrite IH by (cbn; try lia; exact H). reflexivity.
      * cbn [app]. rewrite decode_3 by (try lia; assumption).
        rewrite IH by (cbn; try lia; exact H). reflexivity.
Qed.

(** [TextDecoder] undoes [TextEncoder] on a well-formed string that does
    not begin with the byte order mark. *)
Lemma decode_encode s :
  well_formed s = true -> hd 0 s <> 0xFEFF -> decode (encode s) = s.
Proof.
  intros H Hbom. unfold decode.
  rewrite <- (app_nil_r (encode s)), decode_from_encode by exact H.
  cbn [decode_from]. rewrite app_nil_r.
  destruct s as [|c s']; [reflexivity|]. cbn [hd] in Hbom.
  destruct (Z.eq_dec c 0xFEFF) as [->|Hne]; [contradiction|].
  destruct c as [|p|p]; try reflexivity.
  repeat (destruct p as [p|p|]; try reflexivity). contradiction.
Qed.

Lemma encode_ok s : jsstring_ok s -> bytes_ok (encode s).
Proof.
  induction s as [s IH] using length_ind. intros H.
  destruct s as [|c s']; [constructor|].
  inversion H as [|? ? Hc Hs']; subst. unfold code_unit_ok in Hc.
  assert (Hrep : bytes_ok replacement)
    by (repeat constructor; unfold byte_ok; lia).
  cbn [encode].
  destruct (Z.ltb_spec c 0x80).
  { constructor; [unfold byte_ok; lia|]. apply IH; [cbn; lia|exact Hs']. }
  destruct (Z.ltb_spec c 0x800).
  { constructor; [unfold byte_ok; dlia|].
    constructor; [unfold byte_ok; dlia|]. apply IH; [cbn; lia|exact Hs']. }
  destruct (is_high_surrogate c) eqn:Eh.
  - destruct s' as [|d s'']; [exact Hrep|].
    destruct (is_low_surrogate d) eqn:El.
    + unfold is_high_surrogate in Eh. unfold is_low_surrogate in El.
      inversion Hs' as [|? ? Hd Hs'']; subst.
      repeat (constructor; [unfold byte_ok; dlia|]).
      apply IH; [cbn; lia|exact Hs''].
    + apply Forall_app. split; [exact Hrep|]. apply IH; [cbn; lia|exact Hs'].
  - destruct (is_low_surrogate c).
    + apply Forall_app. split; [exact Hrep|]. apply IH; [cbn; lia|exact Hs'].
    + repeat (constructor; [unfold byte_ok; dlia|]).
      apply IH; [cbn; lia|exact Hs'].
Qed.

End UTF8.

(** ** JSON text *)

Module JSONText.
Import JSON Encoding Digits CBCFacts UTF8.

(** Induction on a value, with the hypothesis on every element of an array
    and on every property value of an object. *)
Section ValueInduction.
Variable P : value -> Prop.
Hypothesis Hundefined : P VUndefined.
Hypothesis Hnull : P VNull.
Hypothesis Hbool : forall b, P (VBool b).
Hypothesis Hnum : forall n, P (VNum n).
Hypothesis Hbigint : forall z, P (VBigInt z).
Hypothesis Hstr : forall s, P (VStr s).
Hypothesis Harr : forall l, Forall P l -> P (VArr l).
Hypothesis Hobj : forall l, Forall (fun kv => P (snd kv)) l -> P (VObj l).

Fixpoint value_induction (v : value) : P v :=
  match v with
  | VUndefined => Hundefined
  | VNull => Hnull
  | VBool b => Hbool b
  | VNum n => Hnum n
  | VBigInt z => Hbigint z
  | VStr s => Hstr s
  | VArr l =>
      Harr l ((fix all (l : list value) : Forall P l :=
               match l with
               | [] => Forall_nil P
               | x :: l' => Forall_cons x (value_induction x) (all l')
               end) l)
  | VObj l =>
      Hobj l ((fix all (l : list (jsstring * value))
               : Forall (fun kv => P (snd kv)) l :=
               match l with
               | [] => Forall_nil _
               | kv :: l' =>
                   Forall_cons kv
                     (match kv return P (snd kv) with
                      | (k, x) => value_induction x
                      end)
                     (all l')
               end) l)
  end.
End ValueInduction.

(** The JSON-serializable values: no [undefined], no BigInt, no NaN;
    numbers in canonical form, strings of code units, object keys unique. *)
Inductive serializable : value -> Prop :=
  | ser_null : serializable VNull
  | ser_bool b : serializable (VBool b)
  | ser_num n : number_ok n -> serializable (VNum n)
  | ser_str s : jsstring_ok s -> serializable (VStr s)
  | ser_arr l : Forall serializable l -> serializable (VArr l)
  | ser_obj l :
      NoDup (map fst l) ->
      Forall (fun kv => jsstring_ok (fst kv) /\ serializable (snd kv)) l ->
      serializable (VObj l).

(** The text of a serializable value. *)
Fixpoint text (v : value) : jsstring :=
  match v with
  | VUndefined | VBigInt _ => []
  | VNull | VNum NaN => lit "null"
  | VBool true => lit "true"
  | VBool false => lit "false"
  | VNum n => Number_toString n
  | VStr s => QuoteJSONString s
  | VArr l => 91 :: join_comma (map text l) ++ [93]
  | VObj l =>
      123 :: join_comma
               (map (fun kv => QuoteJSONString (fst kv) ++ 58 :: text (snd kv)) l)
          ++ [125]
  end.

Lemma serialize_text v : serializable v ->
  SerializeJSONProperty v = Ok (Some (text v)).
Proof.
  induction v as [| | b | n | z | s | l IH | l IH] using value_induction;
    intros H; inversion H; subst; try reflexivity.
  - destruct b; reflexivity.
  - destruct n; reflexivity.
  - cbn [SerializeJSONProperty text].
    match goal with |- match ?e with _ => _ end = _ =>
      assert (E : e = Ok (map text l)) end.
    { match goal with H : Forall serializable l |- _ => revert H end.
      clear - IH. induction IH as [|x l' Hx Hl' IHl]; intros Hs; [reflexivity|].
      inversion Hs as [|? ? Hsx Hsl]; subst. rewrite (Hx Hsx).
      rewrite IHl by assumption. reflexivity. }
    rewrite E. reflexivity.
  - cbn [SerializeJSONProperty text].
    match goal with |- match ?e with _ => _ end = _ =>
      assert (E : e = Ok (map (fun kv => QuoteJSONString (fst kv)
                                          ++ 58 :: text (snd kv)) l)) end.
    { match goal with
      | H : Forall (fun kv => jsstring_ok (fst kv) /\ serializable (snd kv)) l
        |- _ => revert H
      end.
      clear - IH. induction IH as [|[k x] l' Hx Hl' IHl]; intros Hs; [reflexivity|].
      inversion Hs as [|? ? [_ Hsx] Hsl]; subst. cbn [snd] in *.
      rewrite (Hx Hsx). rewrite IHl by assumption. reflexivity. }
    rewrite E. reflexivity.
Qed.

Lemma stringify_text v : serializable v -> stringify v = Ok (VStr (text v)).
Proof. intros H. unfold stringify. rewrite (serialize_text v H). reflexivity. Qed.

(** *** Strings *)

Definition hex_check (d : Z) : bool :=
  match hex_val (hex_char d) with
  | Some v => v =? d
  | None => false
  end.

Lemma hex_val_char d : 0 <= d < 16 -> hex_val (hex_char d) = Some d.
Proof.
  intros Hd.
  assert (H : hex_check d = true)
    by (apply (range_cases hex_check 0 16); [vm_compute; reflexivity|exact Hd]).
  unfold hex_check in H. destruct (hex_val (hex_char d)); [|discriminate].
  apply Z.eqb_eq in H. subst. reflexivity.
Qed.

(** Reading back an escape [\uXXXX]. *)
Lemma parse_string_escape c rest : 0 <= c < 65536 ->
  parse_string (UnicodeEscape c ++ rest)
  = match parse_string rest with
    | Some (str, r) => Some (c :: str, r)
    | None => None
    end.
Proof.
  intros Hc. unfold UnicodeEscape. cbn [app parse_string].
  change (92 =? 34) with false. change (92 =? 92) with true.
  change (117 =? 34) with false. change (117 =? 92) with false.
  change (117 =? 47) with false. change (117 =? 98) with false.
  change (117 =? 102) with false. change (117 =? 110) with false.
  change (117 =? 114) with false. change (117 =? 116) with false.
  change (117 =? 117) with true. cbn [orb].
  rewrite !hex_val_char by dlia.
  replace (c / 4096 * 4096 + c / 256 mod 16 * 256 + c / 16 mod 16 * 16 + c mod 16)
    with c by dlia.
  reflexivity.
Qed.

(** Reading back a short escape. *)
Lemma parse_string_short e u rest :
  (e, u) = (98, 8) \/ (e, u) = (116, 9) \/ (e, u) = (110, 10)
  \/ (e, u) = (102, 12) \/ (e, u) = (114, 13) \/ (e, u) = (34, 34)
  \/ (e, u) = (92, 92) ->
  parse_string (92 :: e :: rest)
  = match parse_string rest with
    | Some (str, r) => Some (u :: str, r)
    | None => None
    end.
Proof.
  intros H. cbn [parse_string].
  change (92 =? 34) with false. change (92 =? 92) with true.
  repeat (destruct H as [H|H]; [inversion H; subst; reflexivity|]).
  inversion H; subst; reflexivity.
Qed.

(** Reading back a character that stands for itself. *)
Lemma parse_string_raw c rest : 32 <= c -> c <> 34 -> c <> 92 ->
  parse_string (c :: rest)
  = match parse_string rest with
    | Some (str, r) => Some (c :: str, r)
    | None => None
    end.
Proof.
  intros H32 H34 H92. cbn [parse_string].
  destruct (Z.eqb_spec c 34); [contradiction|].
  destruct (Z.eqb_spec c 92); [contradiction|].
  destruct (Z.ltb_spec c 32); [lia|]. reflexivity.
Qed.

Lemma parse_string_quote_body s : forall rest,
  jsstring_ok s ->
  parse_string (quote_body s ++ 34 :: rest) = Some (s, rest).
Proof.
  induction s as [s IH] using length_ind. intros rest Hs.
  destruct s as [|c s']; [reflexivity|].
  inversion Hs as [|? ? Hc Hs']; subst. unfold code_unit_ok in Hc.
  assert (IH' : parse_string (quote_body s' ++ 34 :: rest) = Some (s', rest))
    by (apply IH; [cbn; lia|exact Hs']).
  cbn [quote_body].
  destruct (Z.eqb_spec c 8) as [->|N8].
  { cbn [app]. rewrite (parse_string_short 98 8), IH' by auto. reflexivity. }
  destruct (Z.eqb_spec c 9) as [->|N9].
  { cbn [app]. rewrite (parse_string_short 116 9), IH' by auto. reflexivity. }
  destruct (Z.eqb_spec c 10) as [->|N10].
  { cbn [app]. rewrite (parse_string_short 110 10), IH' by auto 10. reflexivity. }
  destruct (Z.eqb_spec c 12) as [->|N12].
  { cbn [app]. rewrite (parse_string_short 102 12), IH' by auto 10. reflexivity. }
  destruct (Z.eqb_spec c 13) as [->|N13].
  { cbn [app]. rewrite (parse_string_short 114 13), IH' by auto 10. reflexivity. }
  destruct (Z.eqb_spec c 34) as [->|N34].
  { cbn [app]. rewrite (parse_string_short 34 34), IH' by auto 10. reflexivity. }
  destruct (Z.eqb_spec c 92) as [->|N92].
  { cbn [app]. rewrite (parse_string_short 92 92), IH' by auto 10. reflexivity. }
  destruct (Z.ltb_spec c 32).
  { rewrite <- app_assoc, parse_string_escape, IH' by lia. reflexivity. }
  destruct (is_high_surrogate c) eqn:Eh.
  - destruct s' as [|d s''].
    + cbn [quote_body app] in *. rewrite parse_string_escape by lia.
      cbn [parse_string]. reflexivity.
    + destruct (is_low_surrogate d) eqn:El.
      * cbn [app]. unfold is_low_surrogate in El.
        rewrite parse_string_raw by lia. rewrite parse_string_raw by lia.
        inversion Hs' as [|? ? Hd Hs'']; subst.
        rewrite IH by (cbn; try lia; exact Hs''). reflexivity.
      * rewrite <- app_assoc, parse_string_escape, IH' by lia. reflexivity.
  - destruct (is_low_surrogate c).
    + rewrite <- app_assoc, parse_string_escape, IH' by lia. reflexivity.
    + cbn [app]. rewrite parse_string_raw, IH' by lia. reflexivity.
Qed.

(** *** The text is well-formed UTF-16 *)

Lemma hex_char_ascii d : 0 <= d < 16 -> is_ascii (hex_char d).
Proof. intros H. unfold hex_char, is_ascii. destruct (d <? 10); lia. Qed.

Lemma UnicodeEscape_ascii c : 0 <= c < 65536 -> ascii_string (UnicodeEscape c).
Proof.
  intros H. unfold UnicodeEscape.
  repeat (constructor; [first [apply hex_char_ascii; dlia|unfold is_ascii; lia]|]).
  constructor.
Qed.

Lemma well_formed_cons_ascii c s : is_ascii c ->
  well_formed s = true -> well_formed (c :: s) = true.
Proof.
  intros Hc Hs.
  apply (well_formed_app [c] s); [|exact Hs].
  apply well_formed_ascii. constructor; [exact Hc|constructor].
Qed.

Lemma quote_body_well_formed s : jsstring_ok s -> well_formed (quote_body s) = true.
Proof.
  induction s as [s IH] using length_ind. intros Hs.
  destruct s as [|c s']; [reflexivity|].
  inversion Hs as [|? ? Hc Hs']; subst. unfold code_unit_ok in Hc.
  assert (IH' : well_formed (quote_body s') = true)
    by (apply IH; [cbn; lia|exact Hs']).
  assert (Hesc : well_formed (UnicodeEscape c ++ quote_body s') = true)
    by (apply well_formed_app;
        [apply well_formed_ascii, UnicodeEscape_ascii; lia|exact IH']).
  cbn [quote_body].
  repeat match goal with
         | |- context [if ?x =? ?y then _ else _] =>
             destruct (Z.eqb_spec x y);
             [repeat apply well_formed_cons_ascii;
              try (unfold is_ascii; lia); exact IH'|]
         end.
  destruct (Z.ltb_spec c 32); [exact Hesc|].
  destruct (is_high_surrogate c) eqn:Eh.
  - destruct s' as [|d s''].
    + apply well_formed_ascii, UnicodeEscape_ascii. lia.
    + destruct (is_low_surrogate d) eqn:El; [|exact Hesc].
      cbn [well_formed]. rewrite Eh, El. cbn [andb].
      inversion Hs'; subst. apply IH; [cbn; lia|assumption].
  - destruct (is_low_surrogate c) eqn:El; [exact Hesc|].
    cbn [well_formed]. rewrite Eh, El, IH'.
    destruct (Z.leb_spec 0 c); [|lia]. destruct (Z.ltb_spec c 65536); [|lia].
    reflexivity.
Qed.

Lemma QuoteJSONString_well_formed s :
  jsstring_ok s -> well_formed (QuoteJSONString s) = true.
Proof.
  intros Hs. unfold QuoteJSONString.
  apply well_formed_cons_ascii; [unfold is_ascii; lia|].
  apply well_formed_app; [apply quote_body_well_formed, Hs|reflexivity].
Qed.

Lemma join_comma_well_formed parts :
  Forall (fun p => well_formed p = true) parts ->
  well_formed (join_comma parts) = true.
Proof.
  induction 1 as [|p parts Hp Hparts IH]; [reflexivity|].
  cbn [join_comma]. destruct parts as [|q parts']; [exact Hp|].
  apply well_formed_app; [exact Hp|].
  apply well_formed_cons_ascii; [unfold is_ascii; lia|exact IH].
Qed.

Lemma text_well_formed v : serializable v -> well_formed (text v) = true.
Proof.
  induction v as [| | b | n | z | s | l IH | l IH] using value_induction;
    intros H; inversion H; subst; try reflexivity.
  - destruct b; reflexivity.
  - destruct n; try reflexivity;
      apply well_formed_ascii, Number_toString_ascii.
  - apply QuoteJSONString_well_formed. assumption.
  - cbn [text]. apply well_formed_cons_ascii; [unfold is_ascii; lia|].
    apply well_formed_app; [|reflexivity].
    apply join_comma_well_formed.
    match goal with H : Forall serializable l |- _ => revert H end.
    clear - IH. induction IH as [|x l' Hx Hl' IHl]; intros Hs; [constructor|].
    inversion Hs; subst. cbn [map]. constructor; auto.
  - cbn [text]. apply well_formed_cons_ascii; [unfold is_ascii; lia|].
    apply well_formed_app; [|reflexivity].
    apply join_comma_well_formed.
    match goal with
    | H : Forall (fun kv => jsstring_ok (fst kv) /\ serializable (snd kv)) l
      |- _ => revert H
    end.
    clear - IH. induction IH as [|[k x] l' Hx Hl' IHl]; intros Hs; [constructor|].
    inversion Hs as [|? ? [Hk Hsx] Hsl]; subst. cbn [map fst snd] in *.
    constructor; [|auto].
    apply well_formed_app; [apply QuoteJSONString_well_formed, Hk|].
    apply well_formed_cons_ascii; [unfold is_ascii; lia|auto].
Qed.

End JSONText.

(** ** JSON numbers *)

Module JSONNumber.
Import JSON Digits CBCFacts.

(** What may follow a number: nothing, or a character that cannot extend
    it. *)
Definition stops (rest : jsstring) : Prop :=
  match rest with
  | [] => True
  | c :: _ => is_digit c = false /\ c <> 46 /\ c <> 101 /\ c <> 69
  end.

Definition no_digit (rest : jsstring) : Prop :=
  match rest with
  | [] => True
  | c :: _ => is_digit c = false
  end.

Lemma stops_no_digit rest : stops rest -> no_digit rest.
Proof. destruct rest; cbn; tauto. Qed.

Lemma take_digits_app ds : forall rest,
  all_digits ds -> no_digit rest -> take_digits (ds ++ rest) = (ds, rest).
Proof.
  induction ds as [|d ds IH]; intros rest Hds Hrest.
  - destruct rest as [|c r]; [reflexivity|]. cbn in Hrest. cbn [app take_digits].
    rewrite Hrest. reflexivity.
  - inversion Hds as [|? ? Hd Hds']; subst. cbn [app take_digits].
    rewrite Hd, (IH rest Hds' Hrest). reflexivity.
Qed.

(** *** The shape of a number *)

Definition frac_text (fp : jsstring) : jsstring :=
  match fp with [] => [] | _ => 46 :: fp end.

Definition exp_text (x : option (bool * jsstring)) : jsstring :=
  match x with
  | None => []
  | Some (eneg, ep) => 101 :: (if eneg then 45 else 43) :: ep
  end.

Definition exp_value (x : option (bool * jsstring)) : Z :=
  match x with
  | None => 0
  | Some (eneg, ep) => (if eneg then -1 else 1) * value_of_digits ep
  end.

Definition shape (neg : bool) (ip fp : jsstring) (x : option (bool * jsstring))
  : jsstring :=
  (if neg then [45] else []) ++ ip ++ frac_text fp ++ exp_text x.

(** An integer part: [0] alone, or digits starting with a digit from 1 to
    9. *)
Definition int_part (ip : jsstring) : Prop :=
  ip = [48] \/ (exists d ip', ip = d :: ip' /\ 49 <= d <= 57 /\ all_digits ip').

Definition exp_part (x : option (bool * jsstring)) : Prop :=
  match x with
  | None => True
  | Some (_, ep) => all_digits ep /\ ep <> []
  end.

Lemma number_int_shape ip rest : int_part ip -> no_digit rest ->
  number_int (ip ++ rest) = (ip, rest).
Proof.
  intros [->|(d & ip' & -> & Hd & Hip')] Hrest; [reflexivity|].
  cbn [app number_int]. destruct (Z.eqb_spec d 48); [lia|].
  change (d :: ip' ++ rest) with ((d :: ip') ++ rest).
  apply take_digits_app; [|exact Hrest].
  constructor; [unfold is_digit; lia|exact Hip'].
Qed.

Lemma number_frac_shape fp rest : all_digits fp ->
  match rest with [] => True | c :: _ => is_digit c = false /\ c <> 46 end ->
  number_frac (frac_text fp ++ rest) = Some (fp, rest).
Proof.
  intros Hfp Hrest. destruct fp as [|d fp'].
  - cbn [frac_text app]. destruct rest as [|c r]; [reflexivity|].
    cbn [number_frac]. destruct (Z.eqb_spec c 46); [tauto|reflexivity].
  - cbn [frac_text app number_frac]. change (46 =? 46) with true. cbn iota.
    change (d :: fp' ++ rest) with ((d :: fp') ++ rest).
    rewrite take_digits_app; [reflexivity|exact Hfp|].
    destruct rest; cbn; tauto.
Qed.

Lemma number_exp_shape x rest : exp_part x -> stops rest ->
  number_exp (exp_text x ++ rest) = Some (exp_value x, rest).
Proof.
  intros Hx Hrest. destruct x as [[eneg ep]|].
  - destruct Hx as [Hep Hne]. cbn [exp_text app number_exp exp_value].
    change ((101 =? 101) || (101 =? 69)) with true. cbn iota.
    assert (E : (let '(eneg0, t') :=
                   if (if eneg then 45 else 43) =? 45 then (true, ep ++ rest)
                   else if (if eneg then 45 else 43) =? 43 then (false, ep ++ rest)
                   else (false, (if eneg then 45 else 43) :: ep ++ rest) in
                 let '(ep0, r) := take_digits t' in
                 match ep0 with
                 | [] => None
                 | _ :: _ =>
                     Some ((if eneg0 then -1 else 1) * value_of_digits ep0, r)
                 end)
                = Some ((if eneg then -1 else 1) * value_of_digits ep, rest)).
    { destruct eneg; cbn [Z.eqb Pos.eqb];
        rewrite (take_digits_app ep rest Hep (stops_no_digit rest Hrest));
        destruct ep; try congruence; reflexivity. }
    exact E.
  - cbn [exp_text app exp_value]. destruct rest as [|c r]; [reflexivity|].
    cbn [number_exp]. cbn in Hrest.
    destruct (Z.eqb_spec c 101); [tauto|].
    destruct (Z.eqb_spec c 69); [tauto|]. reflexivity.
Qed.

Lemma exp_text_head x rest : stops rest ->
  match exp_text x ++ rest with
  | [] => True
  | c :: _ => is_digit c = false /\ c <> 46
  end.
Proof.
  intros Hrest. destruct x as [[eneg ep]|].
  - cbn. split; [reflexivity|lia].
  - cbn [exp_text app]. destruct rest; cbn in *; tauto.
Qed.

Lemma frac_text_head fp x rest : stops rest ->
  no_digit (frac_text fp ++ exp_text x ++ rest).
Proof.
  intros Hrest. destruct fp as [|d fp'].
  - cbn [frac_text app]. pose proof (exp_text_head x rest Hrest) as H.
    destruct (exp_text x ++ rest); cbn in *; tauto.
  - cbn. reflexivity.
Qed.

(** Reading a number of a given shape. *)
Lemma parse_number_shape neg ip fp x rest :
  int_part ip -> all_digits fp -> exp_part x -> stops rest ->
  parse_number (shape neg ip fp x ++ rest)
  = Some (decimal (if neg then - value_of_digits (ip ++ fp)
                   else value_of_digits (ip ++ fp))
                  (exp_value x - len fp), rest).
Proof.
  intros Hip Hfp Hx Hrest. unfold parse_number, shape.
  rewrite <- !app_assoc.
  assert (Hsign : number_sign ((if neg then [45] else [])
                               ++ ip ++ frac_text fp ++ exp_text x ++ rest)
                  = (neg, ip ++ frac_text fp ++ exp_text x ++ rest)).
  { destruct neg; [reflexivity|]. cbn [app].
    destruct Hip as [->|(d & ip' & -> & Hd & _)]; [reflexivity|].
    cbn [app number_sign]. destruct (Z.eqb_spec d 45); [lia|reflexivity]. }
  rewrite Hsign.
  rewrite (number_int_shape ip _ Hip (frac_text_head fp x rest Hrest)).
  rewrite (number_frac_shape fp _ Hfp (exp_text_head x rest Hrest)).
  rewrite (number_exp_shape x rest Hx Hrest).
  destruct Hip as [->|(d & ip' & -> & _)]; reflexivity.
Qed.

(** *** The shapes that [Number::toString] produces *)

Lemma all_digits_zeros n : all_digits (zeros n).
Proof.
  unfold zeros. apply Forall_forall. intros c Hc.
  apply repeat_spec in Hc. subst c. reflexivity.
Qed.

Lemma value_of_digits_zeros n : value_of_digits (zeros n) = 0.
Proof.
  unfold zeros. induction (Z.to_nat n) as [|k IH]; [reflexivity|].
  change (repeat 48 (S k)) with ([48] ++ repeat 48 k).
  rewrite value_of_digits_app, IH. reflexivity.
Qed.

Lemma len_app a b : len (a ++ b) = len a + len b.
Proof. unfold len. rewrite length_app. lia. Qed.

Lemma len_zeros n : 0 <= n -> len (zeros n) = n.
Proof. intros H. unfold len, zeros. rewrite repeat_length. lia. Qed.

Lemma len_nonneg s : 0 <= len s.
Proof. unfold len. lia. Qed.

(** The digits [s] of a positive mantissa: they start with a digit from 1
    to 9. *)
Definition mantissa (s : jsstring) : Prop :=
  exists d ds, s = d :: ds /\ 49 <= d <= 57 /\ all_digits ds.

Lemma mantissa_int_part s : mantissa s -> int_part s.
Proof. intros H. right. exact H. Qed.

Lemma mantissa_all_digits s : mantissa s -> all_digits s.
Proof.
  intros (d & ds & -> & Hd & Hds). constructor; [unfold is_digit; lia|exact Hds].
Qed.

Lemma digits_mantissa n : 0 < n -> mantissa (digits n).
Proof.
  intros Hn. destruct (digits_head n Hn) as (d & ds & E & Hd).
  exists d, ds. split; [exact E|]. split; [exact Hd|].
  pose proof (digits_all_digits n ltac:(lia)) as H. rewrite E in H.
  inversion H; assumption.
Qed.

(** The text of [format_decimal] has the shape of a number with the same
    mantissa and exponent, or, when it is written without point and
    exponent, of the integer itself. *)
Lemma format_decimal_shape s n : mantissa s ->
  exists ip fp x,
    format_decimal s n = shape false ip fp x
    /\ int_part ip /\ all_digits fp /\ exp_part x
    /\ ((value_of_digits (ip ++ fp) = value_of_digits s
         /\ exp_value x - len fp = n - len s)
        \/ (value_of_digits (ip ++ fp) = value_of_digits s * 10 ^ (n - len s)
            /\ exp_value x - len fp = 0 /\ len s <= n)).
Proof.
  intros Hs. pose proof (mantissa_all_digits s Hs) as Hall.
  unfold format_decimal.
  destruct (Z.leb_spec (len s) n) as [Hkn|Hkn];
    [destruct (Z.leb_spec n 21) as [H21|H21]|]; cbn [andb].
  - (* digits followed by zeros *)
    exists (s ++ zeros (n - len s)), [], None.
    unfold shape. cbn [frac_text exp_text app]. rewrite !app_nil_r.
    split; [reflexivity|]. split.
    { destruct Hs as (d & ds & -> & Hd & Hds). right.
      exists d, (ds ++ zeros (n - len (d :: ds))).
      split; [reflexivity|]. split; [exact Hd|].
      apply Forall_app. split; [exact Hds|apply all_digits_zeros]. }
    split; [constructor|]. split; [exact I|]. right.
    rewrite value_of_digits_app, value_of_digits_zeros, len_zeros by lia.
    cbn [exp_value len List.length]. split; [lia|]. split; [reflexivity|lia].
  - (* beyond 21 digits: exponent *)
    destruct (Z.ltb_spec 0 n); [|lia]. cbn [andb].
    destruct (Z.ltb_spec (-6) n); [|lia].
    destruct (Z.leb_spec n 0); [lia|]. cbn [andb].
    destruct (Z.ltb_spec (n - 1) 0); [lia|].
    pose proof Hs as (d & ds & E & Hd & Hds). subst s.
    exists [d], ds, (Some (false, digits (Z.abs (n - 1)))).
    split.
    { unfold shape. destruct ds as [|d' ds']; reflexivity. }
    split; [right; exists d, []; repeat split; try lia; constructor|].
    split; [exact Hds|].
    split; [split; [apply digits_all_digits; lia|apply digits_nonempty; lia]|].
    left. split; [reflexivity|].
    cbn [exp_value]. rewrite value_of_digits_digits by lia.
    unfold len. cbn [List.length]. lia.
  - destruct (Z.ltb_spec 0 n) as [H0|H0];
      [destruct (Z.leb_spec n 21) as [H21|H21]|]; cbn [andb].
    + (* a point inside the digits *)
      exists (firstn (Z.to_nat n) s), (skipn (Z.to_nat n) s), None.
      assert (Hlen : List.length (firstn (Z.to_nat n) s) = Z.to_nat n)
        by (apply firstn_length_le; unfold len in Hkn; lia).
      assert (Hne : skipn (Z.to_nat n) s <> []).
      { intros E. apply (f_equal (@List.length Z)) in E.
        rewrite length_skipn in E. cbn in E. unfold len in Hkn. lia. }
      split.
      { unfold shape. cbn [exp_text app]. rewrite app_nil_r.
        destruct (skipn (Z.to_nat n) s); [congruence|reflexivity]. }
      split.
      { destruct Hs as (d & ds & -> & Hd & Hds). right.
        destruct (Z.to_nat n) as [|k] eqn:Ek; [lia|].
        cbn [firstn]. exists d, (firstn k ds).
        split; [reflexivity|]. split; [exact Hd|apply Forall_take, Hds]. }
      split; [apply Forall_drop, Hall|]. split; [exact I|]. left.
      rewrite firstn_skipn. split; [reflexivity|].
      cbn [exp_value]. unfold len. rewrite length_skipn. unfold len in Hkn. lia.
    + (* a point inside, but more than 21 digits before it: exponent *)
      destruct (Z.ltb_spec (-6) n); [|lia].
      destruct (Z.leb_spec n 0); [lia|]. cbn [andb].
      destruct (Z.ltb_spec (n - 1) 0); [lia|].
      pose proof Hs as (d & ds & E & Hd & Hds). subst s.
      exists [d], ds, (Some (false, digits (Z.abs (n - 1)))).
      split.
      { unfold shape. destruct ds as [|d' ds']; reflexivity. }
      split; [right; exists d, []; repeat split; try lia; constructor|].
      split; [exact Hds|].
      split; [split; [apply digits_all_digits; lia|apply digits_nonempty; lia]|].
      left. split; [reflexivity|].
      cbn [exp_value]. rewrite value_of_digits_digits by lia.
      unfold len. cbn [List.length]. lia.
    + destruct (Z.ltb_spec (-6) n) as [H6|H6]; cbn [andb].
      * (* zeros after the point *)
        destruct (Z.leb_spec n 0); [|lia]. cbn iota.
        exists [48], (zeros (- n) ++ s), None.
        split.
        { unfold shape. cbn [exp_text app frac_text]. rewrite app_nil_r.
          destruct Hs as (d & ds & -> & _).
          destruct (zeros (- n) ++ d :: ds) eqn:E;
            [destruct (zeros (- n)); discriminate|reflexivity]. }
        split; [left; reflexivity|].
        split; [apply Forall_app; split; [apply all_digits_zeros|exact Hall]|].
        split; [exact I|]. left.
        change ([48] ++ zeros (- n) ++ s) with (zeros 1 ++ zeros (- n) ++ s).
        rewrite !value_of_digits_app, !value_of_digits_zeros.
        split; [lia|]. cbn [exp_value]. rewrite len_app, len_zeros by lia. lia.
      * (* a small number: exponent *)
        pose proof Hs as (d & ds & E & Hd & Hds). subst s.
        exists [d], ds, (Some (n - 1 <? 0, digits (Z.abs (n - 1)))).
        split.
        { unfold shape. destruct (n - 1 <? 0); destruct ds as [|d' ds'];
            reflexivity. }
        split; [right; exists d, []; repeat split; try lia; constructor|].
        split; [exact Hds|].
        split; [split; [apply digits_all_digits; lia|apply digits_nonempty; lia]|].
        left. split; [reflexivity|].
        cbn [exp_value]. rewrite value_of_digits_digits by lia.
        destruct (Z.ltb_spec (n - 1) 0); unfold len; cbn [List.length]; lia.
Qed.

Lemma opp_mod_10 m : (- m) mod 10 = 0 -> m mod 10 = 0.
Proof. dlia. Qed.

Lemma mk_dec_canonical m e : (e <> 0)%nat -> m mod 10 <> 0 -> mk_dec m e = Frac m e.
Proof.
  intros He Hm. destruct e as [|e']; [congruence|].
  cbn [mk_dec]. destruct (Z.eqb_spec (m mod 10) 0); [contradiction|reflexivity].
Qed.

Lemma significand_mantissa n : 0 < n ->
  mantissa (significand n)
  /\ value_of_digits (significand n)
     * 10 ^ (len (digits n) - len (significand n)) = n
  /\ len (significand n) <= len (digits n).
Proof.
  intros Hn. destruct (significand_split n) as [j Hj].
  pose proof (digits_mantissa n Hn) as (d & ds & E & Hd & Hds).
  assert (Hv : value_of_digits (digits n) = n)
    by (apply value_of_digits_digits; lia).
  assert (Hlen : len (digits n) = len (significand n) + Z.of_nat j).
  { rewrite Hj at 1. rewrite len_app. unfold len. rewrite repeat_length. lia. }
  assert (Hall : all_digits (significand n)).
  { pose proof (digits_all_digits n ltac:(lia)) as H. rewrite Hj in H.
    apply Forall_app in H. tauto. }
  split; [|split; [|lia]].
  - destruct (significand n) as [|d0 s0] eqn:Es.
    + exfalso. cbn [app] in Hj. rewrite E in Hj.
      assert (Hin : In d (repeat 48 j)) by (rewrite <- Hj; left; reflexivity).
      apply repeat_spec in Hin. lia.
    + exists d0, s0. rewrite E in Hj. inversion Hj; subst d0.
      inversion Hall; subst. auto.
  - rewrite Hj in Hv at 1.
    change (repeat 48 j) with (repeat 48 (Z.to_nat (Z.of_nat j))) in Hv
      || replace j with (Z.to_nat (Z.of_nat j)) in Hv at 1 by lia.
    fold (zeros (Z.of_nat j)) in Hv.
    rewrite value_of_digits_app, value_of_digits_zeros, len_zeros in Hv by lia.
    rewrite Hlen. replace (len (significand n) + Z.of_nat j - len (significand n))
      with (Z.of_nat j) by lia. lia.
Qed.

(** The text of a positive number reads back as the number. *)
Lemma parse_positive (x : number) (neg : bool) rest :
  match x with
  | Int z => 0 < z
  | Frac m e => 0 < m /\ (e <> 0)%nat /\ m mod 10 <> 0
  | NaN => False
  end ->
  stops rest ->
  parse_number ((if neg then [45] else []) ++ Number_toString x ++ rest)
  = Some (match x with
          | Int z => Int (if neg then - z else z)
          | Frac m e => Frac (if neg then - m else m) e
          | NaN => NaN
          end, rest).
Proof.
  intros Hx Hrest. destruct x as [z|m e|]; [| |contradiction].
  - destruct z as [|p|p]; try lia.
    unfold Number_toString. cbn [Z.ltb Z.compare Z.abs app].
    destruct (significand_mantissa (Z.pos p) Hx) as (Hs & Hv & Hle).
    destruct (format_decimal_shape (significand (Z.pos p))
                (len (digits (Z.pos p))) Hs)
      as (ip & fp & x & -> & Hip & Hfp & Hxp & Hval).
    replace ((if neg then [45] else []) ++ shape false ip fp x ++ rest)
      with (shape neg ip fp x ++ rest)
      by (unfold shape; cbn [app]; rewrite <- !app_assoc; reflexivity).
    rewrite (parse_number_shape neg ip fp x rest Hip Hfp Hxp Hrest).
    f_equal. f_equal.
    destruct Hval as [[Ev Ee]|[Ev [Ee _]]]; rewrite Ev, Ee; unfold decimal.
    + destruct (Z.leb_spec 0 (len (digits (Z.pos p))
                              - len (significand (Z.pos p)))); [|lia].
      f_equal. destruct neg; [rewrite Z.mul_opp_l|]; rewrite Hv; reflexivity.
    + cbn [Z.leb Z.compare]. change (10 ^ 0) with 1. rewrite Z.mul_1_r.
      f_equal. destruct neg; rewrite Hv; reflexivity.
  - destruct Hx as (Hm & He & Hmod). destruct m as [|p|p]; try lia.
    unfold Number_toString. cbn [Z.ltb Z.compare Z.abs app].
    pose proof (digits_mantissa (Z.pos p) Hm) as Hs.
    destruct (format_decimal_shape (digits (Z.pos p))
                (len (digits (Z.pos p)) - Z.of_nat e) Hs)
      as (ip & fp & x & -> & Hip & Hfp & Hxp & Hval).
    replace ((if neg then [45] else []) ++ shape false ip fp x ++ rest)
      with (shape neg ip fp x ++ rest)
      by (unfold shape; cbn [app]; rewrite <- !app_assoc; reflexivity).
    rewrite (parse_number_shape neg ip fp x rest Hip Hfp Hxp Hrest).
    f_equal. f_equal.
    destruct Hval as [[Ev Ee]|[_ [_ Hle]]]; [|lia].
    rewrite Ev, Ee, value_of_digits_digits by lia. unfold decimal.
    destruct (Z.leb_spec 0 (len (digits (Z.pos p)) - Z.of_nat e
                            - len (digits (Z.pos p)))); [lia|].
    replace (Z.to_nat (- (len (digits (Z.pos p)) - Z.of_nat e
                          - len (digits (Z.pos p))))) with e by lia.
    apply mk_dec_canonical; [exact He|].
    destruct neg; [|exact Hmod].
    intros Hopp. apply Hmod. apply opp_mod_10. exact Hopp.
Qed.

(** [JSON.parse] reads back what [Number::toString] printed. *)
Lemma parse_number_toString n rest : number_ok n -> stops rest ->
  parse_number (Number_toString n ++ rest) = Some (n, rest).
Proof.
  intros Hn Hrest. destruct n as [z|m e|]; [| |contradiction].
  - destruct (Z.lt_trichotomy z 0) as [Hz|[->|Hz]].
    + pose proof (parse_positive (Int (- z)) true rest ltac:(cbn; lia) Hrest) as H.
      cbv beta iota in H. rewrite Z.opp_involutive in H. rewrite <- H. f_equal.
      destruct z as [|p|p]; try lia. reflexivity.
    + apply (parse_number_shape false [48] [] None rest);
        [left; reflexivity|constructor|exact I|exact Hrest].
    + exact (parse_positive (Int z) false rest Hz Hrest).
  - destruct Hn as [He Hmod].
    assert (Hm0 : m <> 0) by (intros ->; apply Hmod; reflexivity).
    destruct (Z.lt_trichotomy m 0) as [Hm|[Hm|Hm]]; [|contradiction|].
    + assert (Hmod' : (- m) mod 10 <> 0).
      { intros Hopp. apply Hmod. apply opp_mod_10. exact Hopp. }
      pose proof (parse_positive (Frac (- m) e) true rest
                    ltac:(cbn; repeat split; try lia; assumption) Hrest) as H.
      cbv beta iota in H. rewrite Z.opp_involutive in H. rewrite <- H. f_equal.
      destruct m as [|p|p]; try lia. reflexivity.
    + exact (parse_positive (Frac m e) false rest
               ltac:(repeat split; assumption) Hrest).
Qed.

End JSONNumber.

(** ** JSON values *)

Module JSONValue.
Import JSON Encoding Digits CBCFacts UTF8 JSONText JSONNumber.

(** *** How a text begins *)

(** The first character of the text of a value: printable ASCII that is
    neither white space nor a closing bracket. *)
Definition opens (s : jsstring) : Prop :=
  exists c r, s = c :: r /\ is_ws c = false /\ c <> 93 /\ c <> 125 /\ is_ascii c.

Lemma opens_cons c r :
  is_ws c = false -> c <> 93 -> c <> 125 -> is_ascii c -> opens (c :: r).
Proof. intros. exists c, r. auto. Qed.

(** The side conditions of [opens_cons] when the character is known. *)
Ltac known_char :=
  first [ reflexivity
        | vm_compute; discriminate
        | vm_compute; split; [discriminate|reflexivity] ].

Lemma digit_opens c r : is_digit c = true -> opens (c :: r).
Proof.
  intros H. unfold is_digit in H.
  apply opens_cons; unfold is_ws, is_ascii; lia.
Qed.

Lemma Number_toString_head n : number_ok n ->
  exists c r, Number_toString n = c :: r /\ (c = 45 \/ is_digit c = true).
Proof.
  intros Hn.
  assert (Hfmt : forall s k, mantissa s ->
            exists c r, format_decimal s k = c :: r /\ is_digit c = true).
  { intros s k Hs.
    destruct (format_decimal_shape s k Hs) as (ip & fp & x & -> & Hip & _).
    unfold shape. cbn [app].
    destruct Hip as [->|(d & ip' & -> & Hd & _)].
    - eexists. eexists. split; [reflexivity|reflexivity].
    - eexists. eexists. split; [reflexivity|unfold is_digit; lia]. }
  destruct n as [z|m e|]; [| |contradiction].
  - destruct z as [|p|p].
    + eexists. eexists. split; [reflexivity|right; reflexivity].
    + unfold Number_toString. cbn [Z.ltb Z.compare Z.abs app].
      destruct (Hfmt (significand (Z.pos p)) (len (digits (Z.pos p))))
        as (c & r & -> & Hc);
        [apply (significand_mantissa (Z.pos p)); lia|].
      eexists. eexists. split; [reflexivity|right; exact Hc].
    + eexists. eexists. split; [reflexivity|left; reflexivity].
  - destruct Hn as [He Hmod].
    assert (Hm0 : m <> 0) by (intros ->; apply Hmod; reflexivity).
    destruct m as [|p|p]; [contradiction| |].
    + unfold Number_toString. cbn [Z.ltb Z.compare Z.abs app].
      destruct (Hfmt (digits (Z.pos p)) (len (digits (Z.pos p)) - Z.of_nat e))
        as (c & r & -> & Hc); [apply digits_mantissa; lia|].
      eexists. eexists. split; [reflexivity|right; exact Hc].
    + eexists. eexists. split; [reflexivity|left; reflexivity].
Qed.

Lemma text_opens v : serializable v -> opens (text v).
Proof.
  intros H. destruct H as [|b|n Hn|s Hs|l Hl|l Hd Hl].
  - apply opens_cons; known_char.
  - destruct b; apply opens_cons; known_char.
  - destruct (Number_toString_head n Hn) as (c & r & E & Hc).
    assert (Ht : text (VNum n) = c :: r)
      by (destruct n; [exact E|exact E|contradiction]).
    rewrite Ht. destruct Hc as [->|Hc];
      [apply opens_cons; known_char|apply digit_opens, Hc].
  - apply opens_cons; known_char.
  - apply opens_cons; known_char.
  - apply opens_cons; known_char.
Qed.

Lemma join_comma_opens p parts : opens p -> opens (join_comma (p :: parts)).
Proof.
  intros (c & r & -> & Hc). cbn [join_comma].
  destruct parts as [|q parts'];
    [exists c, r|exists c, (r ++ 44 :: join_comma (q :: parts'))];
    (split; [reflexivity|exact Hc]).
Qed.

Lemma QuoteJSONString_opens k tail : opens (QuoteJSONString k ++ tail).
Proof. unfold QuoteJSONString. cbn [app]. apply opens_cons; known_char. Qed.

Lemma skip_ws_opens s rest : opens s -> skip_ws (s ++ rest) = s ++ rest.
Proof.
  intros (c & r & -> & Hc & _). cbn [app skip_ws]. rewrite Hc. reflexivity.
Qed.

(** *** Unfolding the parser *)

Lemma parse_value_S fuel s :
  parse_value (S fuel) s
  = match skip_ws s with
    | [] => None
    | c :: rest =>
        if c =? 34 then
          match parse_string rest with
          | Some (str, r) => Some (VStr str, r)
          | None => None
          end
        else if c =? 91 then
          match skip_ws rest with
          | d :: r =>
              if d =? 93 then Some (VArr [], r)
              else match parse_elements fuel rest with
                   | Some (l, r') => Some (VArr l, r')
                   | None => None
                   end
          | [] => None
          end
        else if c =? 123 then
          match skip_ws rest with
          | d :: r =>
              if d =? 125 then Some (VObj [], r)
              else match parse_members fuel [] rest with
                   | Some (l, r') => Some (VObj l, r')
                   | None => None
                   end
          | [] => None
          end
        else
          match strip_prefix (lit "null") (c :: rest),
                strip_prefix (lit "true") (c :: rest),
                strip_prefix (lit "false") (c :: rest) with
          | Some r, _, _ => Some (VNull, r)
          | _, Some r, _ => Some (VBool true, r)
          | _, _, Some r => Some (VBool false, r)
          | None, None, None =>
              match parse_number (c :: rest) with
              | Some (n, r) => Some (VNum n, r)
              | None => None
              end
          end
    end.
Proof. reflexivity. Qed.

Lemma parse_elements_S fuel s :
  parse_elements (S fuel) s
  = match parse_value fuel s with
    | Some (v, rest) =>
        match skip_ws rest with
        | c :: r =>
            if c =? 44 then
              match parse_elements fuel r with
              | Some (l, r') => Some (v :: l, r')
              | None => None
              end
            else if c =? 93 then Some ([v], r)
            else None
        | [] => None
        end
    | None => None
    end.
Proof. reflexivity. Qed.

Lemma parse_members_S fuel acc s :
  parse_members (S fuel) acc s
  = match skip_ws s with
    | c :: rest =>
        if c =? 34 then
          match parse_string rest with
          | Some (k, rest1) =>
              match skip_ws rest1 with
              | d :: rest2 =>
                  if d =? 58 then
                    match parse_value fuel rest2 with
                    | Some (v, rest3) =>
                        match skip_ws rest3 with
                        | g :: rest4 =>
                            if g =? 44 then
                              parse_members fuel (define_key k v acc) rest4
                            else if g =? 125 then
                              Some (define_key k v acc, rest4)
                            else None
                        | [] => None
                        end
                    | None => None
                    end
                  else None
              | [] => None
              end
          | None => None
          end
        else None
    | [] => None
    end.
Proof. reflexivity. Qed.

(** *** Elements and members *)

(** The claim of the round trip for one value, at every fuel above the
    length of its text. *)
Definition reads_back (v : value) : Prop :=
  forall fuel rest,
    (List.length (text v) < fuel)%nat -> stops rest ->
    parse_value fuel (text v ++ rest) = Some (v, rest).

Lemma stops_comma r : stops (44 :: r).
Proof. cbn. repeat split; lia. Qed.

Lemma stops_bracket r : stops (93 :: r).
Proof. cbn. repeat split; lia. Qed.

Lemma stops_brace r : stops (125 :: r).
Proof. cbn. repeat split; lia. Qed.

Lemma text_nonempty v : serializable v -> (1 <= List.length (text v))%nat.
Proof.
  intros H. destruct (text_opens v H) as (c & r & -> & _). cbn. lia.
Qed.

Lemma parse_elements_text l :
  Forall reads_back l -> Forall serializable l -> l <> [] ->
  forall fuel rest,
    (S (List.length (join_comma (map text l))) < fuel)%nat ->
    parse_elements fuel (join_comma (map text l) ++ 93 :: rest) = Some (l, rest).
Proof.
  induction 1 as [|x l Hx Hl IH]; intros Hs Hne fuel rest Hfuel; [congruence|].
  inversion Hs as [|? ? Hsx Hsl]; subst.
  destruct fuel as [|fuel]; [lia|]. rewrite parse_elements_S.
  destruct l as [|y l'].
  - cbn [map join_comma] in *.
    rewrite (Hx fuel (93 :: rest)) by (try lia; apply stops_bracket).
    reflexivity.
  - change (join_comma (map text (x :: y :: l')))
      with (text x ++ 44 :: join_comma (map text (y :: l'))) in *.
    rewrite length_app in Hfuel. cbn [List.length] in Hfuel.
    rewrite <- app_assoc. cbn [app].
    rewrite (Hx fuel) by (try lia; apply stops_comma).
    cbn [skip_ws is_ws Z.eqb Pos.eqb orb].
    change (44 =? 44) with true. cbn iota.
    pose proof (text_nonempty x Hsx).
    rewrite (IH Hsl ltac:(discriminate) fuel rest) by lia.
    reflexivity.
Qed.

Lemma define_key_fresh k v acc :
  ~ In k (map fst acc) -> define_key k v acc = acc ++ [(k, v)].
Proof.
  induction acc as [|[k' v'] acc IH]; intros Hk; [reflexivity|].
  cbn [define_key map fst In] in *.
  destruct (str_eqb k k') eqn:E.
  - apply str_eqb_eq in E. subst. tauto.
  - rewrite IH by tauto. reflexivity.
Qed.

Definition member_text (kv : jsstring * value) : jsstring :=
  QuoteJSONString (fst kv) ++ 58 :: text (snd kv).

Lemma parse_members_text l :
  Forall (fun kv => reads_back (snd kv)) l ->
  Forall (fun kv => jsstring_ok (fst kv) /\ serializable (snd kv)) l ->
  l <> [] ->
  forall fuel acc rest,
    NoDup (map fst (acc ++ l)) ->
    (List.length (join_comma (map member_text l)) < fuel)%nat ->
    parse_members fuel acc (join_comma (map member_text l) ++ 125 :: rest)
    = Some (acc ++ l, rest).
Proof.
  induction 1 as [|[k x] l Hx Hl IH]; intros Hs Hne fuel acc rest Hd Hfuel;
    [congruence|].
  inversion Hs as [|? ? [Hk Hsx] Hsl]; subst. cbn [fst snd] in *.
  destruct fuel as [|fuel]; [lia|]. rewrite parse_members_S.
  assert (Hfresh : ~ In k (map fst acc)).
  { rewrite map_app in Hd. cbn [map fst] in Hd.
    apply NoDup_remove_2 in Hd. intros Hin. apply Hd.
    apply in_or_app. left. exact Hin. }
  assert (Hmem : forall tail,
            member_text (k, x) ++ tail
            = 34 :: quote_body k ++ 34 :: 58 :: text x ++ tail).
  { intros tail. unfold member_text, QuoteJSONString. cbn [fst snd app].
    rewrite <- !app_assoc. reflexivity. }
  pose proof (text_nonempty x Hsx) as Hx1.
  assert (Hlen : (List.length (text x) < List.length (member_text (k, x)))%nat).
  { unfold member_text. rewrite length_app. cbn [List.length snd]. lia. }
  destruct l as [|kv l'].
  - cbn [map join_comma] in *. rewrite Hmem.
    cbn [skip_ws is_ws Z.eqb Pos.eqb orb]. change (34 =? 34) with true. cbn iota.
    rewrite (parse_string_quote_body k _ Hk).
    cbn [skip_ws is_ws Z.eqb Pos.eqb orb]. change (58 =? 58) with true. cbn iota.
    rewrite (Hx fuel (125 :: rest)) by (try lia; apply stops_brace).
    cbn [skip_ws is_ws Z.eqb Pos.eqb orb].
    change (125 =? 44) with false. change (125 =? 125) with true. cbn iota.
    rewrite define_key_fresh by exact Hfresh. reflexivity.
  - change (join_comma (map member_text ((k, x) :: kv :: l')))
      with (member_text (k, x) ++ 44 :: join_comma (map member_text (kv :: l')))
      in *.
    rewrite length_app in Hfuel. cbn [List.length] in Hfuel.
    rewrite <- app_assoc. rewrite Hmem.
    cbn [skip_ws is_ws Z.eqb Pos.eqb orb]. change (34 =? 34) with true. cbn iota.
    rewrite (parse_string_quote_body k _ Hk).
    cbn [skip_ws is_ws Z.eqb Pos.eqb orb]. change (58 =? 58) with true. cbn iota.
    cbn [app].
    rewrite (Hx fuel) by (try lia; apply stops_comma).
    cbn [skip_ws is_ws Z.eqb Pos.eqb orb]. change (44 =? 44) with true. cbn iota.
    rewrite define_key_fresh by exact Hfresh.
    rewrite (IH Hsl ltac:(discriminate) fuel (acc ++ [(k, x)]) rest).
    + rewrite <- app_assoc. reflexivity.
    + rewrite <- app_assoc. exact Hd.
    + lia.
Qed.

(** *** The round trip *)

Lemma parse_value_text v : serializable v -> reads_back v.
Proof.
  induction v as [| | b | n | z | s | l IH | l IH] using value_induction;
    intros H; inversion H; subst; intros fuel rest Hfuel Hrest;
    (destruct fuel as [|fuel]; [lia|]); rewrite parse_value_S.
  - reflexivity.
  - destruct b; reflexivity.
  - destruct (Number_toString_head n ltac:(assumption)) as (c & r & E & Hc).
    assert (Ht : text (VNum n) = Number_toString n)
      by (destruct n; [reflexivity|reflexivity|contradiction]).
    rewrite Ht in *.
    pose proof (parse_number_toString n rest ltac:(assumption) Hrest) as Hp.
    rewrite E in *. cbn [app] in *.
    assert (Hws : is_ws c = false)
      by (destruct Hc as [->|Hc]; [reflexivity|unfold is_digit, is_ws in *; lia]).
    cbn [skip_ws]. rewrite Hws.
    assert (Hd : c = 45 \/ 48 <= c <= 57)
      by (destruct Hc as [->|Hc]; [left; reflexivity|unfold is_digit in Hc; lia]).
    destruct (Z.eqb_spec c 34); [lia|]. destruct (Z.eqb_spec c 91); [lia|].
    destruct (Z.eqb_spec c 123); [lia|].
    cbn [strip_prefix lit list_ascii_of_string map].
    change (Z.of_nat (nat_of_ascii "n")) with 110.
    change (Z.of_nat (nat_of_ascii "t")) with 116.
    change (Z.of_nat (nat_of_ascii "f")) with 102.
    destruct (Z.eqb_spec 110 c); [lia|]. destruct (Z.eqb_spec 116 c); [lia|].
    destruct (Z.eqb_spec 102 c); [lia|].
    rewrite Hp. reflexivity.
  - cbn [text]. unfold QuoteJSONString. cbn [app skip_ws is_ws Z.eqb Pos.eqb orb].
    change (34 =? 34) with true. cbn iota.
    rewrite <- app_assoc. cbn [app].
    rewrite parse_string_quote_body by assumption. reflexivity.
  - cbn [text] in *. cbn [app skip_ws is_ws Z.eqb Pos.eqb orb].
    change (91 =? 34) with false. change (91 =? 91) with true. cbn iota.
    rewrite <- app_assoc. cbn [app].
    destruct l as [|x l'].
    + cbn [map join_comma app skip_ws is_ws Z.eqb Pos.eqb orb]. reflexivity.
    + assert (Hopen : opens (join_comma (map text (x :: l')))).
      { match goal with Hs : Forall serializable (x :: l') |- _ =>
          inversion Hs as [|? ? Hsx _]; subst end.
        cbn [map]. apply join_comma_opens, text_opens, Hsx. }
      rewrite (skip_ws_opens _ _ Hopen).
      destruct Hopen as (c & r & E & _ & Hc93 & _).
      rewrite E at 1. cbn [app].
      destruct (Z.eqb_spec c 93); [contradiction|].
      cbn [List.length] in Hfuel. rewrite length_app in Hfuel.
      cbn [List.length] in Hfuel.
      rewrite parse_elements_text; try assumption; try discriminate; try lia.
      * reflexivity.
      * clear - IH H1.
        match goal with Hs : Forall serializable _ |- _ => revert Hs end.
        induction IH as [|y l Hy Hl IHl]; intros Hs; [constructor|].
        inversion Hs; subst. constructor; auto.
  - cbn [text] in *. cbn [app skip_ws is_ws Z.eqb Pos.eqb orb].
    change (123 =? 34) with false. change (123 =? 91) with false.
    change (123 =? 123) with true. cbn iota.
    rewrite <- app_assoc. cbn [app].
    fold member_text in *.
    destruct l as [|[k x] l'].
    + cbn [map join_comma app skip_ws is_ws Z.eqb Pos.eqb orb]. reflexivity.
    + assert (Hopen : opens (join_comma (map member_text ((k, x) :: l')))).
      { cbn [map]. apply join_comma_opens. unfold member_text.
        apply QuoteJSONString_opens. }
      rewrite (skip_ws_opens _ _ Hopen).
      destruct Hopen as (c & r & E & _ & _ & Hc125 & _).
      rewrite E at 1. cbn [app].
      destruct (Z.eqb_spec c 125); [contradiction|].
      cbn [List.length] in Hfuel. rewrite length_app in Hfuel.
      cbn [List.length] in Hfuel.
      rewrite (parse_members_text ((k, x) :: l')); try assumption;
        try discriminate.
      * reflexivity.
      * match goal with
        | Hs : Forall (fun kv => jsstring_ok (fst kv) /\ serializable (snd kv)) _
          |- _ => revert Hs
        end.
        clear - IH.
        induction IH as [|y l Hy Hl IHl]; intros Hs; [constructor|].
        inversion Hs as [|? ? [_ Hsy] Hsl]; subst. constructor; auto.
      * clear - Hfuel. unfold jsstring, code_unit in *. lia.
Qed.

(** [JSON.parse] reads back what [JSON.stringify] wrote. *)
Lemma parse_stringify v : serializable v ->
  stringify v = Ok (VStr (text v)) /\ parse (text v) = Ok v.
Proof.
  intros H. split; [apply stringify_text, H|].
  unfold parse.
  pose proof (parse_value_text v H (S (List.length (text v))) []
                ltac:(lia) I) as E.
  rewrite app_nil_r in E. rewrite E. reflexivity.
Qed.

End JSONValue.

(** ** The payload envelope (claim C6) *)

Module Envelope.
Import DateFacts DateSeq KeyFacts.

(** The number of bytes of the ciphertext of [v]: the UTF-8 bytes of its
    JSON text, padded to whole blocks. *)
Definition sealed_length (v : value) : Z :=
  16 * (Z.of_nat (List.length (Encoding.encode (JSONText.text v))) / 16 + 1).

(** The ciphertext of a serializable value under the key of a day. *)
Lemma ciphertext lt v : JSONText.serializable v ->
  exists c,
    WebCrypto.encrypt IV (WebCrypto.mkKey (key_text lt))
                      (Encoding.encode (JSONText.text v)) = Ok c
    /\ bytes_ok c
    /\ Z.of_nat (List.length c) = sealed_length v.
Proof.
  intros Hv.
  assert (Hbytes : bytes_ok (Encoding.encode (JSONText.text v)))
    by (apply UTF8.encode_ok, UTF8.well_formed_ok, JSONText.text_well_formed, Hv).
  destruct (decrypt_encrypt_key lt _ Hbytes) as (c & Henc & _ & Hc).
  exists c. split; [exact Henc|]. split; [exact Hc|].
  exact (WebCrypto_encrypt_length _ _ _ Henc).
Qed.

Lemma serialize_payload_eq tz more v w : JSONText.serializable v ->
  exists c,
    WebCrypto.encrypt IV (WebCrypto.mkKey (key_text (local_now tz w)))
                      (Encoding.encode (JSONText.text v)) = Ok c
    /\ bytes_ok c
    /\ Z.of_nat (List.length c) = sealed_length v
    /\ serialize_payload tz more v w = (base64Encode more c, tick w).
Proof.
  intros Hv. destruct (ciphertext (local_now tz w) v Hv) as (c & Henc & Hc & Hl).
  exists c. repeat (split; [assumption|]).
  unfold serialize_payload, bind, lift. rewrite (JSONText.stringify_text v Hv).
  cbn [TextEncoder_encode ToString]. rewrite encrypt_eq, Henc.
  destruct (base64Encode more c); reflexivity.
Qed.

(** Sealing a serializable value whose ciphertext [base64Encode] accepts:
    the ciphertext of its JSON text under the key of the clock's reading. *)
Lemma seal tz more v w : JSONText.serializable v ->
  sealed_length v <= max_arguments more ->
  exists c,
    WebCrypto.encrypt IV (WebCrypto.mkKey (key_text (local_now tz w)))
                      (Encoding.encode (JSONText.text v)) = Ok c
    /\ bytes_ok c
    /\ serialize_payload tz more v w = (Ok (Base64.b64_encode c), tick w).
Proof.
  intros Hv Hn.
  destruct (serialize_payload_eq tz more v w Hv) as (c & Henc & Hc & Hl & E).
  exists c. split; [exact Henc|]. split; [exact Hc|].
  rewrite E, (Base64Facts.base64Encode_bytes more c Hc); [reflexivity|lia].
Qed.

(** Sealing one whose ciphertext is too long for [apply]. *)
Lemma seal_too_large tz more v w : JSONText.serializable v ->
  max_arguments more < sealed_length v ->
  serialize_payload tz more v w = (Throw RangeError, tick w).
Proof.
  intros Hv Hn.
  destruct (serialize_payload_eq tz more v w Hv) as (c & Henc & Hc & Hl & E).
  rewrite E, (Base64Facts.base64Encode_large more c); [reflexivity|lia].
Qed.

(** Opening, on the day of the sealing, what [seal] describes. *)
Lemma open tz v lt c w2 : JSONText.serializable v ->
  WebCrypto.encrypt IV (WebCrypto.mkKey (key_text lt))
                    (Encoding.encode (JSONText.text v)) = Ok c ->
  bytes_ok c ->
  same_day lt (local_now tz w2) ->
  deserialize_payload tz (VStr (Base64.b64_encode c)) w2 = (Ok v, tick w2).
Proof.
  intros Hv Henc Hc Hday.
  destruct (JSONValue.parse_stringify v Hv) as [_ Hparse].
  pose proof (JSONText.text_well_formed v Hv) as Hwf.
  assert (Hbytes : bytes_ok (Encoding.encode (JSONText.text v)))
    by (apply UTF8.encode_ok, UTF8.well_formed_ok, Hwf).
  destruct (decrypt_encrypt_key lt _ Hbytes) as (c' & Henc' & Hdec & _).
  rewrite Henc in Henc'. inversion Henc'; subst c'.
  unfold deserialize_payload, bind, lift, base64Decode. cbn [ToString].
  rewrite (Base64Facts.atob_b64_encode _ Hc), decrypt_eq.
  rewrite <- (key_text_day _ _ Hday), Hdec.
  rewrite UTF8.decode_encode, Hparse; [reflexivity|exact Hwf|].
  destruct (JSONValue.text_opens v Hv) as (ch & r & -> & _ & _ & _ & Hch).
  cbn [hd]. unfold Digits.is_ascii in Hch. lia.
Qed.

(** A string of [n] letters [a]: its ciphertext has more than [n] bytes. *)
Lemma quote_body_letters n : JSON.quote_body (repeat 97 n) = repeat 97 n.
Proof.
  induction n as [|n IH]; [reflexivity|].
  change (repeat 97 (S n)) with (97 :: repeat 97 n).
  change (JSON.quote_body (97 :: repeat 97 n))
    with (97 :: JSON.quote_body (repeat 97 n)).
  rewrite IH. reflexivity.
Qed.

Lemma letters_serializable n : JSONText.serializable (VStr (repeat 97 n)).
Proof.
  apply JSONText.ser_str. apply Forall_forall. intros c Hc.
  apply repeat_spec in Hc. subst c. unfold code_unit_ok. lia.
Qed.

Lemma letters_sealed_length n :
  Z.of_nat n < sealed_length (VStr (repeat 97 n)).
Proof.
  unfold sealed_length. cbn [JSONText.text]. unfold JSON.QuoteJSONString.
  rewrite quote_body_letters.
  rewrite encode_ascii.
  - cbn [List.length]. rewrite length_app, repeat_length. cbn [List.length].
    rewrite Nat2Z.inj_succ, Nat2Z.inj_add. change (Z.of_nat 1) with 1. dlia.
  - constructor; [unfold Digits.is_ascii; lia|].
    apply Forall_app. split.
    + apply Forall_forall. intros c Hc. apply repeat_spec in Hc. subst c.
      unfold Digits.is_ascii. lia.
    + repeat constructor; unfold Digits.is_ascii; lia.
Qed.

(** Whatever the engine's limit, the string of that many letters [a] is
    too long to seal. *)
Lemma too_large_for_every_limit tz more w :
  serialize_payload tz more (VStr (repeat 97 (Z.to_nat (max_arguments more)))) w
  = (Throw RangeError, tick w).
Proof.
  apply seal_too_large; [apply letters_serializable|].
  pose proof (letters_sealed_length (Z.to_nat (max_arguments more))) as H.
  rewrite Z2Nat.id in H; [exact H|]. unfold max_arguments. lia.
Qed.

End Envelope.

(** C6, within the reach of [base64Encode].  A JSON-serializable value
    sealed by [serialize_payload] at one reading of the clock and opened by
    [deserialize_payload] at a reading of the same local calendar day comes
    back as the same value, provided its ciphertext has no more bytes than
    the engine passes on as arguments; when it has more, [serialize_payload]
    throws [RangeError]. *)
Theorem deserialize_serialize_same_day (tz : Z -> Z) (more : nat) (v : value)
    (w1 w2 : World) :
  JSONText.serializable v ->
  DateFacts.same_day (DateSeq.local_now tz w1) (DateSeq.local_now tz w2) ->
  (Envelope.sealed_length v <= max_arguments more ->
   exists envelope,
     serialize_payload tz more v w1 = (Ok envelope, DateSeq.tick w1) /\
     deserialize_payload tz (VStr envelope) w2 = (Ok v, DateSeq.tick w2))
  /\ (max_arguments more < Envelope.sealed_length v ->
      serialize_payload tz more v w1 = (Throw RangeError, DateSeq.tick w1)).
Proof.
  intros Hv Hday. split.
  - intros Hn.
    destruct (Envelope.seal tz more v w1 Hv Hn) as (c & Henc & Hc & E).
    exists (Base64.b64_encode c). split; [exact E|].
    exact (Envelope.open tz v _ c w2 Hv Henc Hc Hday).
  - intros Hn. exact (Envelope.seal_too_large tz more v w1 Hv Hn).
Qed.

(** A payload with every kind of JSON value in it. *)
Definition sample_payload : value :=
  VObj [(lit "username", VStr (lit "21103001"));
        (lit "usertype", VStr (lit "S"));
        (lit "captcha", DEFCAPTCHA);
        (lit "marks", VArr [VNum (Int 42); VNum (Frac (-125) 1); VNull;
                            VBool true; VStr [0x48; 0xE9; 0x20AC; 0xD83D; 0xDE00]])].

Lemma sample_payload_serializable : JSONText.serializable sample_payload.
Proof.
  assert (Hstr : forall s, Digits.ascii_string s -> jsstring_ok s).
  { intros s. apply Forall_impl. unfold Digits.is_ascii, code_unit_ok. lia. }
  assert (Hlit : forall s, forallb Digits.is_asciib s = true -> jsstring_ok s)
    by (intros s H; apply Hstr, Digits.ascii_check, H).
  unfold sample_payload, DEFCAPTCHA.
  repeat first
    [ apply JSONText.ser_obj | apply JSONText.ser_arr | apply JSONText.ser_str
    | apply JSONText.ser_num | apply JSONText.ser_null | apply JSONText.ser_bool
    | apply Forall_cons | apply Forall_nil | apply NoDup_cons | apply NoDup_nil
    | split
    | (apply Hlit; reflexivity)
    | (cbn; intuition discriminate)
    | (cbn; lia)
    | (apply Forall_forall; intros c Hc; cbn in Hc; unfold code_unit_ok; lia) ].
Qed.

(** C6, witness: [sample_payload], sealed and opened in [world0]. *)
Lemma deserialize_serialize_same_day_witness :
  (Envelope.sealed_length sample_payload <= max_arguments 0 ->
   exists envelope,
     serialize_payload IST 0 sample_payload world0
     = (Ok envelope, DateSeq.tick world0) /\
     deserialize_payload IST (VStr envelope) (DateSeq.tick world0)
     = (Ok sample_payload, DateSeq.tick (DateSeq.tick world0)))
  /\ (max_arguments 0 < Envelope.sealed_length sample_payload ->
      serialize_payload IST 0 sample_payload world0
      = (Throw RangeError, DateSeq.tick world0)).
Proof.
  apply (deserialize_serialize_same_day IST 0 sample_payload world0
           (DateSeq.tick world0) sample_payload_serializable).
  reflexivity.
Defined.

(** C6 as stated fails: with an engine that passes on 125536 arguments,
    about what node does, the string of 200000 letters [a] is serializable
    and [serialize_payload] throws [RangeError] on it. *)
Lemma serialize_payload_too_large :
  let v := VStr (repeat 97 (Z.to_nat 200000)) in
  max_arguments (Z.to_nat 60000) = 125536
  /\ JSONText.serializable v
  /\ serialize_payload IST (Z.to_nat 60000) v world0
     = (Throw RangeError, DateSeq.tick world0).
Proof.
  intros v.
  assert (E : max_arguments (Z.to_nat 60000) = 125536)
    by (unfold max_arguments; rewrite Z2Nat.id; lia).
  split; [exact E|]. split; [apply Envelope.letters_serializable|].
  apply Envelope.seal_too_large; [apply Envelope.letters_serializable|].
  pose proof (Envelope.letters_sealed_length (Z.to_nat 200000)) as H.
  rewrite Z2Nat.id in H by lia. rewrite E. subst v. lia.
Qed.

(** What lies outside the serializable values does not come back:
    [undefined] is sealed as the empty text, which does not parse; a
    property holding [undefined] is dropped; NaN comes back as [null]. *)
Example not_serializable_not_restored :
  (exists envelope,
     fst (serialize_payload IST 0 VUndefined world0) = Ok envelope
     /\ fst (deserialize_payload IST (VStr envelope) world0) = Throw SyntaxError)
  /\ (exists envelope,
        fst (serialize_payload IST 0 (VObj [(lit "a", VUndefined)]) world0)
        = Ok envelope
        /\ fst (deserialize_payload IST (VStr envelope) world0) = Ok (VObj []))
  /\ (exists envelope,
        fst (serialize_payload IST 0 (VNum NaN) world0) = Ok envelope
        /\ fst (deserialize_payload IST (VStr envelope) world0) = Ok VNull).
Proof.
  repeat split; eexists; (split; [vm_compute; reflexivity|]);
    vm_compute; reflexivity.
Qed.

(* ===================================================================== *)
(** * Part V. Further properties of the program                           *)
(* ===================================================================== *)

(** ** [base64Encode] and [base64Decode] *)

Module CodecFacts.
Import Base64 Base64Facts.

(** The 64 characters of the base64 alphabet: letters, digits, [+], [/]. *)
Definition is_base64_char (c : Z) : bool :=
  ((65 <=? c) && (c <=? 90)) || ((97 <=? c) && (c <=? 122))
  || ((48 <=? c) && (c <=? 57)) || (c =? 43) || (c =? 47).

Lemma b64_char_alphabet i : sextet_ok i -> is_base64_char (b64_char i) = true.
Proof.
  unfold sextet_ok. intros H.
  apply (range_cases (fun i => is_base64_char (b64_char i)) 0 64);
    [vm_compute; reflexivity | lia].
Qed.

Lemma b64_val_alphabet c :
  is_base64_char c = false -> b64_val c = None.
Proof.
  unfold is_base64_char, b64_val. intros H.
  repeat match goal with
         | |- context [if ?b then _ else _] => destruct b eqn:?
         end; try reflexivity; cbn in H; try discriminate; lia.
Qed.

Lemma b64_val_range c v : b64_val c = Some v -> sextet_ok v.
Proof.
  unfold b64_val, sextet_ok.
  repeat match goal with
         | |- context [if ?b then _ else _] => destruct b eqn:?
         end; intros H; inversion H; subst; lia.
Qed.

Lemma values_of_range d : forall vs, values_of d = Some vs -> Forall sextet_ok vs.
Proof.
  induction d as [|c d IH]; cbn [values_of]; intros vs H.
  - inversion H. constructor.
  - destruct (b64_val c) as [v|] eqn:Hc; [|discriminate].
    destruct (values_of d) as [vs'|]; [|discriminate].
    inversion H; subst. constructor; [exact (b64_val_range _ _ Hc)|].
    apply IH. reflexivity.
Qed.

Lemma b64_decode_ok : forall vs, Forall sextet_ok vs -> bytes_ok (b64_decode vs).
Proof.
  apply (CBCFacts.length_ind (fun vs => Forall sextet_ok vs -> bytes_ok (b64_decode vs))).
  intros vs IH H. unfold bytes_ok, byte_ok, sextet_ok in *.
  destruct vs as [|a [|b [|c [|d rest]]]]; cbn [b64_decode];
    repeat match goal with
           | H : Forall _ (_ :: _) |- _ => inversion H; clear H; subst
           end;
    repeat constructor; try dlia.
  apply IH; [cbn [List.length]; lia | assumption].
Qed.

Lemma b64_encode_len : forall l,
  Z.of_nat (List.length (b64_encode l)) = 4 * ((Z.of_nat (List.length l) + 2) / 3).
Proof.
  apply CBCFacts.length_ind. intros l IH.
  destruct l as [|a [|b [|c rest]]]; cbn [b64_encode]; try reflexivity.
  cbn [List.length]. rewrite !Nat2Z.inj_succ.
  rewrite (IH rest) by (cbn [List.length]; lia). dlia.
Qed.

Lemma b64_encode_chars l : bytes_ok l ->
  Forall (fun c => is_base64_char c = true \/ c = 61) (b64_encode l).
Proof.
  intros H. rewrite b64_encode_sextets. apply Forall_app. split.
  - apply Forall_map. eapply Forall_impl; [|exact (sextets_ok l H)].
    intros i Hi. left. apply b64_char_alphabet, Hi.
  - destruct (padding_cases l) as [-> | [-> | ->]];
      repeat (apply Forall_cons; [right; reflexivity|]); apply Forall_nil.
Qed.

(** [atob] reads a text through its characters that are not white space. *)
Lemma atob_filter s :
  atob s = atob (filter (fun c => negb (is_ascii_whitespace c)) s).
Proof.
  unfold atob. f_equal.
  assert (E : forall l, filter (fun c => negb (is_ascii_whitespace c))
                          (filter (fun c => negb (is_ascii_whitespace c)) l)
                        = filter (fun c => negb (is_ascii_whitespace c)) l).
  { induction l as [|x l IHl]; [reflexivity|]. cbn [filter].
    destruct (negb (is_ascii_whitespace x)) eqn:Hx; [|exact IHl].
    cbn [filter]. rewrite Hx, IHl. reflexivity. }
  rewrite E. reflexivity.
Qed.

Lemma atob_unpadded l : bytes_ok l -> atob (map b64_char (sextets l)) = Ok l.
Proof.
  intros H. pose proof (sextets_ok l H) as Hs.
  pose proof (filter_chars (sextets l) [] Hs (or_introl eq_refl)) as Hf.
  pose proof (strip_padding_chars (sextets l) [] Hs (or_introl eq_refl)) as Hp.
  rewrite app_nil_r in Hf, Hp.
  unfold atob. rewrite Hf.
  assert (E : (if len (map b64_char (sextets l)) mod 4 =? 0
               then strip_padding (map b64_char (sextets l))
               else map b64_char (sextets l)) = map b64_char (sextets l))
    by (rewrite Hp; destruct (_ =? 0); reflexivity).
  rewrite E. unfold len. rewrite length_map, sextets_length.
  rewrite (values_of_chars _ Hs), (b64_decode_sextets l H). reflexivity.
Qed.

End CodecFacts.

(** X1.  On every byte sequence that is not longer than the number of
    arguments the engine passes on, [base64Decode] undoes [base64Encode];
    on a longer one [base64Encode] throws [RangeError]. *)
Theorem base64_round_trip (more : nat) (data : bytes) :
  bytes_ok data ->
  (Z.of_nat (List.length data) <= max_arguments more ->
   exists s, base64Encode more data = Ok s /\ base64Decode (VStr s) = Ok data)
  /\ (max_arguments more < Z.of_nat (List.length data) ->
      base64Encode more data = Throw RangeError).
Proof.
  intros H. split.
  - intros Hn. exists (Base64.b64_encode data). split.
    + apply Base64Facts.base64Encode_bytes; assumption.
    + unfold base64Decode. cbn [ToString]. apply Base64Facts.atob_b64_encode, H.
  - apply Base64Facts.base64Encode_large.
Qed.

Lemma base64_round_trip_witness :
  (Z.of_nat (List.length [0; 255; 16; 128]) <= max_arguments 0 ->
   exists s, base64Encode 0 [0; 255; 16; 128] = Ok s
             /\ base64Decode (VStr s) = Ok [0; 255; 16; 128])
  /\ (max_arguments 0 < Z.of_nat (List.length [0; 255; 16; 128]) ->
      base64Encode 0 [0; 255; 16; 128] = Throw RangeError).
Proof.
  apply (base64_round_trip 0 [0; 255; 16; 128]).
  repeat constructor; unfold byte_ok; lia.
Defined.

(** X2.  [base64Encode] of [n] bytes, [n] not above the number of
    arguments the engine passes on, returns [4 * ceil(n / 3)] characters,
    each of the base64 alphabet or the padding character [=]. *)
Theorem base64Encode_shape (more : nat) (data : bytes) :
  bytes_ok data ->
  Z.of_nat (List.length data) <= max_arguments more ->
  exists s,
    base64Encode more data = Ok s
    /\ Z.of_nat (List.length s) = 4 * ((Z.of_nat (List.length data) + 2) / 3)
    /\ Forall (fun c => CodecFacts.is_base64_char c = true \/ c = 61) s.
Proof.
  intros H Hn. exists (Base64.b64_encode data).
  repeat split.
  - apply Base64Facts.base64Encode_bytes; assumption.
  - apply CodecFacts.b64_encode_len.
  - apply CodecFacts.b64_encode_chars, H.
Qed.

Lemma base64Encode_shape_witness :
  exists s,
    base64Encode 0 [1; 2; 3; 4] = Ok s
    /\ Z.of_nat (List.length s) = 4 * ((Z.of_nat 4 + 2) / 3)
    /\ Forall (fun c => CodecFacts.is_base64_char c = true \/ c = 61) s.
Proof.
  apply (base64Encode_shape 0 [1; 2; 3; 4]).
  - repeat constructor; unfold byte_ok; lia.
  - vm_compute. discriminate.
Defined.

(** X3.  Given a string, [base64Decode] either returns bytes (every
    element between 0 and 255) or throws [InvalidCharacterError]. *)
Theorem base64Decode_outcome (data : jsstring) :
  (exists l, base64Decode (VStr data) = Ok l /\ bytes_ok l)
  \/ base64Decode (VStr data) = Throw InvalidCharacterError.
Proof.
  unfold base64Decode, Base64.atob. cbn [ToString].
  destruct (_ =? 1); [right; reflexivity|].
  match goal with |- context [Base64.values_of ?d] =>
    destruct (Base64.values_of d) as [vs|] eqn:E end; [left|right; reflexivity].
  eexists. split; [reflexivity|].
  apply CodecFacts.b64_decode_ok, (CodecFacts.values_of_range _ _ E).
Qed.

(** X4.  A text holding a character that is neither of the base64 alphabet,
    nor [=], nor ASCII white space (the [-] and [_] of base64url, say) is
    rejected by [base64Decode] with [InvalidCharacterError], and
    [deserialize_payload] rejects it so before it reads the clock. *)
Theorem base64Decode_rejects (tz : Z -> Z) (data : value) (c : Z) (w : World) :
  In c (ToString data) ->
  Base64.is_ascii_whitespace c = false ->
  CodecFacts.is_base64_char c = false ->
  c <> 61 ->
  base64Decode data = Throw InvalidCharacterError
  /\ deserialize_payload tz data w = (Throw InvalidCharacterError, w).
Proof.
  intros Hin Hws Hc H61.
  assert (E : base64Decode data = Throw InvalidCharacterError).
  { unfold base64Decode, Base64.atob.
    destruct (_ =? 1); [reflexivity|].
    match goal with |- context [Base64.values_of ?d] =>
      assert (Hd : In c d) end.
    { assert (Hf : In c (filter (fun c => negb (Base64.is_ascii_whitespace c))
                                (ToString data)))
        by (apply filter_In; split; [exact Hin | rewrite Hws; reflexivity]).
      destruct (_ =? 0); [apply Base64Facts.strip_padding_In|]; assumption. }
    rewrite (Base64Facts.values_of_None _ c Hd (CodecFacts.b64_val_alphabet c Hc)).
    reflexivity. }
  split; [exact E|].
  unfold deserialize_payload, bind, lift. rewrite E. reflexivity.
Qed.

Lemma base64Decode_rejects_witness :
  base64Decode (VStr (lit "eyJh_-8")) = Throw InvalidCharacterError
  /\ deserialize_payload IST (VStr (lit "eyJh_-8")) world0
     = (Throw InvalidCharacterError, world0).
Proof.
  apply (base64Decode_rejects IST (VStr (lit "eyJh_-8")) 95 world0).
  - cbn. tauto.
  - reflexivity.
  - reflexivity.
  - lia.
Defined.

(** X5.  [base64Decode] is lenient: it skips ASCII white space anywhere in
    the text and accepts the encoding of a byte sequence with its [=]
    padding left out. *)
Theorem base64Decode_lenient (data : bytes) (s : jsstring) :
  bytes_ok data ->
  (let body := filter (fun c => negb (Base64.is_ascii_whitespace c)) s in
   body = Base64.b64_encode data
   \/ body = map Base64.b64_char (Base64Facts.sextets data)) ->
  base64Decode (VStr s) = Ok data.
Proof.
  intros H Hs. unfold base64Decode. cbn [ToString].
  rewrite CodecFacts.atob_filter. cbv zeta in Hs. destruct Hs as [-> | ->].
  - apply Base64Facts.atob_b64_encode, H.
  - apply CodecFacts.atob_unpadded, H.
Qed.

Lemma base64Decode_lenient_witness :
  base64Decode (VStr (lit "AQ IDB A")) = Ok [1; 2; 3; 4].
Proof.
  apply (base64Decode_lenient [1; 2; 3; 4] (lit "AQ IDB A")).
  - repeat constructor; unfold byte_ok; lia.
  - right. reflexivity.
Defined.

(** ** [generate_date_seq], [generate_key], [encrypt] and [decrypt] *)

Module CryptoFacts.
Import AES CBCFacts DateFacts DateSeq KeyFacts.

(** *** The civil date of a day *)

(** A day is the first day of its year, plus the days of the months
    before its month, plus its day of the month. *)
Lemma Day_civil t :
  Day t = DayFromYear (YearFromTime t)
          + days_before_month (YearFromTime t) (MonthFromTime t)
          + (DateFromTime t - 1).
Proof.
  pose proof (DayWithinYear_range t) as Hr.
  unfold DateFromTime, MonthFromTime, days_before_month, InLeapYear in *.
  unfold DayWithinYear in *.
  destruct (DaysInYear (YearFromTime t) =? 366);
    repeat match goal with
           | |- context [if ?b then _ else _] => destruct b eqn:?
           end; cbv beta iota zeta; lia.
Qed.

Lemma civil_day t1 t2 :
  YearFromTime t1 = YearFromTime t2 ->
  MonthFromTime t1 = MonthFromTime t2 ->
  DateFromTime t1 = DateFromTime t2 ->
  same_day t1 t2.
Proof.
  intros Hy Hm Hd. unfold same_day.
  rewrite (Day_civil t1), (Day_civil t2), Hy, Hm, Hd. reflexivity.
Qed.

(** *** The digest *)

Lemma digest_inj t1 t2 :
  digest t1 = digest t2 <->
  DateFromTime t1 = DateFromTime t2 /\ MonthFromTime t1 = MonthFromTime t2
  /\ YearFromTime t1 mod 100 = YearFromTime t2 mod 100
  /\ WeekDay t1 = WeekDay t2.
Proof.
  assert (inj : forall a b c d e f g a' b' c' d' e' f' g' : Z,
             [a; b; c; d; e; f; g] = [a'; b'; c'; d'; e'; f'; g'] ->
             a = a' /\ b = b' /\ c = c' /\ d = d' /\ e = e' /\ f = f' /\ g = g')
    by (intros * H; inversion H; auto 10).
  unfold digest. cbv zeta. split.
  - intros H. apply inj in H. destruct H as (H1 & H2 & H3 & H4 & H5 & H6 & H7).
    repeat split; dlia.
  - intros (-> & -> & -> & ->). reflexivity.
Qed.

Lemma key_text_inj t1 t2 : key_text t1 = key_text t2 <-> date_seq t1 = date_seq t2.
Proof.
  unfold key_text. split.
  - intros H. apply app_inv_head in H. apply app_inv_tail in H. exact H.
  - intros ->. reflexivity.
Qed.

Lemma key_text_length lt :
  List.length (key_text lt) = 16%nat \/ List.length (key_text lt) = 24%nat
  \/ List.length (key_text lt) = 32%nat.
Proof.
  unfold key_text. rewrite !length_app.
  destruct (date_seq_length lt) as [E|[E|E]]; rewrite E; cbn; auto.
Qed.

(** *** Blocks *)

Lemma bytes_of_blocks_app xs ys :
  bytes_of_blocks (xs ++ ys) = bytes_of_blocks xs ++ bytes_of_blocks ys.
Proof. unfold bytes_of_blocks. apply flat_map_app. Qed.

Lemma blocks_of_app xs rest :
  blocks_of (bytes_of_blocks xs ++ rest)
  = match blocks_of rest with Some bs => Some (xs ++ bs) | None => None end.
Proof.
  induction xs as [|x xs IH].
  - cbn [bytes_of_blocks flat_map app]. destruct (blocks_of rest); reflexivity.
  - change (bytes_of_blocks (x :: xs)) with (bytes_of_block x ++ bytes_of_blocks xs).
    rewrite <- app_assoc, blocks_of_cons, IH.
    destruct (blocks_of rest); reflexivity.
Qed.

Lemma cbc_encrypt_app rks : forall xs prev ys,
  exists prev',
    cbc_encrypt rks prev (xs ++ ys)
    = cbc_encrypt rks prev xs ++ cbc_encrypt rks prev' ys.
Proof.
  induction xs as [|x xs IH]; intros prev ys.
  - exists prev. reflexivity.
  - cbn [cbc_encrypt app].
    destruct (IH (Cipher rks (xor_block x prev)) ys) as [prev' E].
    exists prev'. rewrite E. reflexivity.
Qed.

Lemma pad_app a b :
  Z.of_nat (List.length a) mod 16 = 0 -> pad (a ++ b) = a ++ pad b.
Proof.
  intros H. unfold pad. rewrite length_app, Nat2Z.inj_add, <- app_assoc.
  replace ((Z.of_nat (List.length a) + Z.of_nat (List.length b)) mod 16)
    with (Z.of_nat (List.length b) mod 16) by dlia.
  reflexivity.
Qed.

(** The first blocks of a ciphertext depend on the first blocks of the
    plaintext only. *)
Lemma encrypt_prefix key a b :
  Z.of_nat (List.length a) mod 16 = 0 ->
  exists xs c,
    blocks_of a = Some xs
    /\ WebCrypto.encrypt IV key (a ++ b) = Ok c
    /\ firstn (List.length a) c
       = bytes_of_blocks (cbc_encrypt (KeyExpansion (WebCrypto.key_data key)) IV0 xs).
Proof.
  intros Ha.
  destruct (blocks_of_Some (List.length a / 16) a) as [xs Hxs].
  { apply Nat2Z.inj. rewrite Nat2Z.inj_mul, Nat2Z.inj_div.
    change (Z.of_nat 16) with 16. dlia. }
  pose proof (blocks_of_inv _ _ Hxs) as Ea.
  destruct (pad_blocks b) as [ys Hys].
  destruct (cbc_encrypt_app (KeyExpansion (WebCrypto.key_data key)) xs IV0 ys)
    as [prev' Ecbc].
  exists xs. eexists. split; [exact Hxs|].
  unfold WebCrypto.encrypt. rewrite IV_block, (pad_app a b Ha).
  rewrite Ea at 1. rewrite blocks_of_app, Hys. split; [reflexivity|].
  rewrite Ecbc, bytes_of_blocks_app.
  assert (El : List.length a
               = List.length (bytes_of_blocks
                   (cbc_encrypt (KeyExpansion (WebCrypto.key_data key)) IV0 xs))).
  { rewrite bytes_of_blocks_length, cbc_encrypt_length.
    rewrite Ea at 1. apply bytes_of_blocks_length. }
  rewrite El at 1. rewrite firstn_app, Nat.sub_diag, firstn_all. cbn [firstn].
  apply app_nil_r.
Qed.

End CryptoFacts.

(** *** The date sequence and the key *)

(** X6.  For dates of four-digit years, two date sequences are equal exactly
    when the dates agree on the day of the month, the month, the last two
    digits of the year and the weekday. *)
Theorem generate_date_seq_equal (tz : Z -> Z) (t1 t2 : Z) (w1 w2 : World) :
  let lt1 := LocalTime tz t1 in
  let lt2 := LocalTime tz t2 in
  1000 <= YearFromTime lt1 <= 9999 ->
  1000 <= YearFromTime lt2 <= 9999 ->
  (fst (generate_date_seq tz (Some (DateAt t1)) w1)
   = fst (generate_date_seq tz (Some (DateAt t2)) w2)
   <-> DateFromTime lt1 = DateFromTime lt2
       /\ MonthFromTime lt1 = MonthFromTime lt2
       /\ YearFromTime lt1 mod 100 = YearFromTime lt2 mod 100
       /\ WeekDay lt1 = WeekDay lt2).
Proof.
  intros lt1 lt2 H1 H2. rewrite !DateSeq.generate_date_seq_at. cbn [fst].
  fold lt1 lt2. rewrite (DateSeq.digest_4 lt1 H1), (DateSeq.digest_4 lt2 H2).
  rewrite <- CryptoFacts.digest_inj. split.
  - intros H. congruence.
  - intros ->. reflexivity.
Qed.

Lemma generate_date_seq_equal_witness :
  fst (generate_date_seq IST (Some (DateAt t_2024_03_15)) world0)
  = fst (generate_date_seq IST (Some (DateAt (t_2024_03_15 + 3600000))) world0)
  <-> DateFromTime (LocalTime IST t_2024_03_15)
      = DateFromTime (LocalTime IST (t_2024_03_15 + 3600000))
      /\ MonthFromTime (LocalTime IST t_2024_03_15)
         = MonthFromTime (LocalTime IST (t_2024_03_15 + 3600000))
      /\ YearFromTime (LocalTime IST t_2024_03_15) mod 100
         = YearFromTime (LocalTime IST (t_2024_03_15 + 3600000)) mod 100
      /\ WeekDay (LocalTime IST t_2024_03_15)
         = WeekDay (LocalTime IST (t_2024_03_15 + 3600000)).
Proof.
  apply (generate_date_seq_equal IST t_2024_03_15 (t_2024_03_15 + 3600000)
           world0 world0); vm_compute; split; discriminate.
Defined.

(** X7.  Within one century of four-digit years, [generate_key] derives the
    same key for two dates exactly when they are the same local calendar
    day: the key of a day is the key of no other day of the century. *)
Theorem generate_key_equal (tz : Z -> Z) (t1 t2 : Z) (w1 w2 : World) :
  let lt1 := LocalTime tz t1 in
  let lt2 := LocalTime tz t2 in
  1000 <= YearFromTime lt1 <= 9999 ->
  YearFromTime lt1 / 100 = YearFromTime lt2 / 100 ->
  (fst (generate_key tz (Some (DateAt t1)) w1)
   = fst (generate_key tz (Some (DateAt t2)) w2)
   <-> DateFacts.same_day lt1 lt2).
Proof.
  intros lt1 lt2 H1 Hc. rewrite !KeyFacts.generate_key_at. cbn [fst].
  fold lt1 lt2.
  assert (H2 : 1000 <= YearFromTime lt2 <= 9999) by dlia.
  split.
  - intros H. assert (E : KeyFacts.key_text lt1 = KeyFacts.key_text lt2)
      by congruence.
    apply CryptoFacts.key_text_inj in E.
    rewrite (DateSeq.digest_4 lt1 H1), (DateSeq.digest_4 lt2 H2) in E.
    apply CryptoFacts.digest_inj in E. destruct E as (Hd & Hm & Hy & _).
    apply CryptoFacts.civil_day; [dlia | assumption | assumption].
  - intros H. rewrite (KeyFacts.key_text_day _ _ H). reflexivity.
Qed.

Lemma generate_key_equal_witness :
  fst (generate_key IST (Some (DateAt t_2024_03_15)) world0)
  = fst (generate_key IST (Some (DateAt (t_2024_03_15 + 86400000))) world0)
  <-> DateFacts.same_day (LocalTime IST t_2024_03_15)
                         (LocalTime IST (t_2024_03_15 + 86400000)).
Proof.
  apply (generate_key_equal IST t_2024_03_15 (t_2024_03_15 + 86400000)
           world0 world0).
  - vm_compute. split; discriminate.
  - reflexivity.
Defined.

(** X8.  [generate_key] resolves to a key of 16, 24 or 32 bytes for every
    valid date and for the current date, and rejects with [DataError] (the
    key-size check of [importKey]) for the Invalid Date, whose date sequence
    is [NNNNaNaaundefined]. *)
Theorem generate_key_outcome (tz : Z -> Z) (w : World) :
  (forall t, exists k,
      generate_key tz (Some (DateAt t)) w = (Ok k, w)
      /\ (List.length (WebCrypto.key_data k) = 16%nat
          \/ List.length (WebCrypto.key_data k) = 24%nat
          \/ List.length (WebCrypto.key_data k) = 32%nat))
  /\ (exists k,
        generate_key tz None w = (Ok k, DateSeq.tick w)
        /\ (List.length (WebCrypto.key_data k) = 16%nat
            \/ List.length (WebCrypto.key_data k) = 24%nat
            \/ List.length (WebCrypto.key_data k) = 32%nat))
  /\ generate_date_seq tz (Some InvalidDate) w
     = (Ok (VStr (lit "NNNNaNaaundefined")), w)
  /\ generate_key tz (Some InvalidDate) w = (Throw DataError, w).
Proof.
  repeat split.
  - intros t. eexists. split; [apply KeyFacts.generate_key_at|].
    apply CryptoFacts.key_text_length.
  - eexists. split; [apply KeyFacts.generate_key_now|].
    apply CryptoFacts.key_text_length.
Qed.

(** *** Ciphertexts *)

(** X9.  [encrypt] never fails: it reads the clock once and returns a
    ciphertext of whole 16-byte blocks, 1 to 16 bytes longer than the
    plaintext. *)
Theorem encrypt_length (tz : Z -> Z) (p : bytes) (w : World) :
  exists c,
    encrypt tz p w = (Ok c, DateSeq.tick w)
    /\ Z.of_nat (List.length c) = 16 * (Z.of_nat (List.length p) / 16 + 1).
Proof.
  rewrite KeyFacts.encrypt_eq. unfold WebCrypto.encrypt.
  rewrite KeyFacts.IV_block. destruct (CBCFacts.pad_blocks p) as [bs Hbs].
  rewrite Hbs. eexists. split; [reflexivity|].
  rewrite CBCFacts.bytes_of_blocks_length, CBCFacts.cbc_encrypt_length.
  rewrite <- CBCFacts.bytes_of_blocks_length.
  rewrite <- (CBCFacts.blocks_of_inv _ _ Hbs). apply CBCFacts.pad_len.
Qed.

(** X10.  What [decrypt] accepts is a positive whole number of 16-byte
    blocks, and the plaintext it returns is 1 to 16 bytes shorter: the
    empty ciphertext, in particular, is rejected. *)
Theorem decrypt_length (tz : Z -> Z) (data p : bytes) (w : World) :
  fst (decrypt tz data w) = Ok p ->
  Z.of_nat (List.length data) mod 16 = 0
  /\ 1 <= Z.of_nat (List.length data) - Z.of_nat (List.length p) <= 16.
Proof.
  rewrite KeyFacts.decrypt_eq. cbn [fst]. unfold WebCrypto.decrypt.
  rewrite KeyFacts.IV_block.
  destruct (AES.blocks_of data) as [cs|] eqn:Hcs; [|discriminate].
  match goal with |- context [AES.unpad ?x] =>
    destruct (AES.unpad x) as [q|] eqn:Hq end; [|discriminate].
  intros H. inversion H; subst q.
  apply CBCFacts.unpad_len in Hq.
  rewrite CBCFacts.bytes_of_blocks_length, CBCFacts.cbc_decrypt_length in Hq.
  rewrite (CBCFacts.blocks_of_inv _ _ Hcs), CBCFacts.bytes_of_blocks_length.
  split; [|exact Hq]. rewrite Nat2Z.inj_mul. change (Z.of_nat 16) with 16. dlia.
Qed.

Lemma decrypt_length_witness :
  Z.of_nat (List.length [68; 197; 116; 93; 107; 209; 120; 99;
                         146; 211; 10; 99; 163; 160; 64; 37]) mod 16 = 0
  /\ 1 <= Z.of_nat (List.length [68; 197; 116; 93; 107; 209; 120; 99;
                                 146; 211; 10; 99; 163; 160; 64; 37])
          - Z.of_nat (List.length [1; 2; 3]) <= 16.
Proof.
  apply (decrypt_length IST _ [1; 2; 3] world0).
  vm_compute. reflexivity.
Defined.

(** X11.  The ciphertext is a function of the plaintext and the local
    calendar day alone: the initialization vector is fixed and nothing
    random enters, so [encrypt] and [serialize_payload] return the same
    result whenever they are called on the same day. *)
Theorem encrypt_same_day_same_result (tz : Z -> Z) (more : nat)
    (w1 w2 : World) (p : bytes) (v : value) :
  DateFacts.same_day (DateSeq.local_now tz w1) (DateSeq.local_now tz w2) ->
  fst (encrypt tz p w1) = fst (encrypt tz p w2)
  /\ fst (serialize_payload tz more v w1) = fst (serialize_payload tz more v w2).
Proof.
  intros H.
  assert (E : forall q, fst (encrypt tz q w1) = fst (encrypt tz q w2)).
  { intros q. rewrite !KeyFacts.encrypt_eq. cbn [fst].
    rewrite (KeyFacts.key_text_day _ _ H). reflexivity. }
  split; [apply E|].
  unfold serialize_payload. rewrite !Calls.bind_fst. unfold lift. cbn [fst snd].
  destruct (JSON.stringify v) as [text|e]; [|reflexivity].
  rewrite !Calls.bind_fst, E.
  destruct (fst (encrypt tz (TextEncoder_encode text) w2)); reflexivity.
Qed.

Lemma encrypt_same_day_same_result_witness :
  fst (encrypt IST [1; 2; 3] world0)
  = fst (encrypt IST [1; 2; 3] (DateSeq.tick world0))
  /\ fst (serialize_payload IST 0 VNull world0)
     = fst (serialize_payload IST 0 VNull (DateSeq.tick world0)).
Proof.
  apply (encrypt_same_day_same_result IST 0 world0 (DateSeq.tick world0)).
  reflexivity.
Defined.

(** X12.  With the fixed initialization vector, plaintexts that agree on
    their first [16 k] bytes are encrypted, on the same day, to ciphertexts
    that agree on their first [16 k] bytes. *)
Theorem encrypt_common_prefix (tz : Z -> Z) (w1 w2 : World) (a b1 b2 : bytes) :
  DateFacts.same_day (DateSeq.local_now tz w1) (DateSeq.local_now tz w2) ->
  Z.of_nat (List.length a) mod 16 = 0 ->
  exists c1 c2,
    fst (encrypt tz (a ++ b1) w1) = Ok c1
    /\ fst (encrypt tz (a ++ b2) w2) = Ok c2
    /\ firstn (List.length a) c1 = firstn (List.length a) c2.
Proof.
  intros Hday Ha. rewrite !KeyFacts.encrypt_eq. cbn [fst].
  rewrite <- (KeyFacts.key_text_day _ _ Hday).
  set (key := WebCrypto.mkKey (KeyFacts.key_text (DateSeq.local_now tz w1))).
  destruct (CryptoFacts.encrypt_prefix key a b1 Ha) as (xs1 & c1 & Hx1 & E1 & F1).
  destruct (CryptoFacts.encrypt_prefix key a b2 Ha) as (xs2 & c2 & Hx2 & E2 & F2).
  exists c1, c2. repeat split; try assumption.
  rewrite F1, F2. congruence.
Qed.

Lemma encrypt_common_prefix_witness :
  exists c1 c2,
    fst (encrypt IST (repeat 7 16 ++ [1]) world0) = Ok c1
    /\ fst (encrypt IST (repeat 7 16 ++ [2; 3]) (DateSeq.tick world0)) = Ok c2
    /\ firstn 16 c1 = firstn 16 c2.
Proof.
  apply (encrypt_common_prefix IST world0 (DateSeq.tick world0)
           (repeat 7 16) [1] [2; 3]); reflexivity.
Defined.

(** ** [get_random_char_seq], [generate_local_name] and [get_headers] *)

Module NameFacts.
Import AES CBCFacts DateFacts Digits DateSeq KeyFacts LocalName.

Definition in_contract (w : World) : Prop :=
  forall j, (0 <= entropy w j)%Q /\ (entropy w j < 1)%Q.

Lemma date_seq_7 lt : 1000 <= YearFromTime lt -> List.length (date_seq lt) = 7%nat.
Proof.
  intros H. unfold date_seq.
  destruct (year_text_long _ H) as (a & b & rest & E). rewrite E. reflexivity.
Qed.

Lemma name_text_16 lt w :
  in_contract w -> 1000 <= YearFromTime lt ->
  List.length (name_text lt w) = 16%nat.
Proof.
  intros Hw Hy. unfold name_text. rewrite !length_app, (date_seq_7 lt Hy).
  destruct (random_text_ok (entropy w) 4 (draws w) Hw) as [-> _].
  destruct (random_text_ok (entropy w) 5 (4 + draws w) Hw) as [-> _].
  reflexivity.
Qed.

(** The local name of a 16-character plaintext: 44 characters of base64. *)
Lemma name_44 key p c :
  List.length p = 16%nat -> bytes_ok c ->
  WebCrypto.encrypt IV key p = Ok c ->
  List.length (Base64.b64_encode c) = 44%nat
  /\ Forall (fun u => CodecFacts.is_base64_char u = true \/ u = 61)
            (Base64.b64_encode c).
Proof.
  intros Hp Hc Henc. split; [|apply CodecFacts.b64_encode_chars, Hc].
  apply KeyFacts.WebCrypto_encrypt_length in Henc. rewrite Hp in Henc.
  apply Nat2Z.inj. rewrite CodecFacts.b64_encode_len, Henc. reflexivity.
Qed.

(** [generate_local_name] with no date: the first reading of the clock
    gives the sequence in the plaintext, the second gives the key. *)
Lemma generate_local_name_now tz more w :
  exists c,
    WebCrypto.encrypt IV (WebCrypto.mkKey (key_text (local_now tz (tick w))))
                      (name_text (local_now tz w) w) = Ok c
    /\ bytes_ok c
    /\ generate_local_name tz more None w
       = (Ok (Base64.b64_encode c), tick (tick (draws_by 9 w))).
Proof.
  destruct (decrypt_encrypt_key (local_now tz (tick w)) (name_text (local_now tz w) w))
    as (c & Henc & _ & Hc);
    [apply ascii_bytes_ok, name_text_ascii|].
  exists c. split; [exact Henc|]. split; [exact Hc|].
  unfold generate_local_name, bind.
  rewrite get_random_char_seq_eq, generate_date_seq_now, get_random_char_seq_eq.
  unfold lift. rewrite js_add_str. cbn [rbind ToString].
  rewrite js_add_str. cbn [ToString]. rewrite <- app_assoc.
  cbn [entropy draws draws_by tick].
  change (local_now tz (draws_by 4 w)) with (local_now tz w).
  fold (name_text (local_now tz w) w).
  rewrite (encode_ascii _ (name_text_ascii _ _)), encrypt_eq.
  unfold local_now at 1. cbn [clock ticks draws_by tick].
  change (LocalTime tz (clock w (S (ticks w)))) with (local_now tz (tick w)).
  rewrite Henc.
  rewrite (Base64Facts.base64Encode_small more _ Hc
             (name_cipher_small _ _ _ _ Henc)).
  reflexivity.
Qed.

Lemma open_name tz key_lt p c w2 :
  ascii_string p ->
  WebCrypto.encrypt IV (WebCrypto.mkKey (key_text key_lt)) p = Ok c ->
  bytes_ok c ->
  same_day key_lt (local_now tz w2) ->
  bind (lift (base64Decode (VStr (Base64.b64_encode c)))) (decrypt tz) w2
  = (Ok p, tick w2).
Proof.
  intros Hp Henc Hc Hday.
  destruct (decrypt_encrypt_key key_lt p) as (c' & Henc' & Hdec & _);
    [apply ascii_bytes_ok, Hp|].
  rewrite Henc in Henc'. inversion Henc'; subst c'.
  unfold bind, lift, base64Decode. cbn [ToString].
  rewrite (Base64Facts.atob_b64_encode _ Hc), decrypt_eq.
  rewrite <- (key_text_day _ _ Hday), Hdec. reflexivity.
Qed.

End NameFacts.



(** X14.  [generate_local_name] with no date reads the clock twice: the
    first reading gives the date sequence of the plaintext, the second the
    key.  The name then opens, on the day of the second reading, to the
    four random characters, the sequence of the first reading and the five
    random characters; nothing is sent. *)
Theorem generate_local_name_default_date (tz : Z -> Z) (more : nat)
    (w w2 : World) :
  DateFacts.same_day (DateSeq.local_now tz (DateSeq.tick w))
                     (DateSeq.local_now tz w2) ->
  exists name,
    generate_local_name tz more None w
    = (Ok name, DateSeq.tick (DateSeq.tick (LocalName.draws_by 9 w)))
    /\ bind (lift (base64Decode (VStr name))) (decrypt tz) w2
       = (Ok (LocalName.random_text (entropy w) (draws w) 4
              ++ DateSeq.date_seq (DateSeq.local_now tz w)
              ++ LocalName.random_text (entropy w) (4 + draws w) 5),
          DateSeq.tick w2).
Proof.
  intros Hday.
  destruct (NameFacts.generate_local_name_now tz more w) as (c & Henc & Hc & E).
  exists (Base64.b64_encode c). split; [exact E|].
  exact (NameFacts.open_name tz _ _ c w2 (LocalName.name_text_ascii _ _)
           Henc Hc Hday).
Qed.

Lemma generate_local_name_default_date_witness :
  exists name,
    generate_local_name IST 0 None world0
    = (Ok name, DateSeq.tick (DateSeq.tick (LocalName.draws_by 9 world0)))
    /\ bind (lift (base64Decode (VStr name))) (decrypt IST) world0
       = (Ok (LocalName.random_text (entropy world0) (draws world0) 4
              ++ DateSeq.date_seq (DateSeq.local_now IST world0)
              ++ LocalName.random_text (entropy world0) (4 + draws world0) 5),
          DateSeq.tick world0).
Proof.
  apply (generate_local_name_default_date IST 0 world0 world0).
  reflexivity.
Defined.

(** X15.  For a date of the year 1000 or later and [Math.random] in its
    range, the local name is exactly 44 characters of base64 (32 bytes of
    ciphertext for the 16 bytes of plaintext). *)
Theorem generate_local_name_44 (tz : Z -> Z) (more : nat) (t : Z)
    (w : World) :
  NameFacts.in_contract w ->
  1000 <= YearFromTime (LocalTime tz t) ->
  exists name,
    fst (generate_local_name tz more (Some (DateAt t)) w) = Ok name
    /\ List.length name = 44%nat
    /\ Forall (fun u => CodecFacts.is_base64_char u = true \/ u = 61) name.
Proof.
  intros Hw Hy.
  destruct (LocalName.generate_local_name_at tz more t w) as (c & Henc & Hc & E).
  exists (Base64.b64_encode c). rewrite E. split; [reflexivity|].
  exact (NameFacts.name_44 _ _ c (NameFacts.name_text_16 _ w Hw Hy) Hc Henc).
Qed.

Lemma generate_local_name_44_witness :
  exists name,
    fst (generate_local_name IST 0 (Some (DateAt t_2024_03_15)) world0) = Ok name
    /\ List.length name = 44%nat
    /\ Forall (fun u => CodecFacts.is_base64_char u = true \/ u = 61) name.
Proof.
  apply (generate_local_name_44 IST 0 t_2024_03_15 world0).
  - exact entropy0_ok.
  - vm_compute. discriminate.
Defined.

(** X16.  [get_headers] returns, without touching the network, exactly the
    two headers [Authorization], the text [Bearer ] followed by the
    session's token, and [LocalName], a fresh local name for the current
    date, which in a year from 1000 on and with [Math.random] in its range
    has 44 characters. *)
Theorem get_headers_result (tz : Z -> Z) (more : nat)
    (session : WebPortalSession) (w : World) :
  NameFacts.in_contract w ->
  1000 <= YearFromTime (DateSeq.local_now tz w) ->
  exists name,
    get_headers tz more session w
    = (Ok [(lit "Authorization", lit "Bearer " ++ ToString (token session));
           (lit "LocalName", name)],
       DateSeq.tick (DateSeq.tick (LocalName.draws_by 9 w)))
    /\ generate_local_name tz more None w
       = (Ok name, DateSeq.tick (DateSeq.tick (LocalName.draws_by 9 w)))
    /\ List.length name = 44%nat.
Proof.
  intros Hw Hy.
  destruct (NameFacts.generate_local_name_now tz more w) as (c & Henc & Hc & E).
  exists (Base64.b64_encode c). split; [|split; [exact E|]].
  - unfold get_headers, bind. rewrite E. reflexivity.
  - exact (proj1 (NameFacts.name_44 _ _ c (NameFacts.name_text_16 _ w Hw Hy)
                    Hc Henc)).
Qed.

Lemma get_headers_result_witness :
  exists name,
    get_headers IST 0 session0 world0
    = (Ok [(lit "Authorization", lit "Bearer " ++ lit "h.e30.s");
           (lit "LocalName", name)],
       DateSeq.tick (DateSeq.tick (LocalName.draws_by 9 world0)))
    /\ generate_local_name IST 0 None world0
       = (Ok name, DateSeq.tick (DateSeq.tick (LocalName.draws_by 9 world0)))
    /\ List.length name = 44%nat.
Proof.
  apply (get_headers_result IST 0 session0 world0).
  - exact entropy0_ok.
  - vm_compute. discriminate.
Defined.

(** ** [deserialize_payload] and the [WebPortalSession] constructor *)

Module PayloadFacts.
Import DateFacts DateSeq KeyFacts.

Lemma WebCrypto_decrypt_throws iv key data e :
  WebCrypto.decrypt iv key data = Throw e -> e = OperationError.
Proof.
  unfold WebCrypto.decrypt.
  destruct (AES.blocks_of iv) as [[|iv0 [|]]|]; try congruence.
  destruct (AES.blocks_of data); try congruence.
  destruct (AES.unpad _); congruence.
Qed.

End PayloadFacts.

(** X17.  Given a string, [deserialize_payload] has four outcomes and no
    other: it throws [InvalidCharacterError] before reading the clock (the
    text is not base64), or, the clock read once, it throws
    [OperationError] (the ciphertext does not decrypt), throws
    [SyntaxError] (the plaintext is not JSON) or returns the parsed value.
    It draws no random number and sends nothing. *)
Theorem deserialize_payload_outcome (tz : Z -> Z) (payload : jsstring)
    (w : World) :
  deserialize_payload tz (VStr payload) w = (Throw InvalidCharacterError, w)
  \/ deserialize_payload tz (VStr payload) w
     = (Throw OperationError, DateSeq.tick w)
  \/ deserialize_payload tz (VStr payload) w
     = (Throw SyntaxError, DateSeq.tick w)
  \/ exists v, deserialize_payload tz (VStr payload) w = (Ok v, DateSeq.tick w).
Proof.
  unfold deserialize_payload, bind, lift.
  destruct (base64Decode (VStr payload)) as [pbytes|e] eqn:Hb.
  - rewrite KeyFacts.decrypt_eq.
    destruct (WebCrypto.decrypt _ _ pbytes) as [raw|e] eqn:Hd.
    + destruct (JSON.parse (Encoding.decode raw)) as [v|e] eqn:Hp.
      * right; right; right. exists v. reflexivity.
      * right; right; left.
        rewrite (Session.parse_throws _ _ Hp). reflexivity.
    + right; left.
      rewrite (PayloadFacts.WebCrypto_decrypt_throws _ _ _ _ Hd). reflexivity.
  - left. unfold base64Decode in Hb.
    rewrite (Base64Facts.atob_throws _ _ Hb). reflexivity.
Qed.

(** X18.  From a response whose [regdata] has a first institute and a
    token whose second dot-separated segment is base64 text that [atob]
    accepts, holding the JSON text of claims with an integer [exp], the
    constructor builds a session: [institute] and [instituteid] are the
    [label] and [value] of the first institute, [token] is the token, and
    [expiry] is the date [exp] seconds after the epoch (the Invalid Date
    when that is out of a Date's range). *)
Theorem WebPortalSession_of_response (stn : jsstring -> number)
    (resp rd il inst : value) (s seg text : jsstring) (claims : value)
    (z : Z) :
  get_prop resp (lit "regdata") = Ok rd ->
  get_prop rd (lit "institutelist") = Ok il ->
  get_index il 0 = Ok inst ->
  inst <> VUndefined -> inst <> VNull ->
  get_prop rd (lit "token") = Ok (VStr s) ->
  nth_error (split_on 46 s) 1 = Some seg ->
  Base64.atob seg = Ok text ->
  JSON.parse text = Ok claims ->
  get_prop claims (lit "exp") = Ok (VNum (Int z)) ->
  exists session,
    WebPortalSession_new stn resp = Ok session
    /\ raw_response session = resp
    /\ regdata session = rd
    /\ get_prop inst (lit "label") = Ok (institute session)
    /\ get_prop inst (lit "value") = Ok (instituteid session)
    /\ get_prop rd (lit "memberid") = Ok (memberid session)
    /\ get_prop rd (lit "userid") = Ok (userid session)
    /\ get_prop rd (lit "clientid") = Ok (clientid session)
    /\ get_prop rd (lit "membertype") = Ok (membertype session)
    /\ get_prop rd (lit "name") = Ok (name session)
    /\ get_prop rd (lit "enrollmentno") = Ok (enrollmentno session)
    /\ token session = VStr s
    /\ expiry session = (if Z.abs (z * 1000) <=? maxTime
                         then DateAt (z * 1000) else InvalidDate).
Proof.
  intros Hrd Hil Hinst Hu Hn Htok Hseg Hatob Hparse Hexp.
  assert (Hget : forall k, exists x, get_prop rd k = Ok x).
  { intros k. destruct rd; try discriminate; eexists; reflexivity. }
  assert (Hgeti : forall k, exists x, get_prop inst k = Ok x).
  { intros k. destruct inst; try congruence; eexists; reflexivity. }
  unfold WebPortalSession_new.
  rewrite Hrd. cbn [rbind]. rewrite Hil. cbn [rbind]. rewrite Hinst. cbn [rbind].
  destruct (Hgeti (lit "label")) as [x1 E1]. rewrite E1. cbn [rbind].
  destruct (Hgeti (lit "value")) as [x2 E2]. rewrite E2. cbn [rbind].
  destruct (Hget (lit "memberid")) as [x3 E3]. rewrite E3. cbn [rbind].
  destruct (Hget (lit "userid")) as [x4 E4]. rewrite E4. cbn [rbind].
  rewrite Htok. cbn [rbind split_dot]. unfold segment. rewrite Hseg.
  cbn [ToString]. rewrite Hatob. cbn [rbind]. rewrite Hparse. cbn [rbind].
  rewrite Hexp. cbn [rbind ToNumber].
  destruct (Hget (lit "clientid")) as [x5 E5]. rewrite E5. cbn [rbind].
  destruct (Hget (lit "membertype")) as [x6 E6]. rewrite E6. cbn [rbind].
  destruct (Hget (lit "name")) as [x7 E7]. rewrite E7. cbn [rbind].
  destruct (Hget (lit "enrollmentno")) as [x8 E8]. rewrite E8. cbn [rbind].
  eexists. split; [reflexivity|]. cbn [raw_response regdata institute instituteid
    memberid userid clientid membertype name enrollmentno token expiry].
  repeat (split; [reflexivity|]). reflexivity.
Qed.

Lemma WebPortalSession_of_response_witness :
  exists session,
    WebPortalSession_new no_numeric_strings
      (login_response (lit "h.eyJleHAiOjE3MDAwMDAwMDB9.s")) = Ok session
    /\ expiry session = DateAt (1700000000 * 1000)
    /\ instituteid session = VStr (lit "11IN1902J000001").
Proof.
  destruct (WebPortalSession_of_response no_numeric_strings
              (login_response (lit "h.eyJleHAiOjE3MDAwMDAwMDB9.s"))
              (match get_prop (login_response (lit "h.eyJleHAiOjE3MDAwMDAwMDB9.s"))
                              (lit "regdata") with Ok rd => rd | _ => VNull end)
              (VArr [VObj [(lit "label", VStr (lit "JIIT"));
                           (lit "value", VStr (lit "11IN1902J000001"))]])
              (VObj [(lit "label", VStr (lit "JIIT"));
                     (lit "value", VStr (lit "11IN1902J000001"))])
              (lit "h.eyJleHAiOjE3MDAwMDAwMDB9.s")
              (lit "eyJleHAiOjE3MDAwMDAwMDB9")
              (lit "{" ++ quoted "exp" ++ lit ":1700000000}")
              (VObj [(lit "exp", VNum (Int 1700000000))])
              1700000000)
    as (session & E & _ & _ & _ & Hid & _ & _ & _ & _ & _ & _ & _ & Hexp);
    try (vm_compute; reflexivity); try discriminate.
  exists session. split; [exact E|]. split; [exact Hexp|].
  change (Ok (VStr (lit "11IN1902J000001")) = Ok (instituteid session)) in Hid.
  congruence.
Defined.

(** ** [StudentLogin], [GetPersonalInfo] and [GetHostelInfo] *)

Module CallFacts.
Import DateFacts DateSeq KeyFacts LocalName.

(** A request as the program makes them: a POST to an endpoint of the
    portal's API, its first header the JSON content type. *)
Definition portal_post (r : Request) : Prop :=
  req_method r = lit "POST"
  /\ (exists endpoint, req_url r = API ++ endpoint)
  /\ hd_error (req_headers r) = Some (lit "Content-Type", lit "application/json").

(** [m] sends at most [k] requests, all of them [portal_post]s, and leaves
    the requests sent before in place. *)
Definition sends {A} (k : nat) (m : M A) : Prop :=
  forall w, exists l,
    sent (snd (m w)) = sent w ++ l
    /\ (List.length l <= k)%nat
    /\ Forall portal_post l.

Lemma sends_quiet {A} (m : M A) :
  (forall w, sent (snd (m w)) = sent w) -> sends 0 m.
Proof.
  intros H w. exists []. rewrite H, app_nil_r. repeat split; [cbn; lia|constructor].
Qed.

Lemma sends_ret {A} (a : A) : sends 0 (ret a).
Proof. apply sends_quiet. reflexivity. Qed.

Lemma sends_throw {A} e : sends 0 (@throw A e).
Proof. apply sends_quiet. reflexivity. Qed.

Lemma sends_lift {A} (r : result A) : sends 0 (lift r).
Proof. apply sends_quiet. reflexivity. Qed.

Lemma sends_Date_now : sends 0 Date_now.
Proof. apply sends_quiet. reflexivity. Qed.

Lemma sends_Math_random : sends 0 Math_random.
Proof. apply sends_quiet. reflexivity. Qed.

Lemma sends_bind {A B} a b (m : M A) (k : A -> M B) :
  sends a m -> (forall x, sends b (k x)) -> sends (a + b) (bind m k).
Proof.
  intros Hm Hk w. unfold bind.
  destruct (Hm w) as (l1 & E1 & L1 & P1).
  destruct (m w) as [[x|e] w']; cbn [snd] in *.
  - destruct (Hk x w') as (l2 & E2 & L2 & P2). exists (l1 ++ l2).
    rewrite E2, E1, app_assoc, length_app. repeat split; [lia|].
    apply Forall_app. split; assumption.
  - exists l1. repeat split; [assumption|lia|assumption].
Qed.

Lemma sends_bind_0 {A B} n (m : M A) (k : A -> M B) :
  sends 0 m -> (forall x, sends n (k x)) -> sends n (bind m k).
Proof. intros Hm Hk. exact (sends_bind 0 n m k Hm Hk). Qed.

Lemma sends_bind_S {A B} n (m : M A) (k : A -> M B) :
  sends 1 m -> (forall x, sends n (k x)) -> sends (S n) (bind m k).
Proof. intros Hm Hk. exact (sends_bind 1 n m k Hm Hk). Qed.

Lemma sends_try {A} n (body : M A) (a : A) :
  sends n body -> sends n (try_catch body (fun _ => ret a)).
Proof.
  intros Hb w. unfold try_catch, ret. destruct (Hb w) as (l & E & L & P).
  exists l. destruct (body w) as [[x|e] w']; cbn [snd] in *; auto.
Qed.

Lemma sends_post endpoint body headers : sends 1 (post endpoint body headers).
Proof.
  intros w. unfold post, fetch. destruct (headers_ok _); cbn [snd sent].
  - eexists. split; [reflexivity|].
    split; [cbn; lia|]. repeat constructor. eexists. reflexivity.
  - exists []. rewrite app_nil_r. repeat split; [cbn; lia|constructor].
Qed.

Ltac quiet_step :=
  lazymatch goal with
  | |- sends _ (bind _ _) => apply sends_bind_0; [|intros]
  | |- sends _ (ret _) => apply sends_ret
  | |- sends _ (throw _) => apply sends_throw
  | |- sends _ (lift _) => apply sends_lift
  | |- sends _ Date_now => apply sends_Date_now
  | |- sends _ Math_random => apply sends_Math_random
  end.

Ltac quiet := repeat quiet_step.

Lemma sends_random_chars n : forall result, sends 0 (random_chars n result).
Proof.
  induction n as [|n IH]; intros result; cbn [random_chars]; quiet. apply IH.
Qed.

Lemma sends_generate_date_seq tz date : sends 0 (generate_date_seq tz date).
Proof. unfold generate_date_seq. destruct date; quiet. Qed.

Lemma sends_generate_key tz date : sends 0 (generate_key tz date).
Proof. unfold generate_key. quiet. apply sends_generate_date_seq. Qed.

Lemma sends_encrypt tz data : sends 0 (encrypt tz data).
Proof. unfold encrypt. quiet. apply sends_generate_key. Qed.

Lemma sends_generate_local_name tz more date :
  sends 0 (generate_local_name tz more date).
Proof.
  unfold generate_local_name, get_random_char_seq. quiet;
    first [apply sends_random_chars | apply sends_generate_date_seq
          | apply sends_encrypt].
Qed.

Lemma sends_serialize_payload tz more v : sends 0 (serialize_payload tz more v).
Proof. unfold serialize_payload. quiet. apply sends_encrypt. Qed.

Lemma sends_session_get_headers tz more session :
  sends 0 (session_get_headers tz more session).
Proof.
  destruct session; cbn [session_get_headers]; [unfold get_headers|]; quiet.
  apply sends_generate_local_name.
Qed.

Lemma sends_data_call tz more endpoint session payload :
  sends 1 (data_call tz more endpoint session payload).
Proof.
  unfold data_call, data_call_try, Response_json. apply sends_try.
  apply sends_bind_0; [apply sends_session_get_headers|intros].
  apply sends_bind_0; [apply sends_lift|intros].
  apply sends_bind_S; [apply sends_post|intros].
  quiet.
Qed.

Lemma sends_StudentLogin tz stn more username password captcha :
  sends 2 (StudentLogin tz stn more username password captcha).
Proof.
  unfold StudentLogin, StudentLogin_try, Response_json.
  apply sends_bind_0; [apply sends_serialize_payload|intros].
  apply sends_try.
  apply sends_bind_0; [apply sends_generate_local_name|intros].
  apply sends_bind_S; [apply sends_post|intros].
  do 5 (apply sends_bind_0; [apply sends_lift|intros]).
  apply sends_bind_0; [apply sends_serialize_payload|intros].
  apply sends_bind_0; [apply sends_generate_local_name|intros].
  apply sends_bind_S; [apply sends_post|intros].
  quiet.
Qed.

End CallFacts.

(** X19.  Whatever their arguments and whatever the network answers,
    [StudentLogin] sends at most two requests and [GetPersonalInfo] and
    [GetHostelInfo] at most one each, and every request sent is a POST to
    an endpoint of the portal's API with [Content-Type: application/json]
    as its first header. *)
Theorem requests_are_portal_posts (tz : Z -> Z) (stn : jsstring -> number)
    (more : nat) :
  (forall username password captcha,
     CallFacts.sends 2 (StudentLogin tz stn more username password captcha))
  /\ (forall session, CallFacts.sends 1 (GetPersonalInfo tz more session))
  /\ (forall session, CallFacts.sends 1 (GetHostelInfo tz more session)).
Proof.
  split; [|split]; intros.
  - apply CallFacts.sends_StudentLogin.
  - unfold GetPersonalInfo.
    apply CallFacts.sends_bind_0; [apply CallFacts.sends_lift|intros].
    apply CallFacts.sends_data_call.
  - unfold GetHostelInfo.
    apply CallFacts.sends_bind_0; [apply CallFacts.sends_lift|intros].
    apply CallFacts.sends_data_call.
Qed.

Module TraceFacts.
Import DateFacts DateSeq KeyFacts LocalName.

(** The world after [t] more readings of the clock, [d] more random
    numbers and the requests [reqs]. *)
Definition later (t d : nat) (reqs : list Request) (w : World) : World :=
  mkWorld (clock w) (t + ticks w) (entropy w) (d + draws w) (network w)
          (sent w ++ reqs).

Definition content_type : jsstring * jsstring :=
  (lit "Content-Type", lit "application/json").

(** The first request of [StudentLogin]. *)
Definition pretoken_request (body name : jsstring) : Request :=
  mkRequest (API ++ lit "/token/pretoken-check") (lit "POST") body
            [content_type; (lit "LocalName", name)].

(** The second request of [StudentLogin]. *)
Definition token_request (body name : jsstring) : Request :=
  mkRequest (API ++ lit "/token/generate-token1") (lit "POST") body
            [content_type; (lit "LocalName", name)].

(** The [Authorization] header of a session. *)
Definition authorization (s : WebPortalSession) : jsstring :=
  lit "Bearer " ++ ToString (token s).

(** The request of a data call. *)
Definition data_request (endpoint body : jsstring) (s : WebPortalSession)
                        (name : jsstring) : Request :=
  mkRequest (API ++ endpoint) (lit "POST") body
            [content_type;
             (lit "Authorization", authorization s);
             (lit "LocalName", name)].

(** The payload of the second request: the [response] of the first
    without [rejectedData], with the module name and the password. *)
Definition token_payload (fields : list (jsstring * value)) (password : value)
  : value :=
  VObj (define_key (lit "passwordotpvalue") password
          (define_key (lit "Modulename") (VStr (lit "STUDENTMODULE"))
             (remove_key (lit "rejectedData") fields))).

(** An answer to the first request that makes the login fail: no answer,
    a body that is not JSON, or JSON whose [response] is not an object. *)
Definition pretoken_fails (answer : result Response) : Prop :=
  match answer with
  | Throw _ => True
  | Ok resp =>
      match JSON.parse (body resp) with
      | Throw _ => True
      | Ok v =>
          match get_prop v (lit "response") with
          | Ok (VObj _) | Ok (VArr _) => False
          | _ => True
          end
      end
  end.

(** An answer to a data call that makes it return [null]: no answer, a
    body that is not JSON, or the JSON text [null]. *)
Definition data_fails (answer : result Response) : Prop :=
  match answer with
  | Throw _ => True
  | Ok resp =>
      match JSON.parse (body resp) with
      | Throw _ | Ok VNull => True
      | Ok _ => False
      end
  end.

(** An answer to the second request that makes the login fail: no answer,
    a body that is not JSON, the JSON text [null], or a [response] that the
    constructor rejects. *)
Definition token_fails stn (answer : result Response) : Prop :=
  match answer with
  | Throw _ => True
  | Ok resp =>
      match JSON.parse (body resp) with
      | Throw _ => True
      | Ok v =>
          match get_prop v (lit "response") with
          | Throw _ => True
          | Ok r =>
              match WebPortalSession_new stn r with
              | Throw _ => True
              | Ok _ => False
              end
          end
      end
  end.

(** *** Header values *)

Lemma drop_http_whitespace_In c s :
  In c (drop_http_whitespace s) -> In c s.
Proof.
  induction s as [|x s IH]; cbn [drop_http_whitespace]; [tauto|].
  destruct (is_http_whitespace x); [right; apply IH; assumption|tauto].
Qed.

Lemma normalize_value_In c v : In c (normalize_value v) -> In c v.
Proof.
  unfold normalize_value. intros H. apply in_rev in H.
  apply drop_http_whitespace_In in H. apply in_rev in H.
  apply drop_http_whitespace_In in H. exact H.
Qed.

(** A text of printable ASCII characters is a valid header value. *)
Lemma printable_value_ok v :
  Forall (fun c => 33 <= c <= 126) v -> header_value_ok v = true.
Proof.
  intros H. rewrite Forall_forall in H. unfold header_value_ok.
  apply andb_true_iff. split; apply forallb_forall; intros c Hc.
  - specialize (H c Hc). lia.
  - specialize (H c (normalize_value_In c v Hc)). lia.
Qed.

Lemma b64_value_ok c : bytes_ok c -> header_value_ok (Base64.b64_encode c) = true.
Proof.
  intros Hc. apply printable_value_ok.
  eapply Forall_impl; [|exact (CodecFacts.b64_encode_chars c Hc)].
  intros u [Hu| ->]; [|lia]. unfold CodecFacts.is_base64_char in Hu. lia.
Qed.

Lemma content_type_ok :
  header_name_ok (fst content_type) && header_value_ok (snd content_type) = true.
Proof. reflexivity. Qed.

Lemma login_headers_ok name :
  header_value_ok name = true ->
  headers_ok [content_type; (lit "LocalName", name)] = true.
Proof.
  intros H. unfold headers_ok. cbn [forallb]. rewrite content_type_ok.
  cbn [fst snd]. rewrite H. reflexivity.
Qed.

Lemma data_headers_ok s name :
  header_value_ok (authorization s) = true ->
  header_value_ok name = true ->
  headers_ok [content_type; (lit "Authorization", authorization s);
              (lit "LocalName", name)] = true.
Proof.
  intros Ha H. unfold headers_ok. cbn [forallb]. rewrite content_type_ok.
  cbn [fst snd]. rewrite Ha, H. reflexivity.
Qed.

(** *** [StudentLogin] *)

(** What [StudentLogin] does with the answer to its first request. *)
Definition after_pretoken tz stn more (password : value)
                          (answer : result Response)
  : M (option WebPortalSession) :=
  try_catch
    (resp <- lift answer ;;
     resp <- Response_json resp ;;
     payload <- lift (get_prop resp (lit "response")) ;;
     payload <- lift (delete_prop payload (lit "rejectedData")) ;;
     payload <- lift (set_prop payload (lit "Modulename")
                               (VStr (lit "STUDENTMODULE"))) ;;
     payload <- lift (set_prop payload (lit "passwordotpvalue") password) ;;
     payload <- serialize_payload tz more payload ;;
     localname <- generate_local_name tz more None ;;
     resp <- post (lit "/token/generate-token1") payload
                  [(lit "LocalName", localname)] ;;
     resp <- Response_json resp ;;
     r <- lift (get_prop resp (lit "response")) ;;
     session <- lift (WebPortalSession_new stn r) ;;
     ret (Some session))
    (fun _ => ret None).

(** [post] with valid headers. *)
Lemma post_run endpoint text headers w :
  headers_ok (content_type :: headers) = true ->
  post endpoint text headers w
  = (network w (List.length (sent w))
             (mkRequest (API ++ endpoint) (lit "POST") text
                        (content_type :: headers)),
     later 0 0 [mkRequest (API ++ endpoint) (lit "POST") text
                          (content_type :: headers)] w).
Proof.
  intros H. unfold post, fetch. cbn [req_headers].
  fold content_type. rewrite H. reflexivity.
Qed.

(** [StudentLogin] up to the answer to its first request. *)
Lemma StudentLogin_first tz stn more username password captcha w :
  JSONText.serializable (Calls.login_payload username captcha) ->
  Envelope.sealed_length (Calls.login_payload username captcha)
  <= max_arguments more ->
  exists body name,
    (forall wo, same_day (local_now tz w) (local_now tz wo) ->
       deserialize_payload tz (VStr body) wo
       = (Ok (Calls.login_payload username captcha), tick wo))
    /\ StudentLogin tz stn more username password captcha w
       = after_pretoken tz stn more password
           (network w (List.length (sent w)) (pretoken_request body name))
           (later 3 9 [pretoken_request body name] w).
Proof.
  intros Hser Hsize.
  destruct (Envelope.seal tz more _ w Hser Hsize) as (c & Henc & Hc & Eseal).
  destruct (NameFacts.generate_local_name_now tz more (tick w))
    as (c' & _ & Hc' & Ename).
  exists (Base64.b64_encode c), (Base64.b64_encode c'). split.
  - intros wo Hday. exact (Envelope.open tz _ _ c wo Hser Henc Hc Hday).
  - unfold StudentLogin. fold (Calls.login_payload username captcha).
    unfold bind at 1. rewrite Eseal.
    unfold try_catch, StudentLogin_try. unfold bind at 1. rewrite Ename.
    unfold bind at 1.
    rewrite post_run by (apply login_headers_ok, b64_value_ok, Hc').
    reflexivity.
Qed.

Lemma after_pretoken_fails tz stn more password answer w :
  pretoken_fails answer ->
  after_pretoken tz stn more password answer w = (Ok None, w).
Proof.
  unfold pretoken_fails, after_pretoken, try_catch, Response_json.
  destruct answer as [resp|e]; [|reflexivity].
  unfold bind at 1. unfold lift at 1. unfold bind at 1. unfold lift at 1.
  destruct (JSON.parse (body resp)) as [v|e]; [|reflexivity].
  unfold bind at 1. unfold lift at 1.
  destruct (get_prop v (lit "response")) as [[| | | | | | |]|e];
    intros H; try contradiction; reflexivity.
Qed.

(** The second half of [StudentLogin] up to the answer to the second
    request. *)
Definition after_token stn (answer : result Response)
  : M (option WebPortalSession) :=
  try_catch
    (resp <- lift answer ;;
     resp <- Response_json resp ;;
     r <- lift (get_prop resp (lit "response")) ;;
     session <- lift (WebPortalSession_new stn r) ;;
     ret (Some session))
    (fun _ => ret None).

Lemma after_pretoken_second tz stn more password body1 resp1 fields w :
  JSONText.serializable (token_payload fields password) ->
  Envelope.sealed_length (token_payload fields password) <= max_arguments more ->
  JSON.parse body1 = Ok resp1 ->
  get_prop resp1 (lit "response") = Ok (VObj fields) ->
  exists seal name,
    (forall wo, same_day (local_now tz w) (local_now tz wo) ->
       deserialize_payload tz (VStr seal) wo
       = (Ok (token_payload fields password), tick wo))
    /\ after_pretoken tz stn more password (Ok (mkResponse body1)) w
       = after_token stn
           (network w (List.length (sent w)) (token_request seal name))
           (later 3 9 [token_request seal name] w).
Proof.
  intros Hser Hsize Hp1 Hg1.
  destruct (Envelope.seal tz more _ w Hser Hsize) as (c & Henc & Hc & Eseal).
  destruct (NameFacts.generate_local_name_now tz more (tick w))
    as (c' & _ & Hc' & Ename).
  exists (Base64.b64_encode c), (Base64.b64_encode c'). split.
  - intros wo Hday. exact (Envelope.open tz _ _ c wo Hser Henc Hc Hday).
  - unfold after_pretoken, try_catch, Response_json.
    unfold bind at 1. unfold lift at 1. unfold bind at 1. unfold lift at 1.
    cbn [body]. rewrite Hp1.
    unfold bind at 1. unfold lift at 1. rewrite Hg1.
    unfold bind at 1. unfold lift at 1. cbn [delete_prop].
    unfold bind at 1. unfold lift at 1. cbn [set_prop].
    unfold bind at 1. unfold lift at 1. cbn [set_prop].
    fold (token_payload fields password).
    unfold bind at 1. rewrite Eseal.
    unfold bind at 1. rewrite Ename.
    unfold bind at 1.
    rewrite post_run by (apply login_headers_ok, b64_value_ok, Hc').
    reflexivity.
Qed.

Lemma after_token_fails stn answer w :
  token_fails stn answer -> after_token stn answer w = (Ok None, w).
Proof.
  unfold token_fails, after_token, try_catch, Response_json.
  destruct answer as [resp|e]; [|reflexivity].
  unfold bind at 1. unfold lift at 1. unfold bind at 1. unfold lift at 1.
  destruct (JSON.parse (body resp)) as [v|e]; [|reflexivity].
  unfold bind at 1. unfold lift at 1.
  destruct (get_prop v (lit "response")) as [r2|e]; [|reflexivity].
  unfold bind at 1. unfold lift at 1.
  destruct (WebPortalSession_new stn r2) as [session|e];
    [contradiction|reflexivity].
Qed.

Lemma after_token_succeeds stn txt resp r2 session w :
  JSON.parse txt = Ok resp ->
  get_prop resp (lit "response") = Ok r2 ->
  WebPortalSession_new stn r2 = Ok session ->
  after_token stn (Ok (mkResponse txt)) w = (Ok (Some session), w).
Proof.
  intros Hp Hg Hnew. unfold after_token, try_catch, Response_json.
  unfold bind at 1. unfold lift at 1. unfold bind at 1. unfold lift at 1.
  cbn [body]. rewrite Hp.
  unfold bind at 1. unfold lift at 1. rewrite Hg.
  unfold bind at 1. unfold lift at 1. rewrite Hnew. reflexivity.
Qed.

(** *** The data calls *)

(** A data call up to the answer to its request. *)
Definition after_data (answer : result Response) : M value :=
  try_catch
    (resp <- lift answer ;;
     resp <- Response_json resp ;;
     lift (get_prop resp (lit "response")))
    (fun _ => ret VNull).

Lemma data_call_first tz more endpoint s payload w :
  JSONText.serializable payload ->
  header_value_ok (authorization s) = true ->
  exists name,
    generate_local_name tz more None w = (Ok name, tick (tick (draws_by 9 w)))
    /\ data_call tz more endpoint (Instance s) payload w
       = after_data
           (network w (List.length (sent w))
                    (data_request endpoint (JSONText.text payload) s name))
           (later 2 9 [data_request endpoint (JSONText.text payload) s name] w).
Proof.
  intros Hser Hauth.
  destruct (NameFacts.generate_local_name_now tz more w) as (c' & _ & Hc' & Ename).
  exists (Base64.b64_encode c'). split; [exact Ename|].
  unfold data_call, data_call_try, try_catch. cbn [session_get_headers].
  unfold get_headers.
  unfold bind at 1. unfold bind at 1. rewrite Ename.
  unfold ret at 1. unfold bind at 1. unfold lift at 1.
  rewrite (JSONText.stringify_text payload Hser).
  unfold bind at 1. cbn [ToString]. fold (authorization s).
  rewrite post_run by (apply data_headers_ok; [exact Hauth|apply b64_value_ok, Hc']).
  reflexivity.
Qed.

(** A data call whose [Authorization] header is not a valid header value:
    [fetch] throws before anything is sent. *)
Lemma data_call_bad_header tz more endpoint s payload w :
  JSONText.serializable payload ->
  header_value_ok (authorization s) = false ->
  data_call tz more endpoint (Instance s) payload w
  = (Ok VNull, tick (tick (draws_by 9 w))).
Proof.
  intros Hser Hauth.
  destruct (NameFacts.generate_local_name_now tz more w) as (c' & _ & Hc' & Ename).
  unfold data_call, data_call_try, try_catch. cbn [session_get_headers].
  unfold get_headers.
  unfold bind at 1. unfold bind at 1. rewrite Ename.
  unfold ret at 1. unfold bind at 1. unfold lift at 1.
  rewrite (JSONText.stringify_text payload Hser).
  unfold bind at 1. unfold post, fetch. cbn [req_headers ToString].
  fold (authorization s). unfold headers_ok. cbn [forallb fst snd].
  rewrite Hauth, !andb_false_r, andb_false_l || rewrite Hauth.
  rewrite ?andb_false_r, ?andb_false_l. reflexivity.
Qed.

Lemma after_data_fails answer w :
  data_fails answer -> after_data answer w = (Ok VNull, w).
Proof.
  unfold data_fails, after_data, try_catch, Response_json.
  destruct answer as [resp|e]; [|reflexivity].
  unfold bind at 1. unfold lift at 1. unfold bind at 1. unfold lift at 1.
  destruct (JSON.parse (body resp)) as [[| | | | | | |]|e];
    intros H; try contradiction; reflexivity.
Qed.

Lemma after_data_succeeds txt resp v w :
  JSON.parse txt = Ok resp ->
  get_prop resp (lit "response") = Ok v ->
  after_data (Ok (mkResponse txt)) w = (Ok v, w).
Proof.
  intros Hp Hg. unfold after_data, try_catch, Response_json.
  unfold bind at 1. unfold lift at 1. unfold bind at 1. unfold lift at 1.
  cbn [body]. rewrite Hp. unfold lift. rewrite Hg. reflexivity.
Qed.

End TraceFacts.

(** Values for the examples: a network that answers every first request
    with [pretoken_answer] and every later one with [token_answer]. *)
Definition pretoken_answer : value :=
  VObj [(lit "status", VObj [(lit "responseStatus", VStr (lit "Success"))]);
        (lit "response",
         VObj [(lit "rejectedData", VArr []);
               (lit "username", VStr (lit "21103001"));
               (lit "otppwd", VStr (lit "PWD"))])].

Definition token_answer : value :=
  VObj [(lit "response", login_response (lit "h.eyJleHAiOjE3MDAwMDAwMDB9.s"))].

Definition world1 : World :=
  mkWorld (fun _ => t_2024_03_15) 0 entropy0 0
          (fun k _ => Ok (mkResponse
                            (JSONText.text (match k with
                                            | O => pretoken_answer
                                            | _ => token_answer
                                            end))))
          [].

Definition session1 : WebPortalSession :=
  match WebPortalSession_new no_numeric_strings
          (login_response (lit "h.eyJleHAiOjE3MDAwMDAwMDB9.s")) with
  | Ok s => s
  | Throw _ => session0
  end.

Ltac serializable_value :=
  repeat first
    [ apply JSONText.ser_obj | apply JSONText.ser_arr | apply JSONText.ser_str
    | apply JSONText.ser_num | apply JSONText.ser_null | apply JSONText.ser_bool
    | apply Forall_cons | apply Forall_nil | apply NoDup_cons | apply NoDup_nil
    | split
    | assumption
    | (apply Forall_forall; intros ? Hin; cbn in Hin; unfold code_unit_ok; lia)
    | (cbn; intuition discriminate)
    | (cbn; lia) ].

(** X20.  When the sealed first payload is within what [base64Encode]
    accepts and the first request of [StudentLogin] gets no answer, an
    answer that is not JSON, or JSON whose [response] is not an object, the
    login returns [null] having sent that one request only: a POST to
    [/token/pretoken-check] whose body opens, on the day it was sealed, to
    the object of [username], [usertype] [S] and [captcha]; the password is
    not in it. *)
Theorem StudentLogin_pretoken_failure (tz : Z -> Z) (stn : jsstring -> number)
    (more : nat) (username password captcha : value) (w : World) :
  JSONText.serializable (Calls.login_payload username captcha) ->
  Envelope.sealed_length (Calls.login_payload username captcha)
  <= max_arguments more ->
  (forall r, TraceFacts.pretoken_fails (network w (List.length (sent w)) r)) ->
  exists body name,
    StudentLogin tz stn more username password captcha w
    = (Ok None, TraceFacts.later 3 9 [TraceFacts.pretoken_request body name] w)
    /\ forall wo,
         DateFacts.same_day (DateSeq.local_now tz w) (DateSeq.local_now tz wo) ->
         deserialize_payload tz (VStr body) wo
         = (Ok (VObj [(lit "username", username);
                      (lit "usertype", VStr (lit "S"));
                      (lit "captcha",
                       match captcha with VUndefined => DEFCAPTCHA | _ => captcha end)]),
            DateSeq.tick wo).
Proof.
  intros Hser Hsize Hnet.
  destruct (TraceFacts.StudentLogin_first tz stn more username password captcha w
              Hser Hsize)
    as (body & name & Hopen & E).
  exists body, name. split; [|exact Hopen].
  rewrite E. apply TraceFacts.after_pretoken_fails, Hnet.
Qed.

Lemma StudentLogin_pretoken_failure_witness :
  exists body name,
    StudentLogin IST no_numeric_strings 0 (VStr (lit "21103001"))
                 (VStr (lit "secret")) VUndefined world0
    = (Ok None, TraceFacts.later 3 9 [TraceFacts.pretoken_request body name] world0)
    /\ forall wo,
         DateFacts.same_day (DateSeq.local_now IST world0) (DateSeq.local_now IST wo) ->
         deserialize_payload IST (VStr body) wo
         = (Ok (VObj [(lit "username", VStr (lit "21103001"));
                      (lit "usertype", VStr (lit "S"));
                      (lit "captcha", DEFCAPTCHA)]),
            DateSeq.tick wo).
Proof.
  apply (StudentLogin_pretoken_failure IST no_numeric_strings 0
           (VStr (lit "21103001")) (VStr (lit "secret")) VUndefined world0).
  - unfold Calls.login_payload, DEFCAPTCHA. serializable_value.
  - vm_compute. discriminate.
  - intros r. exact I.
Defined.

(** X21.  When both sealed payloads are within what [base64Encode]
    accepts, the first request is answered with JSON whose [response] is an
    object and the second with JSON whose [response] the constructor
    accepts, [StudentLogin] returns the session built from that second
    [response], having sent exactly two requests: the POST to
    [/token/pretoken-check], then a POST to [/token/generate-token1] whose
    body opens to the first [response] without [rejectedData] and with
    [Modulename] set to [STUDENTMODULE] and [passwordotpvalue] to the
    password. *)
Theorem StudentLogin_success (tz : Z -> Z) (stn : jsstring -> number)
    (more : nat) (username password captcha : value) (w : World)
    (body1 body2 : jsstring) (resp1 resp2 r2 : value)
    (fields : list (jsstring * value)) (session : WebPortalSession) :
  JSONText.serializable (Calls.login_payload username captcha) ->
  Envelope.sealed_length (Calls.login_payload username captcha)
  <= max_arguments more ->
  JSONText.serializable (TraceFacts.token_payload fields password) ->
  Envelope.sealed_length (TraceFacts.token_payload fields password)
  <= max_arguments more ->
  (forall r, network w (List.length (sent w)) r = Ok (mkResponse body1)) ->
  JSON.parse body1 = Ok resp1 ->
  get_prop resp1 (lit "response") = Ok (VObj fields) ->
  (forall r, network w (S (List.length (sent w))) r = Ok (mkResponse body2)) ->
  JSON.parse body2 = Ok resp2 ->
  get_prop resp2 (lit "response") = Ok r2 ->
  WebPortalSession_new stn r2 = Ok session ->
  exists seal1 name1 seal2 name2,
    StudentLogin tz stn more username password captcha w
    = (Ok (Some session),
       TraceFacts.later 6 18 [TraceFacts.pretoken_request seal1 name1;
                              TraceFacts.token_request seal2 name2] w)
    /\ (forall wo,
          DateFacts.same_day (DateSeq.local_now tz w) (DateSeq.local_now tz wo) ->
          deserialize_payload tz (VStr seal1) wo
          = (Ok (Calls.login_payload username captcha), DateSeq.tick wo))
    /\ (forall wo,
          DateFacts.same_day (LocalTime tz (clock w (3 + ticks w)))
                             (DateSeq.local_now tz wo) ->
          deserialize_payload tz (VStr seal2) wo
          = (Ok (VObj (define_key (lit "passwordotpvalue") password
                         (define_key (lit "Modulename") (VStr (lit "STUDENTMODULE"))
                            (remove_key (lit "rejectedData") fields)))),
             DateSeq.tick wo)).
Proof.
  intros Hser1 Hsize1 Hser2 Hsize2 Hnet1 Hp1 Hg1 Hnet2 Hp2 Hg2 Hnew.
  destruct (TraceFacts.StudentLogin_first tz stn more username password captcha w
              Hser1 Hsize1)
    as (seal1 & name1 & Hopen1 & E).
  destruct (TraceFacts.after_pretoken_second tz stn more password body1 resp1 fields
              (TraceFacts.later 3 9 [TraceFacts.pretoken_request seal1 name1] w)
              Hser2 Hsize2 Hp1 Hg1)
    as (seal2 & name2 & Hopen2 & E2).
  exists seal1, name1, seal2, name2. split; [|split].
  - rewrite E, Hnet1, E2. cbn [TraceFacts.later network sent].
    rewrite length_app, Nat.add_1_r, Hnet2.
    rewrite (TraceFacts.after_token_succeeds stn body2 resp2 r2 session _ Hp2 Hg2 Hnew).
    unfold TraceFacts.later. cbn [clock ticks entropy draws network sent].
    rewrite <- app_assoc. reflexivity.
  - exact Hopen1.
  - exact Hopen2.
Qed.

Lemma StudentLogin_success_witness :
  exists seal1 name1 seal2 name2,
    StudentLogin IST no_numeric_strings 0 (VStr (lit "21103001"))
                 (VStr (lit "secret")) VUndefined world1
    = (Ok (Some session1),
       TraceFacts.later 6 18 [TraceFacts.pretoken_request seal1 name1;
                              TraceFacts.token_request seal2 name2] world1)
    /\ (forall wo,
          DateFacts.same_day (DateSeq.local_now IST world1) (DateSeq.local_now IST wo) ->
          deserialize_payload IST (VStr seal1) wo
          = (Ok (Calls.login_payload (VStr (lit "21103001")) VUndefined),
             DateSeq.tick wo))
    /\ (forall wo,
          DateFacts.same_day (LocalTime IST (clock world1 (3 + ticks world1)))
                             (DateSeq.local_now IST wo) ->
          deserialize_payload IST (VStr seal2) wo
          = (Ok (VObj [(lit "username", VStr (lit "21103001"));
                       (lit "otppwd", VStr (lit "PWD"));
                       (lit "Modulename", VStr (lit "STUDENTMODULE"));
                       (lit "passwordotpvalue", VStr (lit "secret"))]),
             DateSeq.tick wo)).
Proof.
  apply (StudentLogin_success IST no_numeric_strings 0 (VStr (lit "21103001"))
           (VStr (lit "secret")) VUndefined world1
           (JSONText.text pretoken_answer) (JSONText.text token_answer)
           pretoken_answer token_answer
           (login_response (lit "h.eyJleHAiOjE3MDAwMDAwMDB9.s"))
           [(lit "rejectedData", VArr []);
            (lit "username", VStr (lit "21103001"));
            (lit "otppwd", VStr (lit "PWD"))]
           session1).
  - unfold Calls.login_payload, DEFCAPTCHA. serializable_value.
  - vm_compute. discriminate.
  - vm_compute TraceFacts.token_payload. serializable_value.
  - vm_compute. discriminate.
  - intros r. reflexivity.
  - vm_compute. reflexivity.
  - reflexivity.
  - intros r. reflexivity.
  - vm_compute. reflexivity.
  - reflexivity.
  - vm_compute. reflexivity.
Defined.

(** X22.  When both sealed payloads are within what [base64Encode]
    accepts and the first answer is JSON whose [response] is an object, but
    the second request gets no answer, an answer that is not JSON or a
    [response] that the constructor rejects, [StudentLogin] returns [null]
    after its two requests: the constructor's error does not reach the
    caller. *)
Theorem StudentLogin_token_failure (tz : Z -> Z) (stn : jsstring -> number)
    (more : nat) (username password captcha : value) (w : World)
    (body1 : jsstring) (resp1 : value) (fields : list (jsstring * value)) :
  JSONText.serializable (Calls.login_payload username captcha) ->
  Envelope.sealed_length (Calls.login_payload username captcha)
  <= max_arguments more ->
  JSONText.serializable (TraceFacts.token_payload fields password) ->
  Envelope.sealed_length (TraceFacts.token_payload fields password)
  <= max_arguments more ->
  (forall r, network w (List.length (sent w)) r = Ok (mkResponse body1)) ->
  JSON.parse body1 = Ok resp1 ->
  get_prop resp1 (lit "response") = Ok (VObj fields) ->
  (forall r, TraceFacts.token_fails stn
               (network w (S (List.length (sent w))) r)) ->
  exists seal1 name1 seal2 name2,
    StudentLogin tz stn more username password captcha w
    = (Ok None,
       TraceFacts.later 6 18 [TraceFacts.pretoken_request seal1 name1;
                              TraceFacts.token_request seal2 name2] w).
Proof.
  intros Hser1 Hsize1 Hser2 Hsize2 Hnet1 Hp1 Hg1 Hnet2.
  destruct (TraceFacts.StudentLogin_first tz stn more username password captcha w
              Hser1 Hsize1)
    as (seal1 & name1 & _ & E).
  destruct (TraceFacts.after_pretoken_second tz stn more password body1 resp1 fields
              (TraceFacts.later 3 9 [TraceFacts.pretoken_request seal1 name1] w)
              Hser2 Hsize2 Hp1 Hg1)
    as (seal2 & name2 & _ & E2).
  exists seal1, name1, seal2, name2.
  rewrite E, Hnet1, E2. cbn [TraceFacts.later network sent].
  rewrite length_app, Nat.add_1_r.
  rewrite (TraceFacts.after_token_fails stn _ _ (Hnet2 _)).
  unfold TraceFacts.later. cbn [clock ticks entropy draws network sent].
  rewrite <- app_assoc. reflexivity.
Qed.

(** A network whose second answer is a login response without a token. *)
Definition world2 : World :=
  mkWorld (fun _ => t_2024_03_15) 0 entropy0 0
          (fun k _ => Ok (mkResponse
                            (JSONText.text
                               (match k with
                                | O => pretoken_answer
                                | _ => VObj [(lit "response",
                                              VObj [(lit "regdata", VObj [])])]
                                end))))
          [].

Lemma StudentLogin_token_failure_witness :
  exists seal1 name1 seal2 name2,
    StudentLogin IST no_numeric_strings 0 (VStr (lit "21103001"))
                 (VStr (lit "secret")) VUndefined world2
    = (Ok None,
       TraceFacts.later 6 18 [TraceFacts.pretoken_request seal1 name1;
                              TraceFacts.token_request seal2 name2] world2).
Proof.
  apply (StudentLogin_token_failure IST no_numeric_strings 0 (VStr (lit "21103001"))
           (VStr (lit "secret")) VUndefined world2
           (JSONText.text pretoken_answer) pretoken_answer
           [(lit "rejectedData", VArr []);
            (lit "username", VStr (lit "21103001"));
            (lit "otppwd", VStr (lit "PWD"))]).
  - unfold Calls.login_payload, DEFCAPTCHA. serializable_value.
  - vm_compute. discriminate.
  - vm_compute TraceFacts.token_payload. serializable_value.
  - vm_compute. discriminate.
  - intros r. reflexivity.
  - vm_compute. reflexivity.
  - reflexivity.
  - intros r. vm_compute. exact I.
Defined.

(** X23.  Given a session with a JSON-serializable [instituteid] and a
    token that makes a valid [Authorization] header, and an answer that is
    JSON, [GetPersonalInfo] and [GetHostelInfo] return the [response]
    property of the answer ([undefined] when the answer has none), having
    sent one POST with the headers [Content-Type], [Authorization] and
    [LocalName], whose body is the plain JSON text, not sealed, of
    [clinetid] and [instituteid], or of [instituteid] alone. *)
Theorem data_calls_return_response (tz : Z -> Z) (more : nat)
    (s : WebPortalSession) (w : World) (answer : jsstring) (resp v : value) :
  JSONText.serializable (instituteid s) ->
  header_value_ok (lit "Bearer " ++ ToString (token s)) = true ->
  (forall r, network w (List.length (sent w)) r = Ok (mkResponse answer)) ->
  JSON.parse answer = Ok resp ->
  get_prop resp (lit "response") = Ok v ->
  let personal := VObj [(lit "clinetid", VStr (lit "SOAU"));
                        (lit "instituteid", instituteid s)] in
  let hostel := VObj [(lit "instituteid", instituteid s)] in
  exists name body1 body2,
    GetPersonalInfo tz more (Instance s) w
    = (Ok v,
       TraceFacts.later 2 9
         [TraceFacts.data_request
            (lit "/studentpersinfo/getstudent-personalinformation") body1 s name] w)
    /\ GetHostelInfo tz more (Instance s) w
       = (Ok v,
          TraceFacts.later 2 9
            [TraceFacts.data_request
               (lit "/myhostelallocationdetail/gethostelallocationdetail")
               body2 s name] w)
    /\ JSON.parse body1 = Ok personal
    /\ JSON.parse body2 = Ok hostel.
Proof.
  intros Hid Hauth Hnet Hp Hg personal hostel.
  assert (H1 : JSONText.serializable personal) by (unfold personal; serializable_value).
  assert (H2 : JSONText.serializable hostel) by (unfold hostel; serializable_value).
  destruct (TraceFacts.data_call_first tz more
              (lit "/studentpersinfo/getstudent-personalinformation") s personal w
              H1 Hauth)
    as (name & En & E1).
  destruct (TraceFacts.data_call_first tz more
              (lit "/myhostelallocationdetail/gethostelallocationdetail") s hostel w
              H2 Hauth)
    as (name' & En' & E2).
  assert (name' = name) by congruence. subst name'.
  exists name, (JSONText.text personal), (JSONText.text hostel).
  split; [|split; [|split]].
  - unfold GetPersonalInfo, bind at 1, lift at 1. cbn [session_instituteid].
    fold personal. rewrite E1, Hnet.
    apply (TraceFacts.after_data_succeeds answer resp v _ Hp Hg).
  - unfold GetHostelInfo, bind at 1, lift at 1. cbn [session_instituteid].
    fold hostel. rewrite E2, Hnet.
    apply (TraceFacts.after_data_succeeds answer resp v _ Hp Hg).
  - apply JSONValue.parse_stringify, H1.
  - apply JSONValue.parse_stringify, H2.
Qed.

Lemma data_calls_return_response_witness :
  let personal := VObj [(lit "clinetid", VStr (lit "SOAU"));
                        (lit "instituteid", instituteid session0)] in
  let hostel := VObj [(lit "instituteid", instituteid session0)] in
  exists name body1 body2,
    GetPersonalInfo IST 0 (Instance session0) world1
    = (Ok (VObj [(lit "rejectedData", VArr []);
                 (lit "username", VStr (lit "21103001"));
                 (lit "otppwd", VStr (lit "PWD"))]),
       TraceFacts.later 2 9
         [TraceFacts.data_request
            (lit "/studentpersinfo/getstudent-personalinformation")
            body1 session0 name] world1)
    /\ GetHostelInfo IST 0 (Instance session0) world1
       = (Ok (VObj [(lit "rejectedData", VArr []);
                    (lit "username", VStr (lit "21103001"));
                    (lit "otppwd", VStr (lit "PWD"))]),
          TraceFacts.later 2 9
            [TraceFacts.data_request
               (lit "/myhostelallocationdetail/gethostelallocationdetail")
               body2 session0 name] world1)
    /\ JSON.parse body1 = Ok personal
    /\ JSON.parse body2 = Ok hostel.
Proof.
  apply (data_calls_return_response IST 0 session0 world1
           (JSONText.text pretoken_answer) pretoken_answer).
  - unfold session0. cbn [instituteid]. serializable_value.
  - reflexivity.
  - intros r. reflexivity.
  - vm_compute. reflexivity.
  - reflexivity.
Defined.

(** A session whose token, holding a line feed in its middle, makes no
    valid header value. *)
Definition session_bad_token : WebPortalSession :=
  mkSession VNull VNull (VStr (lit "JIIT"))
            (VStr (lit "11IN1902J000001")) (VStr (lit "M1")) (VStr (lit "U1"))
            (VStr (lit "h.e30." ++ [10] ++ lit "s")) InvalidDate
            (VStr (lit "JAYPEE")) (VStr (lit "S")) (VStr (lit "A STUDENT"))
            (VStr (lit "21103001")).

(** X24.  Given a session with a JSON-serializable [instituteid]: when its
    token makes a valid [Authorization] header and the request of
    [GetPersonalInfo] or [GetHostelInfo] gets no answer, an answer that is
    not JSON, or the JSON text [null], the call returns [null], having sent
    its one request; when the token makes no valid header value, [fetch]
    throws, and the call returns [null] with nothing sent. *)
Theorem data_calls_return_null (tz : Z -> Z) (more : nat)
    (s : WebPortalSession) (w : World) :
  JSONText.serializable (instituteid s) ->
  let personal := VObj [(lit "clinetid", VStr (lit "SOAU"));
                        (lit "instituteid", instituteid s)] in
  let hostel := VObj [(lit "instituteid", instituteid s)] in
  (header_value_ok (lit "Bearer " ++ ToString (token s)) = true ->
   (forall r, TraceFacts.data_fails (network w (List.length (sent w)) r)) ->
   exists name,
     GetPersonalInfo tz more (Instance s) w
     = (Ok VNull,
        TraceFacts.later 2 9
          [TraceFacts.data_request
             (lit "/studentpersinfo/getstudent-personalinformation")
             (JSONText.text personal) s name] w)
     /\ GetHostelInfo tz more (Instance s) w
        = (Ok VNull,
           TraceFacts.later 2 9
             [TraceFacts.data_request
                (lit "/myhostelallocationdetail/gethostelallocationdetail")
                (JSONText.text hostel) s name] w))
  /\ (header_value_ok (lit "Bearer " ++ ToString (token s)) = false ->
      GetPersonalInfo tz more (Instance s) w
      = (Ok VNull, DateSeq.tick (DateSeq.tick (LocalName.draws_by 9 w)))
      /\ GetHostelInfo tz more (Instance s) w
         = (Ok VNull, DateSeq.tick (DateSeq.tick (LocalName.draws_by 9 w)))).
Proof.
  intros Hid personal hostel.
  assert (H1 : JSONText.serializable personal) by (unfold personal; serializable_value).
  assert (H2 : JSONText.serializable hostel) by (unfold hostel; serializable_value).
  split.
  - intros Hauth Hnet.
    destruct (TraceFacts.data_call_first tz more
                (lit "/studentpersinfo/getstudent-personalinformation") s personal w
                H1 Hauth)
      as (name & En & E1).
    destruct (TraceFacts.data_call_first tz more
                (lit "/myhostelallocationdetail/gethostelallocationdetail") s hostel w
                H2 Hauth)
      as (name' & En' & E2).
    assert (name' = name) by congruence. subst name'.
    exists name. split.
    + unfold GetPersonalInfo, bind at 1, lift at 1. cbn [session_instituteid].
      fold personal. rewrite E1. apply TraceFacts.after_data_fails, Hnet.
    + unfold GetHostelInfo, bind at 1, lift at 1. cbn [session_instituteid].
      fold hostel. rewrite E2. apply TraceFacts.after_data_fails, Hnet.
  - intros Hauth. split.
    + unfold GetPersonalInfo, bind at 1, lift at 1. cbn [session_instituteid].
      fold personal. apply TraceFacts.data_call_bad_header; assumption.
    + unfold GetHostelInfo, bind at 1, lift at 1. cbn [session_instituteid].
      fold hostel. apply TraceFacts.data_call_bad_header; assumption.
Qed.

Lemma data_calls_return_null_witness :
  (exists name,
     GetPersonalInfo IST 0 (Instance session0) world0
     = (Ok VNull,
        TraceFacts.later 2 9
          [TraceFacts.data_request
             (lit "/studentpersinfo/getstudent-personalinformation")
             (JSONText.text (VObj [(lit "clinetid", VStr (lit "SOAU"));
                                   (lit "instituteid", instituteid session0)]))
             session0 name] world0)
     /\ GetHostelInfo IST 0 (Instance session0) world0
        = (Ok VNull,
           TraceFacts.later 2 9
             [TraceFacts.data_request
                (lit "/myhostelallocationdetail/gethostelallocationdetail")
                (JSONText.text (VObj [(lit "instituteid", instituteid session0)]))
                session0 name] world0))
  /\ GetPersonalInfo IST 0 (Instance session_bad_token) world1
     = (Ok VNull, DateSeq.tick (DateSeq.tick (LocalName.draws_by 9 world1)))
  /\ GetHostelInfo IST 0 (Instance session_bad_token) world1
     = (Ok VNull, DateSeq.tick (DateSeq.tick (LocalName.draws_by 9 world1))).
Proof.
  split.
  - apply (data_calls_return_null IST 0 session0 world0).
    + unfold session0. cbn [instituteid]. serializable_value.
    + reflexivity.
    + intros r. exact I.
  - apply (data_calls_return_null IST 0 session_bad_token world1).
    + unfold session_bad_token. cbn [instituteid]. serializable_value.
    + reflexivity.
Defined.

(** X25.  Given a value that is not a session (it has no [get_headers]
    method), [GetPersonalInfo] and [GetHostelInfo] throw [TypeError] when
    the value is [null] or [undefined], and otherwise return [null] without
    reading the clock, drawing a random number or sending anything. *)
Theorem data_calls_without_session (tz : Z -> Z) (more : nat) (v : value)
    (w : World) :
  match v with
  | VUndefined | VNull =>
      GetPersonalInfo tz more (Other v) w = (Throw TypeError, w)
      /\ GetHostelInfo tz more (Other v) w = (Throw TypeError, w)
  | _ =>
      GetPersonalInfo tz more (Other v) w = (Ok VNull, w)
      /\ GetHostelInfo tz more (Other v) w = (Ok VNull, w)
  end.
Proof. destruct v; split; reflexivity. Qed.
